(** * The key-value transaction indexer (state/txindex/kv/kv.go)

    A shallow embedding of the indexer: the key codec, the write path
    ([Index], [AddBatch], [indexEvents]) and the query path ([Search],
    [lookForHash], [match_], [matchRange]) over an ordered byte store, and
    the properties of these operations.

    Go [string] and [[]byte] are both modelled as [string] (a list of 8-bit
    characters); [int64], [uint32] and [int] are [Z] with the wrap-around
    written out where the code can reach it; Go maps are [gmap]s. *)

From Stdlib Require Import ZArith Ascii String List Lia.
From stdpp Require Import base option list strings gmap sorting.

Local Open Scope Z_scope.

(** ** Outcomes: a Go call either returns or panics *)

Inductive outcome (A : Type) : Type :=
  | Ret (a : A)
  | Panic (msg : string).
Arguments Ret {A} a.
Arguments Panic {A} msg.

Definition obind {A B} (m : outcome A) (f : A -> outcome B) : outcome B :=
  match m with
  | Ret a => f a
  | Panic msg => Panic msg
  end.

(** Sequencing, for the computations of this file. *)
Class Bind (M : Type -> Type) : Type :=
  bind : forall {A B : Type}, M A -> (A -> M B) -> M B.

Notation "x <- m ;; k" := (bind m (fun x => k))
  (at level 20, m at level 99, k at level 200, only parsing).
Notation "' p <- m ;; k" := (bind m (fun p => k))
  (at level 20, p pattern, m at level 99, k at level 200, only parsing).

#[global] Instance outcome_bind : Bind outcome := @obind.

(** [s[i]] on a slice: a run-time panic when [i] is out of range. *)
Definition sliceIndex {A} (l : list A) (i : Z) : outcome A :=
  if (i <? 0) || (Z.of_nat (length l) <=? i) then Panic "index out of range"
  else match nth_error l (Z.to_nat i) with
       | Some a => Ret a
       | None => Panic "index out of range"
       end.

(** ** Machine integers *)

Definition int64_min : Z := - 2 ^ 63.
Definition int64_max : Z := 2 ^ 63 - 1.

(** Conversion to [int64]: the low 64 bits, read as a signed number. This is
    what [int64] arithmetic and the [Int64] method of a big integer produce. *)
Definition wrap64 (z : Z) : Z := (z + 2 ^ 63) mod 2 ^ 64 - 2 ^ 63.

Definition in_int64 (z : Z) : Prop := int64_min <= z <= int64_max.

(** [byte(x)]: the low 8 bits. *)
Definition byte_of (z : Z) : ascii := ascii_of_N (Z.to_N (z mod 256)).

(** The four bytes [byte(h>>24), byte(h>>16), byte(h>>8), byte(h)]. *)
Definition BE4 (h : Z) : string :=
  String (byte_of (Z.shiftr h 24))
    (String (byte_of (Z.shiftr h 16))
       (String (byte_of (Z.shiftr h 8))
          (String (byte_of h) EmptyString))).

(** ** The Go library functions the indexer calls *)

Inductive Error : Type :=
  | ErrorEmptyHash
  | ErrSyntax (fn input : string)
  | ErrRange (fn input : string)
  | ErrInvalidByte (c : ascii)
  | ErrLength
  | ErrProto (msg : string)
  | ErrQuery (msg : string)
  | Errorf (msg : string) (cause : Error).

Module GoStrings.

(** [strings.Count(s, sep)] for the one-byte separator. *)
Fixpoint Count (s : string) (sep : ascii) : nat :=
  match s with
  | EmptyString => 0%nat
  | String c s' => ((if Ascii.eqb c sep then 1 else 0) + Count s' sep)%nat
  end.

(** [strings.SplitN(s, sep, -1)] for the one-byte separator: all the
    pieces between separators; never the empty list. *)
Fixpoint Split (s : string) (sep : ascii) : list string :=
  match s with
  | EmptyString => [EmptyString]
  | String c s' =>
      if Ascii.eqb c sep then EmptyString :: Split s' sep
      else match Split s' sep with
           | p :: ps => String c p :: ps
           | [] => [String c EmptyString]
           end
  end.

(** [strings.HasPrefix] and the rest of [s] after the prefix. *)
Fixpoint stripPrefix (p s : string) : option string :=
  match p, s with
  | EmptyString, _ => Some s
  | String a p', String b s' => if Ascii.eqb a b then stripPrefix p' s' else None
  | String _ _, EmptyString => None
  end.

Definition HasPrefix (s p : string) : bool :=
  match stripPrefix p s with Some _ => true | None => false end.

Definition TrimPrefix (s p : string) : string :=
  match stripPrefix p s with Some r => r | None => s end.

(** [strings.HasSuffix] and the part of [s] before the suffix. *)
Fixpoint stripSuffix (suf s : string) : option string :=
  if String.eqb s suf then Some EmptyString
  else match s with
       | EmptyString => None
       | String c s' =>
           match stripSuffix suf s' with
           | Some r => Some (String c r)
           | None => None
           end
       end.

Definition TrimSuffix (s suf : string) : string :=
  match stripSuffix suf s with Some r => r | None => s end.

(** The first occurrence of [sub] in [s]: what is before it and what is
    after it ([strings.Index] and the two slices around it). *)
Fixpoint cut (sub s : string) : option (string * string) :=
  match stripPrefix sub s with
  | Some r => Some (EmptyString, r)
  | None =>
      match s with
      | EmptyString => None
      | String c s' =>
          match cut sub s' with
          | Some (b, a) => Some (String c b, a)
          | None => None
          end
      end
  end.

Definition Contains (s sub : string) : bool :=
  match cut sub s with Some _ => true | None => false end.

End GoStrings.

Module GoStrconv.

Definition digitChar (d : Z) : ascii := ascii_of_N (Z.to_N (48 + d)).

Fixpoint formatBits (fuel : nat) (n : Z) (acc : string) : string :=
  match fuel with
  | O => acc
  | S f =>
      let acc' := String (digitChar (n mod 10)) acc in
      if n <? 10 then acc' else formatBits f (n / 10) acc'
  end.

(** [strconv.FormatInt(i, 10)], also the rendering of [%d] and of a big
    integer. A number below [2 ^ k] has at most [k] decimal digits. *)
Definition formatUint (n : Z) : string :=
  formatBits (S (Z.to_nat (Z.log2 n))) n EmptyString.

Definition FormatInt (i : Z) : string :=
  if i <? 0 then String "-" (formatUint (- i)) else formatUint i.

Definition digitVal (c : ascii) : option Z :=
  let n := Z.of_N (N_of_ascii c) in
  if (48 <=? n) && (n <=? 57) then Some (n - 48) else None.

Fixpoint parseDigits (acc : Z) (s : string) : option Z :=
  match s with
  | EmptyString => Some acc
  | String c s' =>
      match digitVal c with
      | Some d => parseDigits (10 * acc + d) s'
      | None => None
      end
  end.

(** [strconv.ParseInt(s, 10, 64)]: an optional sign, then at least one
    decimal digit; a value outside [int64] is a range error. *)
Definition ParseInt (s : string) : Error + Z :=
  let fn := "ParseInt"%string in
  match s with
  | EmptyString => inl (ErrSyntax fn s)
  | String c s' =>
      let neg := Ascii.eqb c "-" in
      let body := if Ascii.eqb c "+" || neg then s' else s in
      match body with
      | EmptyString => inl (ErrSyntax fn s)
      | _ =>
          match parseDigits 0 body with
          | None => inl (ErrSyntax fn s)
          | Some un =>
              if negb neg && (2 ^ 63 <=? un) then inl (ErrRange fn s)
              else if neg && (2 ^ 63 <? un) then inl (ErrRange fn s)
              else inr (if neg then - un else un)
          end
      end
  end.

End GoStrconv.

Module GoHex.

Definition fromHexChar (c : ascii) : option Z :=
  let n := Z.of_N (N_of_ascii c) in
  if (48 <=? n) && (n <=? 57) then Some (n - 48)
  else if (97 <=? n) && (n <=? 102) then Some (n - 97 + 10)
  else if (65 <=? n) && (n <=? 70) then Some (n - 65 + 10)
  else None.

(** [hex.DecodeString]: the bytes decoded before the first error, and the
    error. An invalid character is reported before an odd length. *)
Fixpoint DecodeString (s : string) : string * option Error :=
  match s with
  | EmptyString => (EmptyString, None)
  | String p EmptyString =>
      match fromHexChar p with
      | None => (EmptyString, Some (ErrInvalidByte p))
      | Some _ => (EmptyString, Some ErrLength)
      end
  | String p (String q s') =>
      match fromHexChar p with
      | None => (EmptyString, Some (ErrInvalidByte p))
      | Some a =>
          match fromHexChar q with
          | None => (EmptyString, Some (ErrInvalidByte q))
          | Some b =>
              let '(r, e) := DecodeString s' in
              (String (byte_of (Z.lor (Z.shiftl a 4) b)) r, e)
          end
      end
  end.

End GoHex.

(** ** The data model *)

(** A value held in a Go [interface{}]: the operand of a condition, a bound
    of a range, an argument of [%v]. [VOther] stands for a value of any other
    type and carries its [%v] rendering. *)
Inductive Value : Type :=
  | VNil
  | VString (s : string)
  | VBigInt (z : Z)
  | VInt64 (z : Z)
  | VOther (rendering : string).

(** [fmt.Sprintf("%v", f)]. *)
Definition fmtV (f : Value) : string :=
  match f with
  | VNil => "<nil>"
  | VString s => s
  | VBigInt z => GoStrconv.FormatInt z
  | VInt64 z => GoStrconv.FormatInt z
  | VOther r => r
  end.

Module abci.

Record EventAttribute : Type := {
  Key : string;
  Value : string;
  GetIndex : bool
}.

Record Event : Type := {
  Type_ : string;
  Attributes : list EventAttribute
}.

Record ResponseDeliverTx : Type := {
  Code : Z;
  Events : list Event
}.

Record TxResult : Type := {
  Height : Z;
  Index : Z;
  Tx : string;
  Result : ResponseDeliverTx
}.

Definition CodeTypeOK : Z := 0.

Definition IsOK (r : ResponseDeliverTx) : bool := Code r =? CodeTypeOK.

End abci.

Module query.

Inductive Operator : Type :=
  | OpLessEqual | OpGreaterEqual | OpLess | OpGreater
  | OpEqual | OpContains | OpExists.

Record Condition : Type := {
  CompositeKey : string;
  Op : Operator;
  Operand : Value
}.

Definition Operator_eqb (a b : Operator) : bool :=
  match a, b with
  | OpLessEqual, OpLessEqual | OpGreaterEqual, OpGreaterEqual
  | OpLess, OpLess | OpGreater, OpGreater
  | OpEqual, OpEqual | OpContains, OpContains | OpExists, OpExists => true
  | _, _ => false
  end.

(** A parsed query: what [q.Conditions()] returns. *)
Record Query : Type := {
  Conditions : Error + list Condition
}.

End query.

Module indexer.

(** A range over one composite key. The indexer reads the bounds only
    through [LowerBoundValue()] and [UpperBoundValue()], whose results the
    record holds: [VNil] for a missing bound, else the inclusive bound. *)
Record QueryRange : Type := {
  Key : string;
  LowerBoundValue : Value;
  UpperBoundValue : Value
}.

End indexer.

Module types.
Definition TxHashKey : string := "tx.hash".
Definition TxHeightKey : string := "tx.height".
End types.

(** Per-query height information (the zero value is [zeroHeightInfo]). *)
Record HeightInfo : Type := {
  heightRange : indexer.QueryRange;
  height : Z;
  heightEqIdx : Z;
  onlyHeightRange : bool;
  onlyHeightEq : bool
}.

Definition zeroQueryRange : indexer.QueryRange :=
  {| indexer.Key := EmptyString;
     indexer.LowerBoundValue := VNil;
     indexer.UpperBoundValue := VNil |}.

Definition zeroHeightInfo : HeightInfo :=
  {| heightRange := zeroQueryRange; height := 0; heightEqIdx := 0;
     onlyHeightRange := false; onlyHeightEq := false |}.

(** ** Key codec *)

Definition tagKeySeparatorByte : ascii := "/".
Definition tagKeySeparator : string := String tagKeySeparatorByte EmptyString.
Definition eventSeqSeparator : string := "$es$".

Definition isTagKey (key : string) : bool :=
  (3 <=? GoStrings.Count key tagKeySeparatorByte)%nat.

Definition extractHeightFromKey (key : string) : outcome (Error + Z) :=
  let parts := GoStrings.Split key tagKeySeparatorByte in
  p <- sliceIndex parts (Z.of_nat (length parts) - 2);;
  Ret (GoStrconv.ParseInt p).

(** The loop [for i := 1; i <= suffixLen; i++] of [extractValueFromKey],
    with [n] iterations left. *)
Fixpoint extractValueSuffix (parts : list string) (n : nat) (i : Z)
    (suffix : string) : outcome string :=
  match n with
  | O => Ret suffix
  | S n' =>
      p <- sliceIndex parts (Z.of_nat (length parts) - i);;
      extractValueSuffix parts n' (i + 1) (tagKeySeparator +:+ p +:+ suffix)
  end.

Definition extractValueFromKey (key : string) : outcome string :=
  let keyString := key in
  let parts := GoStrings.Split keyString tagKeySeparatorByte in
  p0 <- sliceIndex parts 0;;
  let value := GoStrings.TrimPrefix keyString (p0 +:+ tagKeySeparator) in
  let suffixLen := 2%nat in
  suffix <- extractValueSuffix parts suffixLen 1 EmptyString;;
  Ret (GoStrings.TrimSuffix value suffix).

Definition extractEventSeqFromKey (key : string) : outcome string :=
  let parts := GoStrings.Split key tagKeySeparatorByte in
  lastEl <- sliceIndex parts (Z.of_nat (length parts) - 1);;
  match GoStrings.cut eventSeqSeparator lastEl with
  | Some (_, after) => Ret after
  | None => Ret "0"%string
  end.

Definition keyForEvent (key : string) (value : string) (result : abci.TxResult)
    (eventSeq : Z) : string :=
  key +:+ "/" +:+ value +:+ "/" +:+ GoStrconv.FormatInt (abci.Height result)
    +:+ "/" +:+ GoStrconv.FormatInt (abci.Index result)
    +:+ (eventSeqSeparator +:+ GoStrconv.FormatInt eventSeq).

(** [copy(b[i:], v)]: the buffer after the copy and the number of bytes
    copied, which is the shorter of the two lengths. *)
Definition copyAt (b : list ascii) (i : nat) (v : list ascii) : list ascii * nat :=
  let k := Nat.min (length b - i) (length v) in
  (take i b ++ take k v ++ drop (i + k) b, k).

Fixpoint joinSizeLoop (b : list ascii) (i : nat) (s : list string) : list ascii :=
  match s with
  | [] => b
  | v :: s' =>
      let '(b', k) := copyAt b i (list_ascii_of_string v) in
      joinSizeLoop b' (i + k) s'
  end.

Definition joinSizeBytes (n : nat) (s : list string) : string :=
  string_of_list_ascii (joinSizeLoop (replicate n zero) 0 s).

Definition joinBytes (s : list string) : string :=
  let n := fold_left (fun n v => (n + String.length v)%nat) s 0%nat in
  joinSizeBytes n s.

Definition keyForHeight (result : abci.TxResult) : string :=
  joinBytes [types.TxHeightKey; tagKeySeparator;
             BE4 (abci.Height result);
             "/" +:+ GoStrconv.FormatInt (abci.Height result)
               +:+ "/" +:+ GoStrconv.FormatInt (abci.Index result)
               +:+ (eventSeqSeparator +:+ "0")].

(** [startKey(fields...)]: every field rendered with [%v] and followed by
    the separator. *)
Definition startKey (fields : list Value) : string :=
  fold_left (fun b f => b +:+ (fmtV f +:+ tagKeySeparator)) fields EmptyString.

Definition startKeyForCondition (c : query.Condition) (height : Z) : string :=
  if 0 <? height
  then startKey [VString (query.CompositeKey c); query.Operand c; VInt64 height]
  else startKey [VString (query.CompositeKey c); query.Operand c].

(** ** The store and the indexer *)

(** The digest of the transaction bytes and the protobuf encoding of a
    result are computed by other packages; the indexer is parametric in
    them. *)
Class Codec : Type := {
  Hash : string -> string;
  Marshal : abci.TxResult -> Error + string;
  Unmarshal : string -> Error + abci.TxResult
}.

(** What the indexer relies on: a digest is 32 bytes long, and decoding an
    encoded result gives the result back. *)
Class CodecLaws `{Codec} : Prop := {
  Hash_length : forall tx, String.length (Hash tx) = 32%nat;
  Unmarshal_Marshal : forall r raw, Marshal r = inr raw -> Unmarshal raw = inr r
}.

(** A write batch: the [Set] calls in the order they were made. The store
    of the model does not fail, so [Set] and [WriteSync] return no error. *)
Definition Batch : Type := list (string * string).

Definition NewBatch : Batch := [].

Definition BatchSet (b : Batch) (key value : string) : Batch := b ++ [(key, value)].

Definition applyBatch (store : gmap string string) (b : Batch) : gmap string string :=
  fold_left (fun m kv => <[kv.1 := kv.2]> m) b store.

Record TxIndex : Type := {
  store : gmap string string;
  eventSeq : Z
}.

Definition NewTxIndex (store : gmap string string) : TxIndex :=
  {| store := store; eventSeq := 0 |}.

Definition WriteSync (txi : TxIndex) (b : Batch) : TxIndex :=
  {| store := applyBatch (store txi) b; eventSeq := eventSeq txi |}.

Section Indexer.
Context `{Codec}.

Definition Get (txi : TxIndex) (hash : string) : Error + option abci.TxResult :=
  if (String.length hash =? 0)%nat then inl ErrorEmptyHash
  else match store txi !! hash with
       | None => inr None
       | Some rawBytes =>
           match Unmarshal rawBytes with
           | inl err => inl (Errorf "error reading TxResult: %v" err)
           | inr txResult => inr (Some txResult)
           end
       end.

(** The inner loop of [indexEvents], over the attributes of one event. *)
Fixpoint indexAttributes (eventType : string) (attrs : list abci.EventAttribute)
    (result : abci.TxResult) (hash : string) (seq : Z) (b : Batch) : Batch :=
  match attrs with
  | [] => b
  | attr :: attrs' =>
      if (String.length (abci.Key attr) =? 0)%nat
      then indexAttributes eventType attrs' result hash seq b
      else
        let compositeTag := eventType +:+ "." +:+ abci.Key attr in
        let b' := if abci.GetIndex attr
                  then BatchSet b (keyForEvent compositeTag (abci.Value attr) result seq) hash
                  else b in
        indexAttributes eventType attrs' result hash seq b'
  end.

(** The outer loop of [indexEvents], over the events that remain. *)
Fixpoint indexEventsLoop (events : list abci.Event) (txi : TxIndex)
    (result : abci.TxResult) (hash : string) (b : Batch) : TxIndex * Batch :=
  match events with
  | [] => (txi, b)
  | event :: events' =>
      let txi' := {| store := store txi; eventSeq := wrap64 (eventSeq txi + 1) |} in
      if (String.length (abci.Type_ event) =? 0)%nat
      then indexEventsLoop events' txi' result hash b
      else indexEventsLoop events' txi' result hash
             (indexAttributes (abci.Type_ event) (abci.Attributes event)
                result hash (eventSeq txi') b)
  end.

Definition indexEvents (txi : TxIndex) (result : abci.TxResult) (hash : string)
    (b : Batch) : TxIndex * Batch :=
  indexEventsLoop (abci.Events (abci.Result result)) txi result hash b.

(** The loop of [AddBatch] over the operations that remain. *)
Fixpoint addBatchLoop (ops : list abci.TxResult) (txi : TxIndex)
    (storeBatch : Batch) : TxIndex * (Error + Batch) :=
  match ops with
  | [] => (txi, inr storeBatch)
  | result :: ops' =>
      let hash := Hash (abci.Tx result) in
      let '(txi1, b1) := indexEvents txi result hash storeBatch in
      let b2 := BatchSet b1 (keyForHeight result) hash in
      match Marshal result with
      | inl err => (txi1, inl err)
      | inr rawBytes => addBatchLoop ops' txi1 (BatchSet b2 hash rawBytes)
      end
  end.

(** [AddBatch]: the indexer afterwards and the error returned. *)
Definition AddBatch (txi : TxIndex) (ops : list abci.TxResult) : TxIndex * option Error :=
  match addBatchLoop ops txi NewBatch with
  | (txi', inl err) => (txi', Some err)
  | (txi', inr storeBatch) => (WriteSync txi' storeBatch, None)
  end.

(** [Index]: the indexer afterwards and the error returned. *)
Definition Index (txi : TxIndex) (result : abci.TxResult) : TxIndex * option Error :=
  let b := NewBatch in
  let hash := Hash (abci.Tx result) in
  let early : option (option Error) :=
    if negb (abci.IsOK (abci.Result result)) then
      match Get txi hash with
      | inl err => Some (Some err)
      | inr oldResult =>
          match oldResult with
          | Some old =>
              if abci.Code (abci.Result old) =? abci.CodeTypeOK
              then Some None else None
          | None => None
          end
      end
    else None in
  match early with
  | Some ret => (txi, ret)
  | None =>
      let '(txi1, b1) := indexEvents txi result hash b in
      let b2 := BatchSet b1 (keyForHeight result) hash in
      match Marshal result with
      | inl err => (txi1, Some err)
      | inr rawBytes => (WriteSync txi1 (BatchSet b2 hash rawBytes), None)
      end
  end.

End Indexer.

(** ** Cancellation and control flow *)

(** A context, as a search observes it: the answer of the [n]-th poll of
    [ctx.Done()] ([true] once the context is cancelled). *)
Definition Context : Type := nat -> bool.

(** A computation of the query path: it reads the context, counts its
    polls, and returns or panics. *)
Definition Scan (A : Type) : Type := Context -> nat -> outcome (A * nat).

Definition ret {A} (a : A) : Scan A := fun _ n => Ret (a, n).

#[global] Instance Scan_bind : Bind Scan := fun A B m f ctx n =>
  match m ctx n with
  | Ret (a, n') => f a ctx n'
  | Panic msg => Panic msg
  end.

Definition lift {A} (o : outcome A) : Scan A := fun _ n =>
  match o with
  | Ret a => Ret (a, n)
  | Panic msg => Panic msg
  end.

Definition pollDone : Scan bool := fun ctx n => Ret (ctx n, S n).

(** What a statement tells the enclosing statement when it ends. *)
Inductive signal : Type := Normal | Break | Continue.

(** A [break] terminates the innermost [for], [switch] or [select]: when it
    comes out of a [select] it is consumed there. *)
Definition endSelect (s : signal) : signal :=
  match s with
  | Break => Normal
  | s' => s'
  end.

(** [select { case <-ctx.Done(): break; default: }] *)
Definition selectDone : Scan signal :=
  done <- pollDone;;
  ret (endSelect (if done then Break else Normal)).

(** [for _, a := range l { body }] with the loop state [s]: only a [Break]
    that reaches the loop leaves it. *)
Fixpoint forRange {A S} (body : A -> S -> Scan (signal * S)) (l : list A)
    (s : S) : Scan S :=
  match l with
  | [] => ret s
  | a :: l' =>
      r <- body a s;;
      match r.1 with
      | Break => ret r.2
      | _ => forRange body l' r.2
      end
  end.

(** ** Iterators over the ordered store *)

Definition entry_le (p q : string * string) : Prop := String.le p.1 q.1.

#[global] Instance entry_le_dec : RelDecision entry_le.
Proof. intros p q. unfold entry_le. apply _. Defined.

(** The entries of the store in ascending order of their keys. *)
Definition entries (m : gmap string string) : list (string * string) :=
  merge_sort entry_le (map_to_list m).

(** [dbm.IteratePrefix(store, prefix)] *)
Definition IteratePrefix (m : gmap string string) (prefix : string)
    : list (string * string) :=
  filter (fun kv => GoStrings.HasPrefix kv.1 prefix = true) (entries m).

(** [store.Iterator(start, end)]: from [start] inclusive to [end] exclusive. *)
Definition Iterator (m : gmap string string) (start end_ : string)
    : list (string * string) :=
  filter (fun kv => String.le start kv.1 /\ ~ String.le end_ kv.1) (entries m).

(** ** The query planner's helpers

    [dedupMatchEvents], [dedupHeight], [checkHeightConditions] and
    [intInSlice] of this package and [LookForRangesWithHeight] of the
    indexer package; the query path is parametric in them. *)
Class Planner : Type := {
  dedupMatchEvents : list query.Condition -> outcome (list query.Condition * bool);
  dedupHeight : list query.Condition -> outcome (list query.Condition * HeightInfo);
  LookForRangesWithHeight :
    list query.Condition ->
    outcome (list indexer.QueryRange * list Z * indexer.QueryRange);
  checkHeightConditions : HeightInfo -> Z -> outcome bool;
  intInSlice : Z -> list Z -> bool
}.

(** ** The query path *)

(** [c.Operand.(string)]: a panic when the operand is not a string. *)
Definition assertString (v : Value) : outcome string :=
  match v with
  | VString s => Ret s
  | _ => Panic "interface conversion: interface {} is not string"
  end.

(** [c.Operand.( *big.Int)]: a panic when the operand is not a big integer. *)
Definition assertBigInt (v : Value) : outcome Z :=
  match v with
  | VBigInt z => Ret z
  | _ => Panic "interface conversion: interface {} is not *big.Int"
  end.

(** [v, ok := x.( *big.Int)]: a nil pointer and [false] when it is not one. *)
Definition asBigInt (v : Value) : option Z :=
  match v with
  | VBigInt z => Some z
  | _ => None
  end.

Fixpoint lookForHash (conditions : list query.Condition)
    : outcome (string * bool * option Error) :=
  match conditions with
  | [] => Ret (EmptyString, false, None)
  | c :: conditions' =>
      if String.eqb (query.CompositeKey c) types.TxHashKey then
        s <- assertString (query.Operand c);;
        let '(decoded, err) := GoHex.DecodeString s in
        Ret (decoded, true, err)
      else lookForHash conditions'
  end.

(** The loop of [lookForHeight], at index [i]. *)
Fixpoint lookForHeightFrom (i : Z) (conditions : list query.Condition)
    : outcome (Z * Z) :=
  match conditions with
  | [] => Ret (0, -1)
  | c :: conditions' =>
      if String.eqb (query.CompositeKey c) types.TxHeightKey
         && query.Operator_eqb (query.Op c) query.OpEqual then
        z <- assertBigInt (query.Operand c);;
        Ret (wrap64 z, i)
      else lookForHeightFrom (i + 1) conditions'
  end.

Definition lookForHeight (conditions : list query.Condition) : outcome (Z * Z) :=
  lookForHeightFrom 0 conditions.

Definition setTmpHashes (tmpHeights : gmap string string) (key value : string)
    (matchEvents : bool) : outcome (gmap string string) :=
  if matchEvents then
    eventSeq <- extractEventSeqFromKey key;;
    Ret (<[value +:+ eventSeq := value]> tmpHeights)
  else Ret (<[value := value]> tmpHeights).

Definition blockToSearch : Z := 5000.

(** [checkBounds]: whether [v] lies within the bounds of the range. No
    function of this file calls it. *)
Definition checkBounds (ranges : indexer.QueryRange) (v : Z) : outcome bool :=
  let include := true in
  let lowerBound := indexer.LowerBoundValue ranges in
  let upperBound := indexer.UpperBoundValue ranges in
  include <-
    match lowerBound with
    | VNil => Ret include
    | _ => l <- assertBigInt lowerBound;; Ret (if v <? l then false else include)
    end;;
  match upperBound with
  | VNil => Ret include
  | _ => u <- assertBigInt upperBound;; Ret (if u <? v then false else include)
  end.


Section Query.
Context `{Codec} `{Planner}.

(** The guard the scans share under match-events: [continue] when the
    height of the key cannot be read or fails the height conditions. *)
Definition heightGuard (heightInfo : HeightInfo) (key : string) : outcome bool :=
  r <- extractHeightFromKey key;;
  match r with
  | inl _ => Ret false
  | inr keyHeight => checkHeightConditions heightInfo keyHeight
  end.

(** The body of the scans of [match_] for [OpEqual] and [OpExists]. *)
Definition matchScanBody (matchEvents : bool) (heightInfo : HeightInfo)
    (kv : string * string) (tmpHashes : gmap string string)
    : Scan (signal * gmap string string) :=
  ok <- lift (if matchEvents then heightGuard heightInfo kv.1 else Ret true);;
  if negb ok then ret (Continue, tmpHashes)
  else
    tmpHashes' <- lift (setTmpHashes tmpHashes kv.1 kv.2 matchEvents);;
    sig <- selectDone;;
    ret (sig, tmpHashes').

(** The body of the scan of [match_] for [OpContains]. *)
Definition matchContainsBody (c : query.Condition) (matchEvents : bool)
    (heightInfo : HeightInfo) (kv : string * string)
    (tmpHashes : gmap string string) : Scan (signal * gmap string string) :=
  if negb (isTagKey kv.1) then ret (Continue, tmpHashes)
  else
    value <- lift (extractValueFromKey kv.1);;
    operand <- lift (assertString (query.Operand c));;
    if GoStrings.Contains value operand then
      ok <- lift (if matchEvents then heightGuard heightInfo kv.1 else Ret true);;
      if negb ok then ret (Continue, tmpHashes)
      else
        tmpHashes' <- lift (setTmpHashes tmpHashes kv.1 kv.2 matchEvents);;
        sig <- selectDone;;
        ret (sig, tmpHashes')
    else
      sig <- selectDone;;
      ret (sig, tmpHashes).

(** The body of the loop that removes from [filteredHashes] the matches not
    found in [tmpHashes]. *)
Definition intersectBody (tmpHashes : gmap string string) (kv : string * string)
    (filteredHashes : gmap string string) : Scan (signal * gmap string string) :=
  match tmpHashes !! kv.1 with
  | Some tmpHash =>
      if String.eqb tmpHash kv.2 then ret (Normal, filteredHashes)
      else
        sig <- selectDone;;
        ret (sig, delete kv.1 filteredHashes)
  | None =>
      sig <- selectDone;;
      ret (sig, delete kv.1 filteredHashes)
  end.

(** The end of [match_] and of [matchRange]: what to return once
    [tmpHashes] is computed. *)
Definition mergeHashes (tmpHashes filteredHashes : gmap string string)
    (firstRun : bool) : Scan (gmap string string) :=
  if (size tmpHashes =? 0)%nat || firstRun then ret tmpHashes
  else forRange (intersectBody tmpHashes) (map_to_list filteredHashes) filteredHashes.

Definition match_ (txi : TxIndex) (c : query.Condition) (startKeyBz : string)
    (filteredHashes : gmap string string) (firstRun matchEvents : bool)
    (heightInfo : HeightInfo) : Scan (gmap string string) :=
  if negb firstRun && (size filteredHashes =? 0)%nat then ret filteredHashes
  else
    tmpHashes <-
      match query.Op c with
      | query.OpEqual =>
          forRange (matchScanBody matchEvents heightInfo)
            (IteratePrefix (store txi) startKeyBz) ∅
      | query.OpExists =>
          forRange (matchScanBody matchEvents heightInfo)
            (IteratePrefix (store txi) (startKey [VString (query.CompositeKey c)])) ∅
      | query.OpContains =>
          forRange (matchContainsBody c matchEvents heightInfo)
            (IteratePrefix (store txi) (startKey [VString (query.CompositeKey c)])) ∅
      | _ => lift (Panic "other operators should be handled already")
      end;;
    mergeHashes tmpHashes filteredHashes firstRun.

(** The bounds [matchRange] scans between: [lowerHeight] and [upperHeight]
    after the defaults for a missing bound, the conversion to [int64] and
    the clamp of the lower one. [None] when neither bound is a big integer. *)
Definition rangeHeights (qr : indexer.QueryRange) : option (Z * Z) :=
  let lowerBound := asBigInt (indexer.LowerBoundValue qr) in
  let upperBound := asBigInt (indexer.UpperBoundValue qr) in
  let rangeBound := blockToSearch - 1 in
  let bounds :=
    match lowerBound, upperBound with
    | None, None => None
    | None, Some u => Some (u - rangeBound, u)
    | Some l, None => Some (l, l + rangeBound)
    | Some l, Some u => Some (l, u)
    end in
  match bounds with
  | None => None
  | Some (l, u) =>
      let lowerHeight := wrap64 l in
      let upperHeight := wrap64 u in
      Some (if lowerHeight <? 1 then 1 else lowerHeight, upperHeight)
  end.

(** The body of the scan of [matchRange]. *)
Definition matchRangeBody (qr : indexer.QueryRange) (matchEvents : bool)
    (heightInfo : HeightInfo) (kv : string * string)
    (tmpHashes : gmap string string) : Scan (signal * gmap string string) :=
  if negb (isTagKey kv.1) then ret (Continue, tmpHashes)
  else
    ok <- lift (if matchEvents && negb (String.eqb (indexer.Key qr) types.TxHeightKey)
                then heightGuard heightInfo kv.1 else Ret true);;
    if negb ok then ret (Continue, tmpHashes)
    else
      tmpHashes' <- lift (setTmpHashes tmpHashes kv.1 kv.2 matchEvents);;
      sig <- selectDone;;
      ret (sig, tmpHashes').

Definition matchRange (txi : TxIndex) (qr : indexer.QueryRange) (startKey : string)
    (filteredHashes : gmap string string) (firstRun matchEvents : bool)
    (heightInfo : HeightInfo) : Scan (gmap string string) :=
  if negb firstRun && (size filteredHashes =? 0)%nat then ret filteredHashes
  else
    match rangeHeights qr with
    | None => ret filteredHashes
    | Some (lowerHeight, upperHeight) =>
        if (upperHeight <? lowerHeight)
           || (blockToSearch <? wrap64 (upperHeight - lowerHeight))
        then ret filteredHashes
        else
          let sizeBytes := (String.length startKey + 4 + String.length tagKeySeparator)%nat in
          let fromKey := joinSizeBytes sizeBytes [startKey; BE4 lowerHeight; tagKeySeparator] in
          let toKey := joinSizeBytes sizeBytes [startKey; BE4 upperHeight; tagKeySeparator] in
          tmpHashes <- forRange (matchRangeBody qr matchEvents heightInfo)
                         (Iterator (store txi) fromKey toKey) ∅;;
          mergeHashes tmpHashes filteredHashes firstRun
    end.

(** The state of the two loops of [Search] that evaluate the conditions. *)
Record filterState : Type := {
  filteredHashes : gmap string string;
  hashesInitialized : bool
}.

(** The body of the loop of [Search] over the ranges. *)
Definition searchRangeBody (txi : TxIndex) (matchEvents : bool)
    (heightInfo : HeightInfo) (qr : indexer.QueryRange) (st : filterState)
    : Scan (signal * filterState) :=
  if String.eqb (indexer.Key qr) types.TxHeightKey && matchEvents
     && negb (onlyHeightRange heightInfo)
  then ret (Continue, st)
  else if negb (hashesInitialized st) then
    fh <- matchRange txi qr (startKey [VString (indexer.Key qr)])
            (filteredHashes st) true matchEvents heightInfo;;
    let st' := {| filteredHashes := fh; hashesInitialized := true |} in
    if (size fh =? 0)%nat then ret (Break, st') else ret (Normal, st')
  else
    fh <- matchRange txi qr (startKey [VString (indexer.Key qr)])
            (filteredHashes st) false matchEvents heightInfo;;
    ret (Normal, {| filteredHashes := fh; hashesInitialized := hashesInitialized st |}).

(** The body of the loop of [Search] over all other conditions; [ic] is the
    index of the condition and the condition. *)
Definition searchConditionBody (txi : TxIndex) (matchEvents : bool)
    (heightInfo : HeightInfo) (skipIndexes : list Z)
    (ic : Z * query.Condition) (st : filterState) : Scan (signal * filterState) :=
  let '(i, c) := ic in
  if intInSlice i skipIndexes then ret (Continue, st)
  else if negb (hashesInitialized st) then
    fh <- match_ txi c (startKeyForCondition c (height heightInfo))
            (filteredHashes st) true matchEvents heightInfo;;
    let st' := {| filteredHashes := fh; hashesInitialized := true |} in
    if (size fh =? 0)%nat then ret (Break, st') else ret (Normal, st')
  else
    fh <- match_ txi c (startKeyForCondition c (height heightInfo))
            (filteredHashes st) false matchEvents heightInfo;;
    ret (Normal, {| filteredHashes := fh; hashesInitialized := hashesInitialized st |}).

(** The state of the loop of [Search] that fetches the results: the
    results so far, the hashes already fetched, and the error that ended
    the search, if any. *)
Record fetchState : Type := {
  results : list (option abci.TxResult);
  resultMap : gset string;
  fetchError : option Error
}.

(** The body of that loop. A failing [Get] returns from [Search], which
    leaves the loop as a [Break] does. *)
Definition searchFetchBody (txi : TxIndex) (kh : string * string)
    (st : fetchState) : Scan (signal * fetchState) :=
  let h := kh.2 in
  let hashString := h in
  if bool_decide (hashString ∈ resultMap st) then
    sig <- selectDone;;
    ret (sig, st)
  else
    let resultMap' := {[hashString]} ∪ resultMap st in
    match Get txi h with
    | inl err =>
        ret (Break, {| results := results st; resultMap := resultMap';
                       fetchError := Some (Errorf "failed to get Tx{%X}: %w" err) |})
    | inr res =>
        sig <- selectDone;;
        ret (sig, {| results := results st ++ [res]; resultMap := resultMap';
                     fetchError := None |})
    end.

(** The indexes [0, 1, ...] paired with the elements, as [for i, c := range]
    yields them. *)
Definition indexed {A} (l : list A) : list (Z * A) :=
  imap (fun i a => (Z.of_nat i, a)) l.

(** [Search]: the results (a nil pointer is [None]; a nil slice is the
    empty list) and the error. *)
Definition Search (txi : TxIndex) (q : query.Query)
    : Scan (list (option abci.TxResult) * option Error) :=
  done <- pollDone;;
  if done then ret ([], None)
  else
    match query.Conditions q with
    | inl err =>
        ret ([], Some (Errorf "error during parsing conditions from query: %w" err))
    | inr conditions =>
        '(hash, ok, err) <- lift (lookForHash conditions);;
        match err with
        | Some e =>
            ret ([], Some (Errorf "error during searching for a hash in the query: %w" e))
        | None =>
            if ok then
              match Get txi hash with
              | inl e => ret ([], Some (Errorf "error while retrieving the result: %w" e))
              | inr None => ret ([], None)
              | inr (Some res) => ret ([Some res], None)
              end
            else
              '(conditions, matchEvents) <- lift (dedupMatchEvents conditions);;
              let skipIndexes := if matchEvents then [0] else [] in
              '(conditions, heightInfo) <-
                lift (if matchEvents then dedupHeight conditions
                      else
                        '(h, idx) <- lookForHeight conditions;;
                        Ret (conditions,
                             {| heightRange := heightRange zeroHeightInfo;
                                height := h; heightEqIdx := idx;
                                onlyHeightRange := onlyHeightRange zeroHeightInfo;
                                onlyHeightEq := onlyHeightEq zeroHeightInfo |}));;
              let skipIndexes :=
                if matchEvents && negb (onlyHeightEq heightInfo)
                then skipIndexes ++ [heightEqIdx heightInfo] else skipIndexes in
              '(ranges, rangeIndexes, heightRange') <-
                lift (LookForRangesWithHeight conditions);;
              let heightInfo :=
                {| heightRange := heightRange'; height := height heightInfo;
                   heightEqIdx := heightEqIdx heightInfo;
                   onlyHeightRange := onlyHeightRange heightInfo;
                   onlyHeightEq := onlyHeightEq heightInfo |} in
              let st0 := {| filteredHashes := ∅; hashesInitialized := false |} in
              let skipIndexes :=
                if (0 <? length ranges)%nat then skipIndexes ++ rangeIndexes
                else skipIndexes in
              st1 <- forRange (searchRangeBody txi matchEvents heightInfo) ranges st0;;
              st2 <- forRange (searchConditionBody txi matchEvents heightInfo skipIndexes)
                       (indexed conditions) st1;;
              fs <- forRange (searchFetchBody txi) (map_to_list (filteredHashes st2))
                      {| results := []; resultMap := ∅; fetchError := None |};;
              match fetchError fs with
              | Some e => ret ([], Some e)
              | None => ret (results fs, None)
              end
        end
    end.

End Query.

(** ** The planner's helpers, from their description *)

Module SpecPlanner.

Definition MatchEventKey : string := "match.events".

Definition isRangeOp (op : query.Operator) : bool :=
  match op with
  | query.OpLessEqual | query.OpGreaterEqual | query.OpLess | query.OpGreater => true
  | _ => false
  end.

(** Modelled from the spec: [dedupMatchEvents] of this package, which
    detects the pseudo-condition [match.events = 1] at the head of the
    query and reports it. *)
Definition dedupMatchEvents (conditions : list query.Condition)
    : outcome (list query.Condition * bool) :=
  match conditions with
  | c :: _ => Ret (conditions, String.eqb (query.CompositeKey c) MatchEventKey)
  | [] => Ret (conditions, false)
  end.

Definition isHeightEq (c : query.Condition) : bool :=
  String.eqb (query.CompositeKey c) types.TxHeightKey
  && query.Operator_eqb (query.Op c) query.OpEqual.

Definition isHeightRange (c : query.Condition) : bool :=
  String.eqb (query.CompositeKey c) types.TxHeightKey && isRangeOp (query.Op c).

(** Keeps the first [tx.height =] condition and drops the later ones. *)
Fixpoint dropLaterHeightEq (seen : bool) (conditions : list query.Condition)
    : list query.Condition :=
  match conditions with
  | [] => []
  | c :: conditions' =>
      if isHeightEq c then
        if seen then dropLaterHeightEq true conditions'
        else c :: dropLaterHeightEq true conditions'
      else c :: dropLaterHeightEq seen conditions'
  end.

(** Modelled from the spec: [dedupHeight] of this package, which under
    match-events deduplicates the height conditions and yields the
    [HeightInfo], with the flags that tell whether the query consists
    solely of height predicates. *)
Definition dedupHeight (conditions : list query.Condition)
    : outcome (list query.Condition * HeightInfo) :=
  let deduped := dropLaterHeightEq false conditions in
  let others := filter (fun c => String.eqb (query.CompositeKey c) MatchEventKey = false) deduped in
  '(h, idx) <- lookForHeight deduped;;
  Ret (deduped,
       {| heightRange := zeroQueryRange; height := h; heightEqIdx := idx;
          onlyHeightRange := forallb isHeightRange others;
          onlyHeightEq := forallb isHeightEq others |}).

(** The inclusive bounds a range condition puts on its key. *)
Definition boundOf (c : query.Condition) : Value * Value :=
  match query.Op c, query.Operand c with
  | query.OpGreaterEqual, v => (v, VNil)
  | query.OpLessEqual, v => (VNil, v)
  | query.OpGreater, VBigInt z => (VBigInt (z + 1), VNil)
  | query.OpLess, VBigInt z => (VNil, VBigInt (z - 1))
  | query.OpGreater, v => (v, VNil)
  | query.OpLess, v => (VNil, v)
  | _, _ => (VNil, VNil)
  end.

Definition orValue (new old : Value) : Value :=
  match new with
  | VNil => old
  | _ => new
  end.

(** Adds the bound of [c] to the range of its key, or opens a new range. *)
Fixpoint addRange (c : query.Condition) (ranges : list indexer.QueryRange)
    : list indexer.QueryRange :=
  match ranges with
  | [] =>
      [{| indexer.Key := query.CompositeKey c;
          indexer.LowerBoundValue := (boundOf c).1;
          indexer.UpperBoundValue := (boundOf c).2 |}]
  | qr :: ranges' =>
      if String.eqb (indexer.Key qr) (query.CompositeKey c) then
        {| indexer.Key := indexer.Key qr;
           indexer.LowerBoundValue := orValue (boundOf c).1 (indexer.LowerBoundValue qr);
           indexer.UpperBoundValue := orValue (boundOf c).2 (indexer.UpperBoundValue qr) |}
        :: ranges'
      else qr :: addRange c ranges'
  end.

(** Modelled from the spec: [LookForRangesWithHeight] of the indexer
    package, which collects the range conditions grouped by composite key,
    with their indexes, and singles out the height range. *)
Definition LookForRangesWithHeight (conditions : list query.Condition)
    : outcome (list indexer.QueryRange * list Z * indexer.QueryRange) :=
  let rangeConds := filter (fun ic => isRangeOp (query.Op ic.2) = true) (indexed conditions) in
  let ranges := fold_left (fun rs ic => addRange ic.2 rs) rangeConds [] in
  let heightRange :=
    match filter (fun qr => String.eqb (indexer.Key qr) types.TxHeightKey = true) ranges with
    | qr :: _ => qr
    | [] => zeroQueryRange
    end in
  Ret (ranges, map fst rangeConds, heightRange).

(** Modelled from the spec: [checkHeightConditions] of this package, which
    rejects a key height that violates the height range or, without a
    range, the height equality. *)
Definition checkHeightConditions (heightInfo : HeightInfo) (keyHeight : Z)
    : outcome bool :=
  if String.eqb (indexer.Key (heightRange heightInfo)) EmptyString then
    Ret (negb (negb (height heightInfo =? 0) && negb (keyHeight =? height heightInfo)))
  else checkBounds (heightRange heightInfo) keyHeight.

(** Modelled from the spec: [intInSlice] of this package, the membership
    test on [skip_indexes]. *)
Definition intInSlice (a : Z) (list : list Z) : bool :=
  existsb (Z.eqb a) list.

#[global] Instance planner : Planner :=
  Build_Planner dedupMatchEvents dedupHeight LookForRangesWithHeight
    checkHeightConditions intInSlice.

End SpecPlanner.

(** ** An instance of the codec, to run the indexer on examples *)

Module Demo.

#[global] Instance EventAttribute_eq_dec : EqDecision abci.EventAttribute.
Proof. solve_decision. Defined.
#[global] Instance Event_eq_dec : EqDecision abci.Event.
Proof. solve_decision. Defined.
#[global] Instance ResponseDeliverTx_eq_dec : EqDecision abci.ResponseDeliverTx.
Proof. solve_decision. Defined.
#[global] Instance TxResult_eq_dec : EqDecision abci.TxResult.
Proof. solve_decision. Defined.

#[global] Instance EventAttribute_countable : Countable abci.EventAttribute.
Proof.
  refine (inj_countable'
    (fun a => (abci.Key a, abci.Value a, abci.GetIndex a))
    (fun t => abci.Build_EventAttribute t.1.1 t.1.2 t.2) _).
  intros []; reflexivity.
Defined.

#[global] Instance Event_countable : Countable abci.Event.
Proof.
  refine (inj_countable'
    (fun e => (abci.Type_ e, abci.Attributes e))
    (fun t => abci.Build_Event t.1 t.2) _).
  intros []; reflexivity.
Defined.

#[global] Instance ResponseDeliverTx_countable : Countable abci.ResponseDeliverTx.
Proof.
  refine (inj_countable'
    (fun r => (abci.Code r, abci.Events r))
    (fun t => abci.Build_ResponseDeliverTx t.1 t.2) _).
  intros []; reflexivity.
Defined.

#[global] Instance TxResult_countable : Countable abci.TxResult.
Proof.
  refine (inj_countable'
    (fun r => (abci.Height r, abci.Index r, abci.Tx r, abci.Result r))
    (fun t => abci.Build_TxResult t.1.1.1 t.1.1.2 t.1.2 t.2) _).
  intros []; reflexivity.
Defined.

(** A positive number as the string of its binary digits, lowest first. *)
Fixpoint bitsOfPos (p : positive) : string :=
  match p with
  | xH => EmptyString
  | xO p' => String "0" (bitsOfPos p')
  | xI p' => String "1" (bitsOfPos p')
  end.

Fixpoint posOfBits (s : string) : option positive :=
  match s with
  | EmptyString => Some xH
  | String c s' =>
      match posOfBits s' with
      | Some p =>
          if Ascii.eqb c "0" then Some (xO p)
          else if Ascii.eqb c "1" then Some (xI p)
          else None
      | None => None
      end
  end.

(** A stand-in for the digest: the transaction bytes cut or padded with
    ['#'] to 32 bytes. *)
Definition pad32 (tx : string) : string :=
  string_of_list_ascii
    (take 32 (list_ascii_of_string tx ++ replicate 32 ("#"%char))).

#[global] Instance codec : Codec := {|
  Hash := pad32;
  Marshal := fun r => inr (bitsOfPos (encode r));
  Unmarshal := fun raw =>
    match posOfBits raw with
    | Some p =>
        match decode p with
        | Some r => inr r
        | None => inl (ErrProto "cannot parse invalid wire-format data")
        end
    | None => inl (ErrProto "cannot parse invalid wire-format data")
    end
|}.

(** A result with the given height, transaction bytes, code and events. *)
Definition result (height : Z) (tx : string) (code : Z) (events : list abci.Event)
    : abci.TxResult :=
  {| abci.Height := height; abci.Index := 0; abci.Tx := tx;
     abci.Result := {| abci.Code := code; abci.Events := events |} |}.

(** The indexer after indexing the results one by one, from an empty store. *)
Definition indexAll (results : list abci.TxResult) : TxIndex :=
  fold_left (fun txi r => (Index txi r).1) results (NewTxIndex ∅).

(** A successful result at height [h], with a transaction of its own. *)
Definition atHeight (h : Z) : abci.TxResult :=
  result h ("tx" +:+ GoStrconv.FormatInt h) 0 [].

(** Ten successful results with distinct transactions, at the heights 1
    to 10. *)
Definition tenResults : list abci.TxResult :=
  map atHeight [1; 2; 3; 4; 5; 6; 7; 8; 9; 10].

(** Three results of the same transaction: a successful one, then two
    failed ones. *)
Definition okResult : abci.TxResult := result 10 "H" 0 [].
Definition failedResult : abci.TxResult := result 20 "H" 1 [].
Definition laterResult : abci.TxResult := result 30 "H" 2 [].

(** The indexer that holds [okResult]. *)
Definition storedOk : TxIndex := (Index (NewTxIndex ∅) okResult).1.

(** An event with one indexed attribute, one attribute with an empty key
    and one that is not indexed; and the same event with an empty type. *)
Definition accEvent : abci.Event :=
  {| abci.Type_ := "acc";
     abci.Attributes :=
       [{| abci.Key := "owner"; abci.Value := "Ivan"; abci.GetIndex := true |};
        {| abci.Key := ""; abci.Value := "x"; abci.GetIndex := true |};
        {| abci.Key := "num"; abci.Value := "1"; abci.GetIndex := false |}] |}.

Definition untypedEvent : abci.Event :=
  {| abci.Type_ := ""; abci.Attributes := abci.Attributes accEvent |}.

Definition eventResult : abci.TxResult := result 5 "A" 0 [untypedEvent; accEvent].

(** One result, the indexer that holds it, and its hash in hexadecimal. *)
Definition oneResult : abci.TxResult := result 5 "tx" 0 [].
Definition oneIndexed : TxIndex := indexAll [oneResult].
Definition oneHashHex : string :=
  "7478232323232323232323232323232323232323232323232323232323232323".

(** The hash, in hexadecimal, of a transaction that is not indexed. *)
Definition otherHashHex : string :=
  "7479232323232323232323232323232323232323232323232323232323232323".


(** A range wider than the block window. *)
Definition wideRange : indexer.QueryRange :=
  {| indexer.Key := "tx.height";
     indexer.LowerBoundValue := VBigInt 1;
     indexer.UpperBoundValue := VBigInt 10000 |}.

Definition condition (key : string) (op : query.Operator) (operand : Value)
    : query.Condition :=
  {| query.CompositeKey := key; query.Op := op; query.Operand := operand |}.

(** The conditions of the query [tx.height >= 3 AND tx.height <= 7]. *)
Definition heightRangeQuery : query.Query :=
  {| query.Conditions :=
       inr [condition "tx.height" query.OpGreaterEqual (VBigInt 3);
            condition "tx.height" query.OpLessEqual (VBigInt 7)] |}.

(** A context that is never cancelled, and one that is cancelled right
    after the search is entered. *)
Definition background : Context := fun _ => false.
Definition cancelledAfterEntry : Context := fun k => negb (k =? 0)%nat.

End Demo.

(** ** The write discipline, as the specification words it *)

Section WriteDiscipline.
Context `{Codec}.

(** The event counter after one more event. *)
Definition nextSeq (seq : Z) : Z := wrap64 (seq + 1).

(** The attributes of an event that get an index entry: none when the
    type of the event is empty; else those with a non-empty key and
    [indexed = true]. *)
Definition indexedAttributes (event : abci.Event) : list abci.EventAttribute :=
  if String.eqb (abci.Type_ event) EmptyString then []
  else filter (fun attr => negb (String.eqb (abci.Key attr) EmptyString)
                           && abci.GetIndex attr = true)
         (abci.Attributes event).

(** The by-event-attribute entry of one attribute: its key, and the hash. *)
Definition eventEntry (result : abci.TxResult) (hash : string) (seq : Z)
    (event : abci.Event) (attr : abci.EventAttribute) : string * string :=
  (keyForEvent (abci.Type_ event +:+ "." +:+ abci.Key attr) (abci.Value attr) result seq,
   hash).

(** The entries of a list of events, in order: the [n]-th event (from 0)
    carries the counter after [n + 1] increments. *)
Definition eventEntries (result : abci.TxResult) (hash : string) (seq0 : Z)
    (events : list abci.Event) : Batch :=
  concat (imap (fun n event =>
                  map (eventEntry result hash (Nat.iter (S n) nextSeq seq0) event)
                      (indexedAttributes event))
               events).

(** All the entries of one result: the event entries, the by-height entry
    and the by-hash entry with the encoded result [raw]. *)
Definition resultEntries (result : abci.TxResult) (seq0 : Z) (raw : string) : Batch :=
  let hash := Hash (abci.Tx result) in
  eventEntries result hash seq0 (abci.Events (abci.Result result))
  ++ [(keyForHeight result, hash); (hash, raw)].

(** [key] is a key that indexing [result] may write. *)
Definition writesKey (key : string) (result : abci.TxResult) : Prop :=
  Hash (abci.Tx result) = key
  \/ keyForHeight result = key
  \/ exists (tag value : string) (seq : Z), keyForEvent tag value result seq = key.

End WriteDiscipline.

(** ** What a search returns, apart from the count of its polls *)

Definition returned {A} (o : outcome (A * nat)) : outcome A :=
  match o with
  | Ret (a, _) => Ret a
  | Panic msg => Panic msg
  end.

(** A computation whose result depends neither on the context nor on the
    number of polls made before it. *)
Definition oblivious {A} (m : Scan A) : Prop :=
  forall (ctx1 ctx2 : Context) (n1 n2 : nat),
    returned (m ctx1 n1) = returned (m ctx2 n2).

(** What [Search] returns once the hash of the query is known: the result
    of [Get], wrapped in a list. *)
Definition hashResult `{Codec} (txi : TxIndex) (hash : string)
    : list (option abci.TxResult) * option Error :=
  match Get txi hash with
  | inl e => ([], Some (Errorf "error while retrieving the result: %w" e))
  | inr None => ([], None)
  | inr (Some res) => ([Some res], None)
  end.

(** ** The intersection of two sets of hashes *)

(** The entries of [filteredHashes] that [tmpHashes] has too, under the
    same key and with the same bytes. *)
Definition intersectHashes (tmpHashes filteredHashes : gmap string string)
    : gmap string string :=
  filter (fun kv => tmpHashes !! kv.1 = Some kv.2) filteredHashes.

(** * Properties *)

(** ** Strings *)

Section StringFacts.

Lemma append_cons (x : ascii) (a b : string) : String x a +:+ b = String x (a +:+ b).
Proof. reflexivity. Qed.

Lemma append_empty_l (a : string) : EmptyString +:+ a = a.
Proof. reflexivity. Qed.

Lemma append_assoc (a b c : string) : (a +:+ b) +:+ c = a +:+ (b +:+ c).
Proof.
  induction a as [|x a IH]; [reflexivity|].
  rewrite !append_cons. by rewrite IH.
Qed.

Lemma append_empty_r (a : string) : a +:+ EmptyString = a.
Proof.
  induction a as [|x a IH]; [reflexivity|].
  rewrite append_cons. by rewrite IH.
Qed.

Lemma length_append (a b : string) :
  String.length (a +:+ b) = (String.length a + String.length b)%nat.
Proof.
  induction a as [|x a IH]; [reflexivity|].
  rewrite append_cons. simpl. by rewrite IH.
Qed.

Lemma string_of_list_ascii_app (l1 l2 : list ascii) :
  string_of_list_ascii (l1 ++ l2) = string_of_list_ascii l1 +:+ string_of_list_ascii l2.
Proof.
  induction l1 as [|x l1 IH]; [reflexivity|].
  simpl. rewrite append_cons. by rewrite IH.
Qed.

Lemma length_list_ascii_of_string (s : string) :
  length (list_ascii_of_string s) = String.length s.
Proof. induction s as [|x s IH]; simpl; congruence. Qed.

Lemma Count_append (a b : string) (sep : ascii) :
  GoStrings.Count (a +:+ b) sep = (GoStrings.Count a sep + GoStrings.Count b sep)%nat.
Proof.
  induction a as [|x a IH]; [reflexivity|].
  rewrite append_cons. simpl. rewrite IH. lia.
Qed.

Lemma Split_not_nil (s : string) (sep : ascii) : GoStrings.Split s sep <> [].
Proof.
  destruct s as [|c s]; simpl; [discriminate|].
  destruct (Ascii.eqb c sep); [discriminate|].
  destruct (GoStrings.Split s sep); discriminate.
Qed.

(** Splitting distributes over a separator. *)
Lemma Split_append_sep (a b : string) (sep : ascii) :
  GoStrings.Split (a +:+ String sep b) sep
  = GoStrings.Split a sep ++ GoStrings.Split b sep.
Proof.
  induction a as [|c a IH]; [rewrite append_empty_l | rewrite append_cons]; simpl.
  - by rewrite Ascii.eqb_refl.
  - destruct (Ascii.eqb c sep); [by rewrite IH|].
    rewrite IH. pose proof (Split_not_nil a sep) as Hne.
    destruct (GoStrings.Split a sep); [done | reflexivity].
Qed.

Lemma Split_no_sep (s : string) (sep : ascii) :
  GoStrings.Count s sep = 0%nat -> GoStrings.Split s sep = [s].
Proof.
  induction s as [|c s IH]; simpl; [done|].
  destruct (Ascii.eqb c sep); [discriminate|].
  intros Hc. by rewrite IH.
Qed.

Lemma stripPrefix_append (p s : string) : GoStrings.stripPrefix p (p +:+ s) = Some s.
Proof.
  induction p as [|c p IH]; [reflexivity|].
  rewrite append_cons. simpl. by rewrite Ascii.eqb_refl.
Qed.

Lemma TrimPrefix_append (p s : string) : GoStrings.TrimPrefix (p +:+ s) p = s.
Proof. unfold GoStrings.TrimPrefix. by rewrite stripPrefix_append. Qed.

Lemma stripSuffix_append (a suf : string) : GoStrings.stripSuffix suf (a +:+ suf) = Some a.
Proof.
  induction a as [|c a IH].
  - rewrite append_empty_l. destruct suf; simpl; [reflexivity|].
    by rewrite Ascii.eqb_refl, String.eqb_refl.
  - rewrite append_cons. cbn [GoStrings.stripSuffix].
    destruct (String.eqb_spec (String c (a +:+ suf)) suf) as [Heq|_].
    + apply (f_equal String.length) in Heq. simpl in Heq.
      rewrite length_append in Heq. lia.
    + by rewrite IH.
Qed.

Lemma TrimSuffix_append (a suf : string) : GoStrings.TrimSuffix (a +:+ suf) suf = a.
Proof. unfold GoStrings.TrimSuffix. by rewrite stripSuffix_append. Qed.

Lemma sliceIndex_last (A : Type) (l : list A) (x : A) :
  sliceIndex (l ++ [x]) (Z.of_nat (length (l ++ [x])) - 1) = Ret x.
Proof.
  unfold sliceIndex. rewrite length_app. simpl.
  replace (Z.of_nat (length l + 1) - 1) with (Z.of_nat (length l)) by lia.
  destruct (Z.ltb_spec (Z.of_nat (length l)) 0); [lia|].
  destruct (Z.leb_spec (Z.of_nat (length l + 1)) (Z.of_nat (length l))); [lia|].
  simpl. rewrite Nat2Z.id.
  rewrite nth_error_app2 by lia. by rewrite Nat.sub_diag.
Qed.

Lemma sliceIndex_penultimate (A : Type) (l : list A) (x y : A) :
  sliceIndex (l ++ [x; y]) (Z.of_nat (length (l ++ [x; y])) - 2) = Ret x.
Proof.
  unfold sliceIndex. rewrite length_app. simpl.
  replace (Z.of_nat (length l + 2) - 2) with (Z.of_nat (length l)) by lia.
  destruct (Z.ltb_spec (Z.of_nat (length l)) 0); [lia|].
  destruct (Z.leb_spec (Z.of_nat (length l + 2)) (Z.of_nat (length l))); [lia|].
  simpl. rewrite Nat2Z.id.
  rewrite nth_error_app2 by lia. by rewrite Nat.sub_diag.
Qed.

Lemma sliceIndex_last2 (A : Type) (l : list A) (x y : A) :
  sliceIndex (l ++ [x; y]) (Z.of_nat (length (l ++ [x; y])) - 1) = Ret y.
Proof.
  replace (l ++ [x; y]) with ((l ++ [x]) ++ [y]) by by rewrite <- app_assoc.
  apply sliceIndex_last.
Qed.

Lemma sliceIndex_head (A : Type) (x : A) (l l' : list A) :
  sliceIndex ((x :: l) ++ l') 0 = Ret x.
Proof.
  unfold sliceIndex. simpl.
  destruct (Z.leb_spec (Z.pos (Pos.of_succ_nat (length (l ++ l')))) 0); [lia | done].
Qed.

End StringFacts.

(** ** Decimal numbers *)

Section Decimal.
Import GoStrconv.

Lemma digitVal_digitChar (d : Z) : 0 <= d < 10 -> digitVal (digitChar d) = Some d.
Proof.
  intros Hd.
  assert (d = 0 \/ d = 1 \/ d = 2 \/ d = 3 \/ d = 4 \/ d = 5 \/ d = 6 \/ d = 7
          \/ d = 8 \/ d = 9) as Hc by lia.
  repeat (destruct Hc as [-> | Hc]; [reflexivity|]). by subst.
Qed.

Lemma digitChar_not (c : ascii) (d : Z) :
  0 <= d < 10 -> digitVal c = None -> Ascii.eqb (digitChar d) c = false.
Proof.
  intros Hd Hc. destruct (Ascii.eqb_spec (digitChar d) c) as [<-|]; [|done].
  rewrite digitVal_digitChar in Hc by done. discriminate.
Qed.

Lemma formatBits_parse (fuel : nat) : forall n acc,
  0 <= n < 10 ^ Z.of_nat fuel ->
  parseDigits 0 (formatBits fuel n acc) = parseDigits n acc.
Proof.
  induction fuel as [|fuel IH]; intros n acc Hn.
  - simpl in *. by replace n with 0 by lia.
  - cbn [formatBits]. rewrite Nat2Z.inj_succ, Z.pow_succ_r in Hn by lia.
    assert (0 <= n mod 10 < 10) as Hd by (apply Z.mod_pos_bound; lia).
    destruct (Z.ltb_spec n 10) as [Hlt|Hge].
    + cbn [parseDigits]. rewrite digitVal_digitChar by done.
      rewrite Z.mod_small by lia. by rewrite Z.mul_0_r.
    + rewrite IH.
      * cbn [parseDigits]. rewrite digitVal_digitChar by done.
        f_equal. pose proof (Z.div_mod n 10). lia.
      * split; [apply Z.div_pos; lia | apply Z.div_lt_upper_bound; lia].
Qed.

Lemma formatBits_Count (c : ascii) (fuel : nat) : forall n acc,
  digitVal c = None ->
  GoStrings.Count (formatBits fuel n acc) c = GoStrings.Count acc c.
Proof.
  intros n acc Hc. revert n acc.
  induction fuel as [|fuel IH]; intros n acc; [reflexivity|].
  cbn [formatBits].
  assert (0 <= n mod 10 < 10) as Hd by (apply Z.mod_pos_bound; lia).
  destruct (n <? 10); [|rewrite IH]; simpl;
    by rewrite (digitChar_not c _ Hd Hc).
Qed.

(** A formatted number starts with a digit. *)
Lemma formatBits_head (fuel : nat) : forall n acc,
  (exists c s, acc = String c s /\ is_Some (digitVal c)) \/ fuel <> O ->
  exists c s, formatBits fuel n acc = String c s /\ is_Some (digitVal c).
Proof.
  induction fuel as [|fuel IH]; intros n acc Hacc.
  - destruct Hacc as [Hacc|]; [exact Hacc | done].
  - cbn [formatBits].
    assert (0 <= n mod 10 < 10) as Hd by (apply Z.mod_pos_bound; lia).
    destruct (n <? 10).
    + eexists _, _. split; [reflexivity|]. by rewrite digitVal_digitChar.
    + apply IH. left. eexists _, _. split; [reflexivity|].
      by rewrite digitVal_digitChar.
Qed.

Lemma pow10_log2 (n : Z) : 0 <= n -> n < 10 ^ Z.of_nat (S (Z.to_nat (Z.log2 n))).
Proof.
  intros Hn. rewrite Nat2Z.inj_succ, Z2Nat.id by apply Z.log2_nonneg.
  destruct (Z.eq_dec n 0) as [->|Hne]; [reflexivity|].
  pose proof (Z.log2_spec n ltac:(lia)) as [_ Hlt].
  eapply Z.lt_le_trans; [exact Hlt|].
  apply Z.pow_le_mono_l. lia.
Qed.

Lemma parse_formatUint (n : Z) : 0 <= n -> parseDigits 0 (formatUint n) = Some n.
Proof.
  intros Hn. unfold formatUint.
  rewrite formatBits_parse; [reflexivity|].
  split; [done | by apply pow10_log2].
Qed.

Lemma formatUint_head (n : Z) :
  exists c s, formatUint n = String c s /\ is_Some (digitVal c).
Proof. apply formatBits_head. by right. Qed.

Lemma ParseInt_minus (body : string) :
  ParseInt (String "-" body)
  = match body with
    | EmptyString => inl (ErrSyntax "ParseInt" (String "-" body))
    | _ =>
        match parseDigits 0 body with
        | None => inl (ErrSyntax "ParseInt" (String "-" body))
        | Some un =>
            if 2 ^ 63 <? un then inl (ErrRange "ParseInt" (String "-" body))
            else inr (- un)
        end
    end.
Proof. reflexivity. Qed.

Lemma ParseInt_digit (c : ascii) (s : string) :
  is_Some (digitVal c) ->
  ParseInt (String c s)
  = match parseDigits 0 (String c s) with
    | None => inl (ErrSyntax "ParseInt" (String c s))
    | Some un =>
        if 2 ^ 63 <=? un then inl (ErrRange "ParseInt" (String c s)) else inr un
    end.
Proof.
  intros [d Hd]. unfold ParseInt.
  assert (Ascii.eqb c "-" = false) as ->.
  { destruct (Ascii.eqb_spec c "-") as [->|]; [discriminate Hd | done]. }
  assert (Ascii.eqb c "+" = false) as ->.
  { destruct (Ascii.eqb_spec c "+") as [->|]; [discriminate Hd | done]. }
  reflexivity.
Qed.

(** Parsing a formatted 64-bit number gives the number back. *)
Lemma ParseInt_FormatInt (i : Z) : in_int64 i -> ParseInt (FormatInt i) = inr i.
Proof.
  unfold in_int64, int64_min, int64_max. intros Hi. unfold FormatInt.
  destruct (Z.ltb_spec i 0) as [Hneg|Hpos].
  - destruct (formatUint_head (- i)) as (c & s & Hs & _).
    pose proof (parse_formatUint (- i) ltac:(lia)) as Hp.
    rewrite ParseInt_minus, Hs in *. rewrite Hp.
    destruct (Z.ltb_spec (2 ^ 63) (- i)); [lia|].
    f_equal. lia.
  - destruct (formatUint_head i) as (c & s & Hs & Hd).
    pose proof (parse_formatUint i Hpos) as Hp. rewrite Hs in *.
    rewrite ParseInt_digit, Hp by done.
    destruct (Z.leb_spec (2 ^ 63) i); [lia | reflexivity].
Qed.

Lemma FormatInt_Count (c : ascii) (i : Z) :
  digitVal c = None -> Ascii.eqb "-" c = false ->
  GoStrings.Count (FormatInt i) c = 0%nat.
Proof.
  intros Hc Hm. unfold FormatInt, formatUint.
  destruct (i <? 0).
  - cbn [GoStrings.Count]. rewrite Hm. by rewrite formatBits_Count.
  - by rewrite formatBits_Count.
Qed.

End Decimal.

(** ** Key codec *)

Section KeyCodec.

Lemma joinSizeLoop_fit (s : list string) : forall pre rest,
  length rest = length (list_ascii_of_string (fold_right String.append EmptyString s)) ->
  joinSizeLoop (pre ++ rest) (length pre) s
  = pre ++ list_ascii_of_string (fold_right String.append EmptyString s).
Proof.
  induction s as [|v s IH]; intros pre rest Hlen.
  - simpl in *. destruct rest; [reflexivity | discriminate].
  - cbn [joinSizeLoop copyAt fold_right] in *.
    rewrite length_list_ascii_of_string, length_append in Hlen.
    rewrite length_app, length_list_ascii_of_string.
    replace (length pre + length rest - length pre)%nat with (length rest) by lia.
    rewrite Nat.min_r by lia.
    rewrite take_app_length.
    rewrite <- (length_list_ascii_of_string v) at 1. rewrite firstn_all.
    rewrite drop_app_add.
    specialize (IH (pre ++ list_ascii_of_string v) (drop (String.length v) rest)).
    rewrite length_app, !length_list_ascii_of_string in IH.
    rewrite app_assoc, IH.
    + rewrite <- app_assoc. f_equal.
      rewrite <- (list_ascii_of_string_of_list_ascii (_ ++ _)).
      rewrite string_of_list_ascii_app, !string_of_list_ascii_of_string. reflexivity.
    + rewrite length_drop. lia.
Qed.

Lemma joinSizeBytes_fit (n : nat) (s : list string) :
  n = String.length (fold_right String.append EmptyString s) ->
  joinSizeBytes n s = fold_right String.append EmptyString s.
Proof.
  intros ->. unfold joinSizeBytes.
  pose proof (joinSizeLoop_fit s [] (replicate (String.length (fold_right String.append EmptyString s)) zero)) as Hfit.
  simpl in Hfit. rewrite Hfit.
  - apply string_of_list_ascii_of_string.
  - by rewrite length_replicate, length_list_ascii_of_string.
Qed.

Lemma fold_left_length (s : list string) : forall n,
  fold_left (fun n v => (n + String.length v)%nat) s n
  = (n + String.length (fold_right String.append EmptyString s))%nat.
Proof.
  induction s as [|v s IH]; intros n; simpl; [lia|].
  rewrite IH, length_append. lia.
Qed.

(** [joinBytes] is concatenation. *)
Lemma joinBytes_concat (s : list string) :
  joinBytes s = fold_right String.append EmptyString s.
Proof.
  unfold joinBytes. apply joinSizeBytes_fit. by rewrite fold_left_length.
Qed.

Lemma keyForHeight_eq (r : abci.TxResult) :
  keyForHeight r
  = (types.TxHeightKey +:+ tagKeySeparator +:+ BE4 (abci.Height r))
    +:+ String tagKeySeparatorByte
          (GoStrconv.FormatInt (abci.Height r)
           +:+ String tagKeySeparatorByte
                 (GoStrconv.FormatInt (abci.Index r) +:+ (eventSeqSeparator +:+ "0"))).
Proof.
  unfold keyForHeight. rewrite joinBytes_concat. cbn [fold_right].
  rewrite append_empty_r, !append_assoc. reflexivity.
Qed.

Lemma keyForEvent_eq (k v : string) (r : abci.TxResult) (s : Z) :
  keyForEvent k v r s
  = (k +:+ String tagKeySeparatorByte v)
    +:+ String tagKeySeparatorByte
          (GoStrconv.FormatInt (abci.Height r)
           +:+ String tagKeySeparatorByte
                 (GoStrconv.FormatInt (abci.Index r)
                  +:+ (eventSeqSeparator +:+ GoStrconv.FormatInt s))).
Proof. unfold keyForEvent. rewrite !append_assoc. reflexivity. Qed.

Lemma FormatInt_no_sep (i : Z) :
  GoStrings.Count (GoStrconv.FormatInt i) tagKeySeparatorByte = 0%nat.
Proof. by apply FormatInt_Count. Qed.

Lemma tail_no_sep (i s : Z) :
  GoStrings.Count (GoStrconv.FormatInt i +:+ (eventSeqSeparator +:+ GoStrconv.FormatInt s))
    tagKeySeparatorByte = 0%nat.
Proof. rewrite !Count_append, !FormatInt_no_sep. reflexivity. Qed.

(** The pieces of a key that ends in [/height/tail]: those of what is
    before, then the height and the tail. *)
Lemma Split_key (front h tail : string) :
  GoStrings.Count h tagKeySeparatorByte = 0%nat ->
  GoStrings.Count tail tagKeySeparatorByte = 0%nat ->
  GoStrings.Split (front +:+ String tagKeySeparatorByte (h +:+ String tagKeySeparatorByte tail))
    tagKeySeparatorByte
  = GoStrings.Split front tagKeySeparatorByte ++ [h; tail].
Proof.
  intros Hh Ht. rewrite !Split_append_sep.
  by rewrite (Split_no_sep h), (Split_no_sep tail).
Qed.

Lemma extractHeightFromKey_key (front h tail : string) :
  GoStrings.Count h tagKeySeparatorByte = 0%nat ->
  GoStrings.Count tail tagKeySeparatorByte = 0%nat ->
  extractHeightFromKey
    (front +:+ String tagKeySeparatorByte (h +:+ String tagKeySeparatorByte tail))
  = Ret (GoStrconv.ParseInt h).
Proof.
  intros Hh Ht. unfold extractHeightFromKey. rewrite Split_key by done.
  by rewrite sliceIndex_penultimate.
Qed.

End KeyCodec.

(** ** Round trips of the key codec *)

(** C7. For every result [r] with a positive height (an [int64]),
    [extractHeightFromKey (keyForHeight r)] is the height of [r]; and every
    by-event-attribute key [keyForEvent k v r s] splits on the separator
    into pieces whose second-to-last parses as the decimal height of [r]
    (which is what [extractHeightFromKey] reads). *)
Theorem height_roundtrip (r : abci.TxResult) :
  0 < abci.Height r <= int64_max ->
  extractHeightFromKey (keyForHeight r) = Ret (inr (abci.Height r))
  /\ forall (k v : string) (s : Z),
       (exists front field tail,
           GoStrings.Split (keyForEvent k v r s) tagKeySeparatorByte
           = front ++ [field; tail]
           /\ GoStrconv.ParseInt field = inr (abci.Height r))
       /\ extractHeightFromKey (keyForEvent k v r s) = Ret (inr (abci.Height r)).
Proof.
  intros Hh.
  assert (in_int64 (abci.Height r)) as Hin.
  { unfold in_int64, int64_min, int64_max in *. lia. }
  split.
  - rewrite keyForHeight_eq, extractHeightFromKey_key.
    + by rewrite ParseInt_FormatInt.
    + apply FormatInt_no_sep.
    + apply (tail_no_sep (abci.Index r) 0).
  - intros k v s. rewrite keyForEvent_eq. split.
    + eexists _, _, _. split.
      * apply Split_key; [apply FormatInt_no_sep | apply tail_no_sep].
      * by apply ParseInt_FormatInt.
    + rewrite extractHeightFromKey_key.
      * by rewrite ParseInt_FormatInt.
      * apply FormatInt_no_sep.
      * apply tail_no_sep.
Qed.

Lemma height_roundtrip_witness :
  extractHeightFromKey (keyForHeight (Demo.atHeight 47)) = Ret (inr 47).
Proof.
  apply (height_roundtrip (Demo.atHeight 47)). unfold int64_max. simpl. lia.
Defined.

(** What [extractValueFromKey] computes on a key with at least three
    pieces. *)
Lemma extractValueFromKey_parts (key p0 h t : string) (mid : list string) :
  GoStrings.Split key tagKeySeparatorByte = (p0 :: mid) ++ [h; t] ->
  extractValueFromKey key
  = Ret (GoStrings.TrimSuffix
           (GoStrings.TrimPrefix key (p0 +:+ tagKeySeparator))
           (tagKeySeparator +:+ h +:+ tagKeySeparator +:+ t +:+ EmptyString)).
Proof.
  intros Hsplit. unfold extractValueFromKey. rewrite Hsplit.
  rewrite sliceIndex_head. cbn [bind outcome_bind obind extractValueSuffix].
  rewrite sliceIndex_last2. cbn [bind outcome_bind obind].
  change (1 + 1) with 2.
  rewrite sliceIndex_penultimate. cbn [bind outcome_bind obind].
  reflexivity.
Qed.

(** The value of a by-event-attribute key is extracted without a panic,
    whatever the composite key and the value. *)
Lemma extractValueFromKey_defined (k v : string) (r : abci.TxResult) (s : Z) :
  exists value, extractValueFromKey (keyForEvent k v r s) = Ret value.
Proof.
  pose proof (Split_not_nil (k +:+ String tagKeySeparatorByte v) tagKeySeparatorByte) as Hne.
  destruct (GoStrings.Split (k +:+ String tagKeySeparatorByte v) tagKeySeparatorByte)
    as [|p0 mid] eqn:Hsplit; [done|].
  eexists. eapply (extractValueFromKey_parts _ p0).
  rewrite keyForEvent_eq, Split_key, Hsplit; [reflexivity | |].
  - apply FormatInt_no_sep.
  - apply tail_no_sep.
Qed.

(** With no separator in the composite key, the extracted value is the
    value, whether or not the value contains separators. *)
Lemma extractValueFromKey_value (k v : string) (r : abci.TxResult) (s : Z) :
  GoStrings.Count k tagKeySeparatorByte = 0%nat ->
  extractValueFromKey (keyForEvent k v r s) = Ret v.
Proof.
  intros Hk.
  rewrite (extractValueFromKey_parts _ k (GoStrconv.FormatInt (abci.Height r))
             (GoStrconv.FormatInt (abci.Index r)
              +:+ (eventSeqSeparator +:+ GoStrconv.FormatInt s))
             (GoStrings.Split v tagKeySeparatorByte)).
  - f_equal. rewrite keyForEvent_eq. unfold tagKeySeparator.
    change (String tagKeySeparatorByte ?x) with (String tagKeySeparatorByte EmptyString +:+ x).
    rewrite !append_empty_r, !append_assoc.
    rewrite <- (append_assoc k), TrimPrefix_append.
    apply TrimSuffix_append.
  - rewrite keyForEvent_eq, Split_key, Split_append_sep, (Split_no_sep k);
      [reflexivity | done | |].
    + apply FormatInt_no_sep.
    + apply tail_no_sep.
Qed.

(** C8, as the code has it. For every key built by [keyForEvent k v r s],
    [extractValueFromKey] is defined; and whenever the composite key [k]
    contains no separator, the extracted value equals [v] exactly (also
    for a value that contains separators). *)
Theorem value_roundtrip_amended (k v : string) (r : abci.TxResult) (s : Z) :
  (exists value, extractValueFromKey (keyForEvent k v r s) = Ret value)
  /\ (GoStrings.Count k tagKeySeparatorByte = 0%nat ->
      extractValueFromKey (keyForEvent k v r s) = Ret v).
Proof.
  split; [apply extractValueFromKey_defined | apply extractValueFromKey_value].
Qed.

Lemma value_roundtrip_amended_witness :
  extractValueFromKey (keyForEvent "acc.owner" "Iv/an" Demo.oneResult 12)
  = Ret "Iv/an"%string.
Proof.
  apply (value_roundtrip_amended "acc.owner" "Iv/an" Demo.oneResult 12). reflexivity.
Defined.

(** C8, as stated, fails: the value ["x"] contains no separator, but under
    the composite key ["a/b.c"] the extracted value is ["b.c/x"]. *)
Lemma value_roundtrip_counterexample :
  ~ (forall (k v : string) (r : abci.TxResult) (s : Z),
       GoStrings.Count v tagKeySeparatorByte = 0%nat ->
       extractValueFromKey (keyForEvent k v r s) = Ret v).
Proof.
  intros Hall.
  specialize (Hall "a/b.c"%string "x"%string Demo.oneResult 1 eq_refl).
  vm_compute in Hall. discriminate Hall.
Qed.

(** ** The write path *)

Section WritePath.
Context `{Codec}.

Lemma length_zero_eqb (s : string) :
  (String.length s =? 0)%nat = String.eqb s EmptyString.
Proof. by destruct s. Qed.

Lemma applyBatch_app (m : gmap string string) (b1 b2 : Batch) :
  applyBatch m (b1 ++ b2) = applyBatch (applyBatch m b1) b2.
Proof. apply fold_left_app. Qed.

(** Keys that a batch does not mention keep their value. *)
Lemma applyBatch_lookup_other (b : Batch) : forall (m : gmap string string) (k : string),
  (forall kv, kv ∈ b -> kv.1 <> k) -> applyBatch m b !! k = m !! k.
Proof.
  induction b as [|[k' v'] b IH]; intros m k Hne; [reflexivity|].
  simpl. rewrite IH.
  - apply lookup_insert_ne. apply (Hne (k', v')). by left.
  - intros kv Hin. apply Hne. by right.
Qed.

(** The last write to a key wins. *)
Lemma applyBatch_lookup_last (m : gmap string string) (b1 b2 : Batch) (k v : string) :
  (forall kv, kv ∈ b2 -> kv.1 <> k) ->
  applyBatch m (b1 ++ (k, v) :: b2) !! k = Some v.
Proof.
  intros Hne. rewrite applyBatch_app. simpl.
  rewrite applyBatch_lookup_other by done. apply lookup_insert_eq.
Qed.

Lemma indexAttributes_spec (event : abci.Event) (result : abci.TxResult)
    (hash : string) (seq : Z) (attrs : list abci.EventAttribute) : forall b,
  indexAttributes (abci.Type_ event) attrs result hash seq b
  = b ++ map (eventEntry result hash seq event)
         (filter (fun attr => negb (String.eqb (abci.Key attr) EmptyString)
                              && abci.GetIndex attr = true) attrs).
Proof.
  induction attrs as [|attr attrs IH]; intros b; simpl.
  - by rewrite app_nil_r.
  - rewrite length_zero_eqb, filter_cons.
    destruct (String.eqb (abci.Key attr) EmptyString) eqn:Hk; simpl.
    + apply IH.
    + rewrite IH. destruct (abci.GetIndex attr) eqn:Hi; simpl.
      * unfold BatchSet. rewrite <- app_assoc. reflexivity.
      * reflexivity.
Qed.

Lemma indexEventsLoop_spec (result : abci.TxResult) (hash : string)
    (events : list abci.Event) : forall txi b,
  indexEventsLoop events txi result hash b
  = ({| store := store txi;
        eventSeq := Nat.iter (length events) nextSeq (eventSeq txi) |},
     b ++ eventEntries result hash (eventSeq txi) events).
Proof.
  induction events as [|event events IH]; intros txi b.
  - simpl. rewrite app_nil_r. by destruct txi.
  - cbn [indexEventsLoop]. rewrite length_zero_eqb.
    unfold eventEntries. rewrite imap_cons. cbn [concat].
    assert (forall n, Nat.iter (S (S n)) nextSeq (eventSeq txi)
                      = Nat.iter (S n) nextSeq (nextSeq (eventSeq txi))) as Hiter.
    { intros n. apply Nat.iter_succ_r. }
    rewrite (imap_ext _ (fun n event0 =>
      map (eventEntry result hash (Nat.iter (S n) nextSeq (nextSeq (eventSeq txi))) event0)
          (indexedAttributes event0))) by (intros; unfold compose; by rewrite Hiter).
    fold (eventEntries result hash (nextSeq (eventSeq txi)) events).
    unfold indexedAttributes at 1.
    destruct (String.eqb (abci.Type_ event) EmptyString).
    + rewrite IH. cbn [store eventSeq length]. rewrite Nat.iter_succ_r. reflexivity.
    + rewrite IH, indexAttributes_spec. cbn [store eventSeq length].
      rewrite Nat.iter_succ_r, <- app_assoc. reflexivity.
Qed.

Lemma indexEvents_spec (txi : TxIndex) (result : abci.TxResult) (hash : string) (b : Batch) :
  indexEvents txi result hash b
  = ({| store := store txi;
        eventSeq := Nat.iter (length (abci.Events (abci.Result result))) nextSeq
                      (eventSeq txi) |},
     b ++ eventEntries result hash (eventSeq txi) (abci.Events (abci.Result result))).
Proof. apply indexEventsLoop_spec. Qed.

(** An entry written for the events of a result has a key of that result. *)
Lemma eventEntries_writesKey (result : abci.TxResult) (hash : string) (seq0 : Z)
    (events : list abci.Event) (kv : string * string) :
  kv ∈ eventEntries result hash seq0 events -> writesKey kv.1 result.
Proof.
  unfold eventEntries. intros Hin.
  apply list_elem_of_In, in_concat in Hin as (l & Hl & Hkv).
  apply list_elem_of_In in Hl, Hkv.
  apply elem_of_lookup_imap in Hl as (n & event & -> & _).
  apply list_elem_of_fmap in Hkv as (attr & -> & _).
  right. right. simpl. eauto.
Qed.

Lemma resultEntries_writesKey (result : abci.TxResult) (seq0 : Z) (raw : string)
    (kv : string * string) :
  kv ∈ resultEntries result seq0 raw -> writesKey kv.1 result.
Proof.
  unfold resultEntries. rewrite elem_of_app. intros [Hin|Hin].
  - by eapply eventEntries_writesKey.
  - apply elem_of_cons in Hin as [->|Hin]; [right; by left|].
    apply list_elem_of_singleton in Hin as ->. by left.
Qed.

(** One step of [AddBatch]. *)
Lemma addBatchLoop_cons (result : abci.TxResult) (ops : list abci.TxResult)
    (txi : TxIndex) (b : Batch) :
  addBatchLoop (result :: ops) txi b
  = let txi1 := {| store := store txi;
                   eventSeq := Nat.iter (length (abci.Events (abci.Result result)))
                                 nextSeq (eventSeq txi) |} in
    match Marshal result with
    | inl err => (txi1, inl err)
    | inr raw => addBatchLoop ops txi1 (b ++ resultEntries result (eventSeq txi) raw)
    end.
Proof.
  cbn [addBatchLoop]. rewrite indexEvents_spec. cbv zeta.
  destruct (Marshal result); [reflexivity|].
  unfold BatchSet, resultEntries. by rewrite <- !app_assoc.
Qed.

(** A batch that succeeds extends the pending writes with entries whose
    keys are keys of its operations. *)
Lemma addBatchLoop_entries (ops : list abci.TxResult) : forall txi b txi' b',
  addBatchLoop ops txi b = (txi', inr b') ->
  exists B, b' = b ++ B
            /\ forall kv, kv ∈ B -> exists r, r ∈ ops /\ writesKey kv.1 r.
Proof.
  induction ops as [|result ops IH]; intros txi b txi' b' Hloop.
  - simpl in Hloop. injection Hloop as _ <-. exists []. split.
    + by rewrite app_nil_r.
    + intros kv Hin. by apply elem_of_nil in Hin.
  - rewrite addBatchLoop_cons in Hloop. cbv zeta in Hloop.
    destruct (Marshal result) as [err|raw]; [discriminate|].
    apply IH in Hloop as (B & -> & HB).
    exists (resultEntries result (eventSeq txi) raw ++ B). split.
    + by rewrite app_assoc.
    + intros kv Hin. apply elem_of_app in Hin as [Hin|Hin].
      * exists result. split; [by left | by eapply resultEntries_writesKey].
      * destruct (HB kv Hin) as (r & Hr & Hw). exists r. split; [by right | done].
Qed.

(** A batch that succeeds, cut at one of its operations. *)
Lemma addBatchLoop_split (pre : list abci.TxResult) (r : abci.TxResult)
    (post : list abci.TxResult) : forall txi b txi' b',
  addBatchLoop (pre ++ r :: post) txi b = (txi', inr b') ->
  exists b1 raw B seq,
    Marshal r = inr raw
    /\ b' = (b1 ++ resultEntries r seq raw) ++ B
    /\ forall kv, kv ∈ B -> exists r', r' ∈ post /\ writesKey kv.1 r'.
Proof.
  induction pre as [|p pre IH]; intros txi b txi' b' Hloop.
  - rewrite app_nil_l, addBatchLoop_cons in Hloop. cbv zeta in Hloop.
    destruct (Marshal r) as [err|raw] eqn:Hm; [discriminate|].
    apply addBatchLoop_entries in Hloop as (B & -> & HB).
    by exists b, raw, B, (eventSeq txi).
  - rewrite <- app_comm_cons, addBatchLoop_cons in Hloop. cbv zeta in Hloop.
    destruct (Marshal p) as [err|rawp]; [discriminate|].
    by apply IH in Hloop.
Qed.

End WritePath.

(** ** The demonstration codec satisfies the laws *)

Lemma posOfBits_bitsOfPos (p : positive) : Demo.posOfBits (Demo.bitsOfPos p) = Some p.
Proof. induction p as [p IH|p IH|]; simpl; by rewrite ?IH. Qed.

Lemma length_string_of_list_ascii (l : list ascii) :
  String.length (string_of_list_ascii l) = length l.
Proof. induction l as [|c l IH]; simpl; congruence. Qed.

#[global] Instance demo_codec_laws : @CodecLaws Demo.codec.
Proof.
  split.
  - intros tx. simpl. unfold Demo.pad32.
    rewrite length_string_of_list_ascii, length_take, length_app, length_replicate. lia.
  - intros r raw. simpl. intros [= <-].
    by rewrite posOfBits_bitsOfPos, decode_encode.
Qed.

(** ** Success preservation and last-writer-wins *)

Section Overwrite.
Context `{Codec} `{!CodecLaws}.

Lemma Hash_not_empty (tx : string) : (String.length (Hash tx) =? 0)%nat = false.
Proof. by rewrite Hash_length. Qed.

(** After a write that ends with the by-hash entry, [Get] reads the result
    back. *)
Lemma Get_after_write (txi : TxIndex) (b1 b2 : Batch) (r : abci.TxResult) (raw : string) :
  Marshal r = inr raw ->
  (forall kv, kv ∈ b2 -> kv.1 <> Hash (abci.Tx r)) ->
  Get (WriteSync txi (b1 ++ (Hash (abci.Tx r), raw) :: b2)) (Hash (abci.Tx r))
  = inr (Some r).
Proof.
  intros Hm Hne. unfold Get, WriteSync. cbn [store].
  rewrite Hash_not_empty, applyBatch_lookup_last by done.
  by rewrite (Unmarshal_Marshal r raw Hm).
Qed.

Lemma Get_after_result (txi : TxIndex) (b B : Batch) (r : abci.TxResult)
    (seq : Z) (raw : string) :
  Marshal r = inr raw ->
  (forall kv, kv ∈ B -> kv.1 <> Hash (abci.Tx r)) ->
  Get (WriteSync txi ((b ++ resultEntries r seq raw) ++ B)) (Hash (abci.Tx r))
  = inr (Some r).
Proof.
  intros Hm Hne. unfold resultEntries.
  replace ((b ++ eventEntries r (Hash (abci.Tx r)) seq (abci.Events (abci.Result r))
              ++ [(keyForHeight r, Hash (abci.Tx r)); (Hash (abci.Tx r), raw)]) ++ B)
    with ((b ++ eventEntries r (Hash (abci.Tx r)) seq (abci.Events (abci.Result r))
             ++ [(keyForHeight r, Hash (abci.Tx r))])
          ++ (Hash (abci.Tx r), raw) :: B)
    by (by rewrite <- !app_assoc).
  by apply Get_after_write.
Qed.

(** What [Index] does with a successful result. *)
Lemma Index_ok (txi : TxIndex) (r : abci.TxResult) :
  abci.IsOK (abci.Result r) = true ->
  Index txi r
  = let txi1 := {| store := store txi;
                   eventSeq := Nat.iter (length (abci.Events (abci.Result r)))
                                 nextSeq (eventSeq txi) |} in
    match Marshal r with
    | inl err => (txi1, Some err)
    | inr raw => (WriteSync txi1 (resultEntries r (eventSeq txi) raw), None)
    end.
Proof.
  intros Hok. unfold Index. rewrite Hok. cbn [negb]. cbv iota.
  rewrite indexEvents_spec. cbv zeta.
  destruct (Marshal r); [reflexivity|].
  unfold BatchSet, resultEntries, NewBatch. by rewrite <- !app_assoc.
Qed.

(** [Index] either returns before any event is processed and leaves the
    indexer as it was, or fails to encode the result, or commits the
    entries of the result. *)
Lemma Index_cases (txi : TxIndex) (r : abci.TxResult) :
  let txi1 := {| store := store txi;
                 eventSeq := Nat.iter (length (abci.Events (abci.Result r)))
                               nextSeq (eventSeq txi) |} in
  (exists ret, Index txi r = (txi, ret))
  \/ Index txi r
     = match Marshal r with
       | inl err => (txi1, Some err)
       | inr raw => (WriteSync txi1 (resultEntries r (eventSeq txi) raw), None)
       end.
Proof.
  intros txi1. unfold Index.
  match goal with
  | |- context [match ?e with Some ret => (txi, ret) | None => _ end] =>
      destruct e as [ret|]
  end; [left; by exists ret | right].
  rewrite indexEvents_spec. cbv zeta.
  destruct (Marshal r); [reflexivity|].
  unfold BatchSet, resultEntries, NewBatch. by rewrite <- !app_assoc.
Qed.

(** C1. Success preservation: for two results [r1] and [r2] whose
    transaction bytes have the same hash, if [Index r1] with code 0 succeeds
    and [Index r2] with a code other than 0 is called next, this second call
    returns success and leaves the indexer as it was (nothing is written),
    and [Get] of the hash still returns [r1], so its code is 0 and its
    height that of [r1]. *)
Theorem success_preservation (txi : TxIndex) (r1 r2 : abci.TxResult) :
  Hash (abci.Tx r1) = Hash (abci.Tx r2) ->
  abci.Code (abci.Result r1) = 0 ->
  abci.Code (abci.Result r2) <> 0 ->
  (Index txi r1).2 = None ->
  let txi1 := (Index txi r1).1 in
  Index txi1 r2 = (txi1, None)
  /\ Get (Index txi1 r2).1 (Hash (abci.Tx r1)) = inr (Some r1).
Proof.
  intros Hhash Hc1 Hc2 Hsucc txi1.
  assert (Get txi1 (Hash (abci.Tx r1)) = inr (Some r1)) as Hget.
  { subst txi1. rewrite Index_ok in * by (unfold abci.IsOK; by rewrite Hc1).
    cbv zeta in *. destruct (Marshal r1) as [err|raw] eqn:Hm; [discriminate|].
    cbn [fst].
    rewrite <- (app_nil_l (resultEntries _ _ _)), <- (app_nil_r (_ ++ resultEntries _ _ _)).
    apply Get_after_result; [done|]. intros kv Hin. by apply elem_of_nil in Hin. }
  assert (Index txi1 r2 = (txi1, None)) as Hidx.
  { unfold Index. unfold abci.IsOK, abci.CodeTypeOK.
    destruct (Z.eqb_spec (abci.Code (abci.Result r2)) 0) as [|_]; [done|].
    cbn [negb]. rewrite <- Hhash, Hget. unfold abci.CodeTypeOK.
    by rewrite Hc1. }
  split; [done|]. by rewrite Hidx.
Qed.

(** C3, as the code has it. [AddBatch] applies last-writer-wins and not the
    success-preservation rule: when a result [r1] with code 0 is stored
    under the hash of [r2], whose code is not 0, and a batch contains [r2]
    and after it no operation that writes the key of that hash, then after
    [AddBatch] succeeds [Get] of the hash returns [r2], not [r1]. *)
Theorem addbatch_last_writer_wins (txi : TxIndex) (r1 r2 : abci.TxResult)
    (pre post : list abci.TxResult) :
  Get txi (Hash (abci.Tx r2)) = inr (Some r1) ->
  abci.Code (abci.Result r1) = 0 ->
  abci.Code (abci.Result r2) <> 0 ->
  (forall r, r ∈ post -> ~ writesKey (Hash (abci.Tx r2)) r) ->
  (AddBatch txi (pre ++ r2 :: post)).2 = None ->
  Get (AddBatch txi (pre ++ r2 :: post)).1 (Hash (abci.Tx r2)) = inr (Some r2)
  /\ r2 <> r1.
Proof.
  intros _ Hc1 Hc2 Hpost Hsucc. split; [|congruence].
  unfold AddBatch in *.
  destruct (addBatchLoop (pre ++ r2 :: post) txi NewBatch) as [txi' [err|b']] eqn:Hloop;
    [discriminate|].
  apply addBatchLoop_split in Hloop as (b1 & raw & B & seq & Hm & -> & HB).
  cbn [fst]. apply Get_after_result; [done|].
  intros kv Hin Heq. destruct (HB kv Hin) as (r' & Hr' & Hw).
  apply (Hpost r' Hr'). by rewrite <- Heq.
Qed.

(** Without overflow, [n] increments add [n]. *)
Lemma iter_nextSeq (n : nat) : forall seq,
  in_int64 seq -> seq + Z.of_nat n <= int64_max ->
  Nat.iter n nextSeq seq = seq + Z.of_nat n.
Proof.
  unfold in_int64, int64_min, int64_max.
  induction n as [|n IH]; intros seq Hin Hle.
  - simpl. lia.
  - rewrite Nat.iter_succ_r, IH.
    + unfold nextSeq, wrap64. rewrite Z.mod_small by lia. lia.
    + unfold nextSeq, wrap64. rewrite Z.mod_small by lia. lia.
    + unfold nextSeq, wrap64. rewrite Z.mod_small by lia. lia.
Qed.

Lemma length_eventEntries (result : abci.TxResult) (hash : string)
    (events : list abci.Event) : forall seq0,
  length (eventEntries result hash seq0 events)
  = sum_list (map (fun event => length (indexedAttributes event)) events).
Proof.
  induction events as [|event events IH]; intros seq0; [reflexivity|].
  unfold eventEntries. rewrite imap_cons. cbn [concat map sum_list sum_list_with].
  rewrite length_app, length_map. f_equal.
  rewrite <- (IH (nextSeq seq0)). unfold eventEntries. f_equal. f_equal.
  apply imap_ext. intros i x _. unfold compose. by rewrite <- Nat.iter_succ_r.
Qed.

End Overwrite.

(** C5. The write discipline of the event index. [indexEvents] leaves the
    counter after exactly one increment per event of the result, events
    with an empty type included (which, without overflow, adds the number
    of events), and appends to the batch exactly one entry for every
    attribute with a non-empty key and [indexed = true] inside an event
    with a non-empty type, and nothing else: no entry for an event with an
    empty type, for an attribute with an empty key or for one that is not
    indexed. [Index], unless it returns before any event is processed (the
    skip of a failed result, which a successful result never takes), and
    [AddBatch] commit these entries, the by-height entry and the by-hash
    entry. *)
Theorem event_index_write_discipline `{Codec} (txi : TxIndex) (result : abci.TxResult) :
  let events := abci.Events (abci.Result result) in
  let hash := Hash (abci.Tx result) in
  let txi' := {| store := store txi;
                 eventSeq := Nat.iter (length events) nextSeq (eventSeq txi) |} in
  (forall b, indexEvents txi result hash b
             = (txi', b ++ eventEntries result hash (eventSeq txi) events))
  /\ length (eventEntries result hash (eventSeq txi) events)
     = sum_list (map (fun event => length (indexedAttributes event)) events)
  /\ (in_int64 (eventSeq txi) ->
      eventSeq txi + Z.of_nat (length events) <= int64_max ->
      eventSeq txi' = eventSeq txi + Z.of_nat (length events))
  /\ (forall raw, Marshal result = inr raw ->
        ((exists ret, Index txi result = (txi, ret))
         \/ Index txi result
            = (WriteSync txi' (resultEntries result (eventSeq txi) raw), None))
        /\ (abci.IsOK (abci.Result result) = true ->
            Index txi result
            = (WriteSync txi' (resultEntries result (eventSeq txi) raw), None))
        /\ AddBatch txi [result]
           = (WriteSync txi' (resultEntries result (eventSeq txi) raw), None)).
Proof.
  intros events hash txi'. split; [|split; [|split]].
  - intros b. apply indexEvents_spec.
  - apply length_eventEntries.
  - intros Hin Hle. subst txi'. cbn [eventSeq]. by apply iter_nextSeq.
  - intros raw Hm. split; [|split].
    + destruct (Index_cases txi result) as [Hskip|Hcommit]; [by left|].
      right. rewrite Hcommit. by rewrite Hm.
    + intros Hok. rewrite Index_ok by done. cbv zeta. by rewrite Hm.
    + unfold AddBatch. rewrite addBatchLoop_cons. cbv zeta. rewrite Hm.
      cbn [addBatchLoop]. unfold NewBatch. by rewrite app_nil_l.
Qed.

Lemma success_preservation_witness :
  Index Demo.storedOk Demo.failedResult = (Demo.storedOk, None)
  /\ Get (Index Demo.storedOk Demo.failedResult).1 (Hash (abci.Tx Demo.okResult))
     = inr (Some Demo.okResult).
Proof.
  apply (success_preservation (NewTxIndex ∅) Demo.okResult Demo.failedResult);
    [reflexivity | reflexivity | discriminate | vm_compute; reflexivity].
Defined.

Lemma addbatch_last_writer_wins_witness :
  Get (AddBatch Demo.storedOk ([] ++ Demo.failedResult :: [])).1
    (Hash (abci.Tx Demo.failedResult))
  = inr (Some Demo.failedResult)
  /\ Demo.failedResult <> Demo.okResult.
Proof.
  apply (addbatch_last_writer_wins Demo.storedOk Demo.okResult Demo.failedResult [] []).
  - vm_compute; reflexivity.
  - reflexivity.
  - discriminate.
  - intros r Hr. by apply elem_of_nil in Hr.
  - vm_compute; reflexivity.
Defined.

(** C3, as stated, fails: the batch of [failedResult] and [laterResult]
    contains [failedResult], whose code is not 0 and whose hash is that of
    the stored successful [okResult], and [AddBatch] succeeds; but
    [laterResult] has the same hash and comes later, so [Get] returns
    [laterResult] and not [failedResult]. *)
Lemma addbatch_later_op_counterexample :
  Get Demo.storedOk (Hash (abci.Tx Demo.failedResult)) = inr (Some Demo.okResult)
  /\ Demo.failedResult ∈ [Demo.failedResult; Demo.laterResult]
  /\ (AddBatch Demo.storedOk [Demo.failedResult; Demo.laterResult]).2 = None
  /\ Get (AddBatch Demo.storedOk [Demo.failedResult; Demo.laterResult]).1
       (Hash (abci.Tx Demo.failedResult))
     = inr (Some Demo.laterResult)
  /\ Get (AddBatch Demo.storedOk [Demo.failedResult; Demo.laterResult]).1
       (Hash (abci.Tx Demo.failedResult))
     <> inr (Some Demo.failedResult).
Proof.
  split; [vm_compute; reflexivity|].
  split; [by left|]. split; [vm_compute; reflexivity|].
  assert (Get (AddBatch Demo.storedOk [Demo.failedResult; Demo.laterResult]).1
            (Hash (abci.Tx Demo.failedResult))
          = inr (Some Demo.laterResult)) as Hget
    by (vm_compute; reflexivity).
  split; [exact Hget|]. rewrite Hget. discriminate.
Qed.

Lemma event_index_write_discipline_witness :
  eventSeq (AddBatch (NewTxIndex ∅) [Demo.eventResult]).1 = 2
  /\ eventEntries Demo.eventResult (Hash (abci.Tx Demo.eventResult)) 0
       [Demo.untypedEvent; Demo.accEvent]
     = [("acc.owner/Ivan/5/0$es$2"%string, Hash (abci.Tx Demo.eventResult))].
Proof.
  destruct (event_index_write_discipline (NewTxIndex ∅) Demo.eventResult)
    as (_ & _ & Hseq & Hcommit).
  destruct (Hcommit _ eq_refl) as (_ & _ & ->).
  split; [|vm_compute; reflexivity].
  cbn [fst WriteSync eventSeq]. apply Hseq; vm_compute; [split|]; discriminate.
Defined.

(** ** The block window of [matchRange] *)

Section BlockWindow.
Context `{Codec} `{Planner}.

Lemma wrap64_range (z : Z) : in_int64 (wrap64 z).
Proof.
  unfold in_int64, int64_min, int64_max, wrap64.
  pose proof (Z.mod_pos_bound (z + 2 ^ 63) (2 ^ 64) ltac:(lia)). lia.
Qed.

Lemma wrap64_small (z : Z) : in_int64 z -> wrap64 z = z.
Proof.
  unfold in_int64, int64_min, int64_max, wrap64. intros Hz.
  rewrite Z.mod_small by lia. lia.
Qed.

(** The bounds of a scan: the lower one is at least 1 and both are
    [int64]s. *)
Lemma rangeHeights_bounds (qr : indexer.QueryRange) (lower upper : Z) :
  rangeHeights qr = Some (lower, upper) ->
  1 <= lower /\ in_int64 lower /\ in_int64 upper.
Proof.
  unfold rangeHeights. intros Hr.
  assert (forall l u,
    Some (if wrap64 l <? 1 then 1 else wrap64 l, wrap64 u) = Some (lower, upper) ->
    1 <= lower /\ in_int64 lower /\ in_int64 upper) as Hgen.
  { intros l u [= <- <-]. pose proof (wrap64_range l) as Hl.
    pose proof (wrap64_range u) as Hu.
    destruct (Z.ltb_spec (wrap64 l) 1); repeat split; try done;
      unfold in_int64, int64_min, int64_max in *; lia. }
  destruct (asBigInt (indexer.LowerBoundValue qr)) as [l|],
           (asBigInt (indexer.UpperBoundValue qr)) as [u|];
    [eapply Hgen, Hr .. | discriminate].
Qed.

(** The bounds in the words of the specification: a missing lower bound is
    the upper one minus 4999, a missing upper bound the lower one plus 4999,
    both are converted to [int64], and the lower one is clamped to 1. *)
Lemma rangeHeights_spec (qr : indexer.QueryRange) :
  rangeHeights qr
  = match asBigInt (indexer.LowerBoundValue qr), asBigInt (indexer.UpperBoundValue qr) with
    | None, None => None
    | None, Some u => Some (Z.max 1 (wrap64 (u - 4999)), wrap64 u)
    | Some l, None => Some (Z.max 1 (wrap64 l), wrap64 (l + 4999))
    | Some l, Some u => Some (Z.max 1 (wrap64 l), wrap64 u)
    end.
Proof.
  unfold rangeHeights, blockToSearch. change (5000 - 1) with 4999.
  destruct (asBigInt (indexer.LowerBoundValue qr)) as [l|],
           (asBigInt (indexer.UpperBoundValue qr)) as [u|]; try reflexivity;
    match goal with
    | |- context [wrap64 ?x <? 1] => destruct (Z.ltb_spec (wrap64 x) 1)
    end; f_equal; f_equal; lia.
Qed.

(** C6. The block-window guard: with [lower] and [upper] the bounds after
    the replacement of a missing bound and the clamp of [lower] to 1, if
    [lower > upper] or [upper - lower > 5000] then [matchRange] returns the
    incoming filter set unchanged, without a single poll or read of the
    store (which it has no means to write). *)
Theorem block_window_guard (txi : TxIndex) (qr : indexer.QueryRange)
    (startKey : string) (filteredHashes : gmap string string)
    (firstRun matchEvents : bool) (heightInfo : HeightInfo)
    (lower upper : Z) (ctx : Context) (n : nat) :
  rangeHeights qr = Some (lower, upper) ->
  lower > upper \/ upper - lower > blockToSearch ->
  matchRange txi qr startKey filteredHashes firstRun matchEvents heightInfo ctx n
  = Ret (filteredHashes, n).
Proof.
  intros Hr Hguard. unfold matchRange.
  destruct (negb firstRun && (size filteredHashes =? 0)%nat); [reflexivity|].
  rewrite Hr.
  destruct (rangeHeights_bounds qr lower upper Hr) as (Hl & Hinl & Hinu).
  destruct (Z.ltb_spec upper lower) as [|Hle]; [reflexivity|].
  rewrite wrap64_small
    by (unfold in_int64, int64_min, int64_max in *; lia).
  destruct (Z.ltb_spec blockToSearch (upper - lower)); [reflexivity | lia].
Qed.

End BlockWindow.

Lemma block_window_guard_witness :
  matchRange (NewTxIndex ∅) Demo.wideRange "tx.height/" {["h" := "h"]}%string
    true false zeroHeightInfo Demo.background 0%nat
  = Ret ({["h" := "h"]}%string, 0%nat).
Proof.
  apply (block_window_guard (NewTxIndex ∅) Demo.wideRange "tx.height/"
           {["h" := "h"]}%string true false zeroHeightInfo 1 10000);
    [reflexivity | right; reflexivity].
Defined.

(** ** The hash fast path *)

Section HashFastPath.
Context `{Codec} `{Planner}.

(** [lookForHash] stops at the first condition on [tx.hash], whatever its
    operator. *)
Lemma lookForHash_first (pre post : list query.Condition) (c : query.Condition) :
  Forall (fun c' => query.CompositeKey c' <> types.TxHashKey) pre ->
  query.CompositeKey c = types.TxHashKey ->
  lookForHash (pre ++ c :: post)
  = s <- assertString (query.Operand c);;
    Ret ((GoHex.DecodeString s).1, true, (GoHex.DecodeString s).2).
Proof.
  intros Hpre Hc. induction Hpre as [|c' pre Hc' _ IH].
  - cbn [app lookForHash]. rewrite Hc, String.eqb_refl.
    destruct (assertString (query.Operand c)) as [s|]; [|reflexivity].
    cbn [bind outcome_bind obind]. by destruct (GoHex.DecodeString s).
  - cbn [app lookForHash].
    destruct (String.eqb_spec (query.CompositeKey c') types.TxHashKey); [done|].
    exact IH.
Qed.

(** A search whose query has a condition on [tx.hash] with a string operand
    depends on that operand only. *)
Lemma Search_hash (txi : TxIndex) (q : query.Query) (pre post : list query.Condition)
    (c : query.Condition) (s : string) (ctx : Context) (n : nat) :
  query.Conditions q = inr (pre ++ c :: post) ->
  Forall (fun c' => query.CompositeKey c' <> types.TxHashKey) pre ->
  query.CompositeKey c = types.TxHashKey ->
  query.Operand c = VString s ->
  ctx n = false ->
  Search txi q ctx n
  = Ret (match (GoHex.DecodeString s).2 with
         | Some e =>
             ([], Some (Errorf "error during searching for a hash in the query: %w" e))
         | None => hashResult txi (GoHex.DecodeString s).1
         end, S n).
Proof.
  intros Hq Hpre Hc Hs Hctx. unfold Search.
  unfold bind at 1. unfold Scan_bind, pollDone. rewrite Hctx, Hq.
  rewrite lookForHash_first, Hs by done.
  cbn [assertString bind outcome_bind obind].
  unfold bind, Scan_bind, lift. cbv beta iota.
  destruct (GoHex.DecodeString s) as [hash [e|]]; cbn [fst snd]; [reflexivity|].
  unfold hashResult. by destruct (Get txi hash) as [e|[res|]].
Qed.

(** C4, as the code has it. For every query whose first condition on
    [tx.hash] is an equality with a hex string that decodes to [hash],
    [Search], entered with a live context, returns at most one result:
    what [Get hash] gives (the stored result, or the empty list if none is
    stored or it cannot be read). No other condition is evaluated: the
    outcome depends on no other condition, on no helper of the planner, and
    no scan polls the context. *)
Theorem hash_equality_fast_path (txi : TxIndex) (q : query.Query)
    (pre post : list query.Condition) (c : query.Condition) (s hash : string)
    (ctx : Context) (n : nat) :
  query.Conditions q = inr (pre ++ c :: post) ->
  Forall (fun c' => query.CompositeKey c' <> types.TxHashKey) pre ->
  query.CompositeKey c = types.TxHashKey ->
  query.Op c = query.OpEqual ->
  query.Operand c = VString s ->
  GoHex.DecodeString s = (hash, None) ->
  ctx n = false ->
  Search txi q ctx n = Ret (hashResult txi hash, S n)
  /\ (length (hashResult txi hash).1 <= 1)%nat
  /\ (forall res, Get txi hash = inr (Some res) ->
                  hashResult txi hash = ([Some res], None))
  /\ (Get txi hash = inr None -> hashResult txi hash = ([], None)).
Proof.
  intros Hq Hpre Hc _ Hs Hdec Hctx. split; [|split; [|split]].
  - rewrite (Search_hash txi q pre post c s ctx n) by done. by rewrite Hdec.
  - unfold hashResult. destruct (Get txi hash) as [e|[res|]]; simpl; lia.
  - intros res Hget. unfold hashResult. by rewrite Hget.
  - intros Hget. unfold hashResult. by rewrite Hget.
Qed.

(** C9, as the code has it. [lookForHash] selects the first condition whose
    composite key is [tx.hash] without a look at its operator, so whenever
    the operand of that condition is a string the hash fast path
    (hex-decode the operand, a single [Get], every other condition ignored)
    is taken for every operator, [CONTAINS] for instance, and not only for
    equality: the search returns what it returns when the operator is
    replaced by equality. *)
Theorem hash_any_operator_fast_path (txi : TxIndex) (q : query.Query)
    (pre post : list query.Condition) (op : query.Operator) (s : string)
    (ctx : Context) (n : nat) :
  let c := {| query.CompositeKey := types.TxHashKey; query.Op := op;
              query.Operand := VString s |} in
  let c_eq := {| query.CompositeKey := types.TxHashKey; query.Op := query.OpEqual;
                 query.Operand := VString s |} in
  query.Conditions q = inr (pre ++ c :: post) ->
  Forall (fun c' => query.CompositeKey c' <> types.TxHashKey) pre ->
  ctx n = false ->
  lookForHash (pre ++ c :: post)
  = Ret ((GoHex.DecodeString s).1, true, (GoHex.DecodeString s).2)
  /\ Search txi q ctx n
     = Search txi {| query.Conditions := inr (pre ++ c_eq :: post) |} ctx n
  /\ ((GoHex.DecodeString s).2 = None ->
      Search txi q ctx n = Ret (hashResult txi (GoHex.DecodeString s).1, S n)).
Proof.
  intros c c_eq Hq Hpre Hctx. split; [|split].
  - by rewrite lookForHash_first.
  - rewrite (Search_hash txi q pre post c s ctx n) by done.
    by rewrite (Search_hash txi _ pre post c_eq s ctx n).
  - intros Hdec. rewrite (Search_hash txi q pre post c s ctx n) by done.
    by rewrite Hdec.
Qed.

End HashFastPath.

Lemma hash_equality_fast_path_witness :
  Search Demo.oneIndexed
    {| query.Conditions :=
         inr ([Demo.condition "acc.owner" query.OpEqual (VString "Ivan")]
              ++ Demo.condition "tx.hash" query.OpEqual (VString Demo.oneHashHex)
              :: [Demo.condition "acc.owner" query.OpEqual (VString "Ivan")]) |}
    Demo.background 0%nat
  = Ret (hashResult Demo.oneIndexed (Hash (abci.Tx Demo.oneResult)), 1%nat).
Proof.
  apply (hash_equality_fast_path Demo.oneIndexed _
           [Demo.condition "acc.owner" query.OpEqual (VString "Ivan")]
           [Demo.condition "acc.owner" query.OpEqual (VString "Ivan")]
           (Demo.condition "tx.hash" query.OpEqual (VString Demo.oneHashHex))
           Demo.oneHashHex (Hash (abci.Tx Demo.oneResult)) Demo.background 0%nat);
    [reflexivity | constructor; [discriminate | constructor] | reflexivity
    | reflexivity | reflexivity | vm_compute; reflexivity | reflexivity].
Defined.

(** C4, as stated, fails: the query contains the condition [tx.hash = H]
    with [H] the hash of [oneResult], which is stored, but the search
    returns the empty list, because an earlier condition on [tx.hash],
    with a hash under which nothing is stored, is the one looked up. *)
Lemma earlier_hash_condition_counterexample :
  Demo.condition "tx.hash" query.OpEqual (VString Demo.oneHashHex)
    ∈ [Demo.condition "tx.hash" query.OpEqual (VString Demo.otherHashHex);
       Demo.condition "tx.hash" query.OpEqual (VString Demo.oneHashHex)]
  /\ GoHex.DecodeString Demo.oneHashHex = (Hash (abci.Tx Demo.oneResult), None)
  /\ Get Demo.oneIndexed (Hash (abci.Tx Demo.oneResult)) = inr (Some Demo.oneResult)
  /\ Search Demo.oneIndexed
       {| query.Conditions :=
            inr [Demo.condition "tx.hash" query.OpEqual (VString Demo.otherHashHex);
                 Demo.condition "tx.hash" query.OpEqual (VString Demo.oneHashHex)] |}
       Demo.background 0%nat
     = Ret (([], None), 1%nat).
Proof.
  split; [right; by left|]. repeat split; vm_compute; reflexivity.
Qed.

Lemma hash_any_operator_fast_path_witness :
  Search Demo.oneIndexed
    {| query.Conditions :=
         inr ([] ++ {| query.CompositeKey := types.TxHashKey;
                       query.Op := query.OpContains;
                       query.Operand := VString Demo.oneHashHex |} :: []) |}
    Demo.background 0%nat
  = Ret (hashResult Demo.oneIndexed (GoHex.DecodeString Demo.oneHashHex).1, 1%nat).
Proof.
  apply (hash_any_operator_fast_path Demo.oneIndexed _ [] [] query.OpContains
           Demo.oneHashHex Demo.background 0%nat);
    [reflexivity | constructor | reflexivity | vm_compute; reflexivity].
Defined.

(** C9, as stated, fails for [EXISTS]: the operand of such a condition is
    nil, the conversion of the operand to a string panics, and neither a
    decoding nor a [Get] takes place. *)
Lemma hash_exists_operand_counterexample :
  lookForHash [Demo.condition "tx.hash" query.OpExists VNil]
  = Panic "interface conversion: interface {} is not string"
  /\ Search Demo.oneIndexed
       {| query.Conditions := inr [Demo.condition "tx.hash" query.OpExists VNil] |}
       Demo.background 0%nat
     = Panic "interface conversion: interface {} is not string".
Proof. split; vm_compute; reflexivity. Qed.

(** ** Cancellation after entry *)

Section Cancellation.
Context `{Codec} `{Planner}.

Lemma oblivious_ret (A : Type) (a : A) : oblivious (ret a).
Proof. by intros ctx1 ctx2 n1 n2. Qed.

Lemma oblivious_lift (A : Type) (o : outcome A) : oblivious (lift o).
Proof. intros ctx1 ctx2 n1 n2. unfold lift. by destruct o. Qed.

Lemma oblivious_bind (A B : Type) (m : Scan A) (f : A -> Scan B) :
  oblivious m -> (forall a, oblivious (f a)) -> oblivious (a <- m;; f a).
Proof.
  intros Hm Hf ctx1 ctx2 n1 n2. unfold bind, Scan_bind.
  specialize (Hm ctx1 ctx2 n1 n2).
  destruct (m ctx1 n1) as [[a1 k1]|msg1], (m ctx2 n2) as [[a2 k2]|msg2];
    simpl in Hm; try discriminate.
  - injection Hm as ->. apply Hf.
  - injection Hm as ->. reflexivity.
Qed.

(** The cancellation [select] always ends normally: its [break] does not
    reach the loop around it. *)
Lemma selectDone_Normal (ctx : Context) (n : nat) : selectDone ctx n = Ret (Normal, S n).
Proof.
  unfold selectDone, bind, Scan_bind, pollDone, ret. by destruct (ctx n).
Qed.

Lemma oblivious_selectDone : oblivious selectDone.
Proof. intros ctx1 ctx2 n1 n2. by rewrite !selectDone_Normal. Qed.

Lemma oblivious_forRange (A S : Type) (body : A -> S -> Scan (signal * S)) (l : list A) :
  (forall a s, oblivious (body a s)) -> forall s, oblivious (forRange body l s).
Proof.
  intros Hbody. induction l as [|a l IH]; intros s.
  - apply oblivious_ret.
  - cbn [forRange]. apply oblivious_bind; [apply Hbody|].
    intros [sig s']. cbn [fst snd]. destruct sig; [apply IH | apply oblivious_ret | apply IH].
Qed.

Ltac oblivious_step :=
  first
    [ apply oblivious_ret
    | apply oblivious_lift
    | apply oblivious_selectDone
    | apply oblivious_forRange; intros
    | apply oblivious_bind; [|intros]
    | match goal with
      | |- oblivious (match ?x with _ => _ end) => destruct x
      end ].

Ltac solve_oblivious := repeat oblivious_step.

Lemma oblivious_mergeHashes (tmpHashes filteredHashes : gmap string string)
    (firstRun : bool) : oblivious (mergeHashes tmpHashes filteredHashes firstRun).
Proof. unfold mergeHashes, intersectBody. solve_oblivious. Qed.

Lemma oblivious_match (txi : TxIndex) (c : query.Condition) (startKeyBz : string)
    (filteredHashes : gmap string string) (firstRun matchEvents : bool)
    (heightInfo : HeightInfo) :
  oblivious (match_ txi c startKeyBz filteredHashes firstRun matchEvents heightInfo).
Proof.
  unfold match_, matchScanBody, matchContainsBody.
  solve_oblivious; apply oblivious_mergeHashes.
Qed.

Lemma oblivious_matchRange (txi : TxIndex) (qr : indexer.QueryRange) (startKey : string)
    (filteredHashes : gmap string string) (firstRun matchEvents : bool)
    (heightInfo : HeightInfo) :
  oblivious (matchRange txi qr startKey filteredHashes firstRun matchEvents heightInfo).
Proof.
  unfold matchRange, matchRangeBody.
  solve_oblivious; apply oblivious_mergeHashes.
Qed.

(** [Search] after its first poll of the context. *)
Lemma Search_entered (txi : TxIndex) (q : query.Query) :
  exists rest : Scan (list (option abci.TxResult) * option Error),
    oblivious rest
    /\ forall ctx n, ctx n = false -> Search txi q ctx n = rest ctx (S n).
Proof.
  unfold Search. eexists. split; [|intros ctx n Hctx].
  2: { unfold bind at 1. unfold Scan_bind, pollDone. rewrite Hctx. reflexivity. }
  unfold searchRangeBody, searchConditionBody, searchFetchBody. cbv beta iota.
  repeat first [apply oblivious_match | apply oblivious_matchRange | oblivious_step].
Qed.

(** C10. Cancellation after entry has no effect on the result: for every
    query, every store and every context that is not yet done when
    [Search] is entered, whatever the later polls of the context answer,
    the search returns what it returns under a context that is never
    cancelled, since the [break] of every cancellation [select] leaves the
    [select] only and every scan and every fetch runs to its end. *)
Theorem cancellation_after_entry (txi : TxIndex) (q : query.Query)
    (ctx : Context) (n : nat) :
  ctx n = false ->
  returned (Search txi q ctx n) = returned (Search txi q (fun _ => false) n).
Proof.
  intros Hctx. destruct (Search_entered txi q) as (rest & Hobl & Hrest).
  rewrite (Hrest ctx n Hctx), (Hrest (fun _ => false) n eq_refl).
  apply Hobl.
Qed.

End Cancellation.

Lemma cancellation_after_entry_witness :
  returned (Search (Demo.indexAll Demo.tenResults) Demo.heightRangeQuery
              Demo.cancelledAfterEntry 0%nat)
  = returned (Search (Demo.indexAll Demo.tenResults) Demo.heightRangeQuery
                (fun _ => false) 0%nat).
Proof.
  apply (cancellation_after_entry (Demo.indexAll Demo.tenResults)
           Demo.heightRangeQuery Demo.cancelledAfterEntry 0%nat).
  reflexivity.
Defined.

(** ** The upper bound of a height range *)

Lemma String_le_append (a b : string) : String.le a (a +:+ b).
Proof.
  unfold String.le, String.leb.
  induction a as [|c a IH]; [by destruct b|].
  rewrite append_cons. cbn [String.compare].
  unfold Ascii.compare. by rewrite N.compare_refl.
Qed.

(** The bounded scan of [matchRange] never yields the by-height key of a
    result whose height is the upper bound: that key extends the end key
    of the scan, and the end of an iterator is exclusive. *)
Lemma upper_height_key_excluded (m : gmap string string) (r : abci.TxResult)
    (fromKey value : string) :
  let startKey := startKey [VString types.TxHeightKey] in
  let sizeBytes := (String.length startKey + 4 + String.length tagKeySeparator)%nat in
  let toKey := joinSizeBytes sizeBytes [startKey; BE4 (abci.Height r); tagKeySeparator] in
  (keyForHeight r, value) ∉ Iterator m fromKey toKey.
Proof.
  intros startKey0 sizeBytes toKey Hin.
  apply list_elem_of_filter in Hin as [[_ Hnle] _]. apply Hnle. cbn [fst].
  subst toKey. rewrite joinSizeBytes_fit.
  - rewrite keyForHeight_eq. cbn [fold_right].
    match goal with
    | |- String.le ?to (_ +:+ String tagKeySeparatorByte ?rest) =>
        replace (_ +:+ String tagKeySeparatorByte rest) with (to +:+ rest)
          by (rewrite !append_assoc; reflexivity)
    end.
    apply String_le_append.
  - cbn [fold_right]. rewrite !length_append. subst sizeBytes. reflexivity.
Qed.

(** C2, on the code. With ten results indexed at the heights 1 to 10, the
    search for [tx.height >= 3 AND tx.height <= 7] returns four results,
    those at the heights 3, 4, 5 and 6: the result at height 7 is stored,
    and is not returned. *)
Theorem height_range_misses_upper_bound :
  exists results polls,
    Search (Demo.indexAll Demo.tenResults) Demo.heightRangeQuery Demo.background 0%nat
    = Ret ((results, None), polls)
    /\ length results = 4%nat
    /\ filter (fun r => Some r ∈ results) Demo.tenResults
       = [Demo.atHeight 3; Demo.atHeight 4; Demo.atHeight 5; Demo.atHeight 6]
    /\ Get (Demo.indexAll Demo.tenResults) (Hash (abci.Tx (Demo.atHeight 7)))
       = inr (Some (Demo.atHeight 7))
    /\ Some (Demo.atHeight 7) ∉ results.
Proof.
  destruct (Search (Demo.indexAll Demo.tenResults) Demo.heightRangeQuery
              Demo.background 0%nat)
    as [[[results err] polls]|msg] eqn:Hsearch; vm_compute in Hsearch;
    [|discriminate].
  injection Hsearch as <- <- <-.
  eexists _, _. split; [reflexivity|].
  split; [reflexivity|]. split; [vm_compute; reflexivity|].
  split; [vm_compute; reflexivity|].
  intros Hin. by repeat (apply elem_of_cons in Hin as [Hin|Hin]; [discriminate Hin|]);
    apply elem_of_nil in Hin.
Qed.


(** * Further properties of the key codec *)

Section KeyCodecMore.

Lemma length_Split (s : string) (sep : ascii) :
  length (GoStrings.Split s sep) = S (GoStrings.Count s sep).
Proof.
  induction s as [|c s IH]; [reflexivity|].
  cbn [GoStrings.Split GoStrings.Count].
  destruct (Ascii.eqb c sep); cbn [length]; [by rewrite IH|].
  pose proof (Split_not_nil s sep).
  destruct (GoStrings.Split s sep); [done|]. cbn [length] in *. lia.
Qed.

Lemma sliceIndex_in_range (A : Type) (l : list A) (i : Z) :
  0 <= i < Z.of_nat (length l) -> exists a, sliceIndex l i = Ret a.
Proof.
  intros Hi. unfold sliceIndex.
  destruct (Z.ltb_spec i 0); [lia|].
  destruct (Z.leb_spec (Z.of_nat (length l)) i); [lia|]. cbn [orb].
  destruct (nth_error l (Z.to_nat i)) as [a|] eqn:Hnth; [by exists a|].
  apply nth_error_None in Hnth. lia.
Qed.

Lemma sliceIndex_out_of_range (A : Type) (l : list A) (i : Z) :
  i < 0 \/ Z.of_nat (length l) <= i -> sliceIndex l i = Panic "index out of range".
Proof.
  intros Hi. unfold sliceIndex.
  destruct (Z.ltb_spec i 0); [reflexivity|].
  destruct (Z.leb_spec (Z.of_nat (length l)) i); [reflexivity | lia].
Qed.

(** [extractValueFromKey] returns on every key with a separator. *)
Lemma extractValueFromKey_total (key : string) :
  (0 < GoStrings.Count key tagKeySeparatorByte)%nat ->
  exists v, extractValueFromKey key = Ret v.
Proof.
  intros Hpos. pose proof (length_Split key tagKeySeparatorByte) as Hlen.
  unfold extractValueFromKey.
  destruct (sliceIndex_in_range _ (GoStrings.Split key tagKeySeparatorByte) 0)
    as [p0 ->]; [lia|].
  cbn [bind outcome_bind obind extractValueSuffix].
  destruct (sliceIndex_in_range _ (GoStrings.Split key tagKeySeparatorByte)
              (Z.of_nat (length (GoStrings.Split key tagKeySeparatorByte)) - 1))
    as [p1 ->]; [lia|].
  cbn [bind outcome_bind obind]. change (1 + 1) with 2.
  destruct (sliceIndex_in_range _ (GoStrings.Split key tagKeySeparatorByte)
              (Z.of_nat (length (GoStrings.Split key tagKeySeparatorByte)) - 2))
    as [p2 ->]; [lia|].
  cbn [bind outcome_bind obind]. by eexists.
Qed.

(** X1. The extractors on an arbitrary key: [extractHeightFromKey] and
    [extractValueFromKey] panic (index out of range) exactly on the keys
    that contain no separator, and [extractEventSeqFromKey] never panics.
    In particular none of them panics on a tag key. *)
Theorem extractors_panic_iff_no_separator (key : string) :
  (extractHeightFromKey key = Panic "index out of range"
   <-> GoStrings.Count key tagKeySeparatorByte = 0%nat)
  /\ (extractValueFromKey key = Panic "index out of range"
      <-> GoStrings.Count key tagKeySeparatorByte = 0%nat)
  /\ ((0 < GoStrings.Count key tagKeySeparatorByte)%nat ->
      (exists h, extractHeightFromKey key = Ret h)
      /\ (exists v, extractValueFromKey key = Ret v))
  /\ (exists s, extractEventSeqFromKey key = Ret s).
Proof.
  pose proof (length_Split key tagKeySeparatorByte) as Hlen.
  assert ((0 < GoStrings.Count key tagKeySeparatorByte)%nat ->
          (exists h, extractHeightFromKey key = Ret h)
          /\ (exists v, extractValueFromKey key = Ret v)) as Hsome.
  { intros Hpos. split.
    - unfold extractHeightFromKey.
      destruct (sliceIndex_in_range _ (GoStrings.Split key tagKeySeparatorByte)
                  (Z.of_nat (length (GoStrings.Split key tagKeySeparatorByte)) - 2))
        as [p ->]; [lia|]. by eexists.
    - by apply extractValueFromKey_total. }
  assert (GoStrings.Count key tagKeySeparatorByte = 0%nat ->
          extractHeightFromKey key = Panic "index out of range"
          /\ extractValueFromKey key = Panic "index out of range") as Hnone.
  { intros Hzero. split.
    - unfold extractHeightFromKey. rewrite sliceIndex_out_of_range by lia. reflexivity.
    - unfold extractValueFromKey.
      destruct (sliceIndex_in_range _ (GoStrings.Split key tagKeySeparatorByte) 0)
        as [p0 ->]; [lia|].
      cbn [bind outcome_bind obind extractValueSuffix].
      destruct (sliceIndex_in_range _ (GoStrings.Split key tagKeySeparatorByte)
                  (Z.of_nat (length (GoStrings.Split key tagKeySeparatorByte)) - 1))
        as [p1 ->]; [lia|].
      cbn [bind outcome_bind obind]. change (1 + 1) with 2.
      rewrite sliceIndex_out_of_range by lia. reflexivity. }
  split; [|split; [|split]].
  - split; [|apply Hnone].
    intros Hp. destruct (GoStrings.Count key tagKeySeparatorByte) eqn:Hc; [done|].
    destruct Hsome as [[h Hh] _]; [lia|]. congruence.
  - split; [|apply Hnone].
    intros Hp. destruct (GoStrings.Count key tagKeySeparatorByte) eqn:Hc; [done|].
    destruct Hsome as [_ [v Hv]]; [lia|]. congruence.
  - exact Hsome.
  - unfold extractEventSeqFromKey.
    destruct (sliceIndex_in_range _ (GoStrings.Split key tagKeySeparatorByte)
                (Z.of_nat (length (GoStrings.Split key tagKeySeparatorByte)) - 1))
      as [p1 ->]; [lia|].
    cbn [bind outcome_bind obind].
    destruct (GoStrings.cut eventSeqSeparator p1) as [[b a]|]; by eexists.
Qed.

Lemma extractors_panic_iff_no_separator_witness :
  (exists h, extractHeightFromKey "acc.owner/Ivan/5/0$es$1" = Ret h)
  /\ (exists v, extractValueFromKey "acc.owner/Ivan/5/0$es$1" = Ret v).
Proof.
  apply (extractors_panic_iff_no_separator "acc.owner/Ivan/5/0$es$1").
  vm_compute. lia.
Defined.

Lemma isTagKey_keyForHeight (r : abci.TxResult) : isTagKey (keyForHeight r) = true.
Proof.
  unfold isTagKey.
  rewrite keyForHeight_eq, !Count_append. cbn [GoStrings.Count].
  rewrite !Count_append. cbn [GoStrings.Count].
  rewrite !Ascii.eqb_refl. apply Nat.leb_le.
  change (GoStrings.Count types.TxHeightKey tagKeySeparatorByte) with 0%nat.
  change (GoStrings.Count tagKeySeparator tagKeySeparatorByte) with 1%nat. lia.
Qed.

Lemma isTagKey_keyForEvent (k v : string) (r : abci.TxResult) (s : Z) :
  isTagKey (keyForEvent k v r s) = true.
Proof.
  unfold isTagKey.
  rewrite keyForEvent_eq, !Count_append. cbn [GoStrings.Count].
  rewrite !Count_append. cbn [GoStrings.Count].
  rewrite !Ascii.eqb_refl. apply Nat.leb_le. lia.
Qed.

(** X2. Every key the indexer writes next to the by-hash entry, the
    by-height key and the by-event keys, is a tag key: it has at least
    three separators, whatever the composite key, the value and the
    height. *)
Theorem written_keys_are_tag_keys (r : abci.TxResult) :
  isTagKey (keyForHeight r) = true
  /\ forall (k v : string) (s : Z), isTagKey (keyForEvent k v r s) = true.
Proof.
  split; [apply isTagKey_keyForHeight | intros k v s; apply isTagKey_keyForEvent].
Qed.

Lemma cut_first (c : ascii) (sub a b : string) :
  GoStrings.Count a c = 0%nat ->
  GoStrings.cut (String c sub) (a +:+ String c sub +:+ b) = Some (a, b).
Proof.
  induction a as [|x a IH]; intros Hc.
  - rewrite append_empty_l. change (String c sub +:+ b) with (String c (sub +:+ b)).
    destruct (sub +:+ b) eqn:Hsb;
      cbn [GoStrings.cut]; change (String c sub) with (String c sub) ;
      rewrite <- Hsb; rewrite <- append_cons; by rewrite stripPrefix_append.
  - cbn [GoStrings.Count] in Hc.
    destruct (Ascii.eqb_spec x c) as [->|Hne]; [discriminate|].
    rewrite append_cons. cbn [GoStrings.cut GoStrings.stripPrefix].
    destruct (Ascii.eqb_spec c x) as [->|_]; [done|].
    rewrite IH by (simpl in Hc; lia). reflexivity.
Qed.

(** X3. Event-sequence round trip: the sequence number read back from a
    by-event key is the decimal rendering of the counter it was built
    with, and the one read back from a by-height key is "0". *)
Theorem eventSeq_roundtrip (r : abci.TxResult) :
  extractEventSeqFromKey (keyForHeight r) = Ret "0"%string
  /\ forall (k v : string) (s : Z),
       extractEventSeqFromKey (keyForEvent k v r s) = Ret (GoStrconv.FormatInt s).
Proof.
  assert (forall front seq,
    extractEventSeqFromKey
      (front +:+ String tagKeySeparatorByte
         (GoStrconv.FormatInt (abci.Height r)
          +:+ String tagKeySeparatorByte
                (GoStrconv.FormatInt (abci.Index r)
                 +:+ (eventSeqSeparator +:+ GoStrconv.FormatInt seq))))
    = Ret (GoStrconv.FormatInt seq)) as Hgen.
  { intros front seq. unfold extractEventSeqFromKey.
    rewrite Split_key by (apply FormatInt_no_sep || apply tail_no_sep).
    rewrite sliceIndex_last2. cbn [bind outcome_bind obind].
    unfold eventSeqSeparator.
    rewrite (cut_first "$" "es$" (GoStrconv.FormatInt (abci.Index r))
               (GoStrconv.FormatInt seq)); [reflexivity|].
    by apply FormatInt_Count. }
  split.
  - rewrite keyForHeight_eq. apply (Hgen _ 0).
  - intros k v s. rewrite keyForEvent_eq. apply Hgen.
Qed.

Lemma take_replicate_pad (C rest : list ascii) (v : list ascii) (k : nat) :
  k = Nat.min (length rest) (length v) ->
  take k v ++ take (length rest - k) (C ++ drop (length C + k) rest)
  = take (length rest) (v ++ C ++ drop (length v + length C) rest).
Proof.
  intros ->. destruct (Nat.le_gt_cases (length v) (length rest)) as [Hle|Hgt].
  - rewrite Nat.min_r by lia. rewrite firstn_all.
    rewrite (take_app_ge v _ (length rest)) by lia.
    by rewrite (Nat.add_comm (length C) (length v)).
  - rewrite Nat.min_l by lia. rewrite Nat.sub_diag, take_0, app_nil_r.
    by rewrite take_app_le by lia.
Qed.

(** What the copy loop of [joinSizeBytes] leaves in the buffer. *)
Lemma joinSizeLoop_spec (s : list string) : forall pre rest,
  joinSizeLoop (pre ++ rest) (length pre) s
  = pre ++ take (length rest)
             (list_ascii_of_string (fold_right String.append EmptyString s)
              ++ drop (String.length (fold_right String.append EmptyString s)) rest).
Proof.
  induction s as [|v s IH]; intros pre rest.
  - simpl. by rewrite drop_0, firstn_all.
  - cbn [joinSizeLoop copyAt fold_right].
    rewrite length_app.
    replace (length pre + length rest - length pre)%nat with (length rest) by lia.
    set (k := Nat.min (length rest) (length (list_ascii_of_string v))).
    rewrite take_app_length, drop_app_add.
    specialize (IH (pre ++ take k (list_ascii_of_string v)) (drop k rest)).
    assert (k <= length (list_ascii_of_string v))%nat as Hk by (subst k; lia).
    rewrite length_app, length_take, Nat.min_l in IH by lia.
    rewrite app_assoc, IH, <- app_assoc. f_equal.
    rewrite length_drop, drop_drop.
    set (C := list_ascii_of_string (fold_right String.append EmptyString s)).
    replace (String.length (fold_right String.append EmptyString s)) with (length C)
      by (subst C; apply length_list_ascii_of_string).
    rewrite (Nat.add_comm k (length C)).
    rewrite (take_replicate_pad C rest (list_ascii_of_string v) k) by (subst k; reflexivity).
    f_equal.
    assert (list_ascii_of_string (v +:+ fold_right String.append EmptyString s)
            = list_ascii_of_string v ++ C) as ->.
    { subst C. rewrite <- (list_ascii_of_string_of_list_ascii (_ ++ _)).
      by rewrite string_of_list_ascii_app, !string_of_list_ascii_of_string. }
    rewrite <- app_assoc. f_equal. f_equal. f_equal.
    rewrite length_append, !length_list_ascii_of_string. subst C.
    rewrite length_list_ascii_of_string. lia.
Qed.

(** X4. [joinSizeBytes n s] is always [n] bytes long: the concatenation of
    the slices, cut at [n] bytes when it is longer and padded with zero
    bytes when it is shorter; [joinBytes], which passes the exact length,
    is the concatenation. *)
Theorem joinSizeBytes_spec (n : nat) (s : list string) :
  let all := fold_right String.append EmptyString s in
  joinSizeBytes n s
  = string_of_list_ascii
      (take n (list_ascii_of_string all ++ replicate (n - String.length all) zero))
  /\ String.length (joinSizeBytes n s) = n
  /\ joinBytes s = all.
Proof.
  intros all.
  assert (joinSizeBytes n s
          = string_of_list_ascii
              (take n (list_ascii_of_string all
                       ++ replicate (n - String.length all) zero))) as Heq.
  { unfold joinSizeBytes.
    pose proof (joinSizeLoop_spec s [] (replicate n zero)) as Hloop.
    cbn [app length] in Hloop. rewrite Hloop, length_replicate.
    by rewrite drop_replicate. }
  split; [exact Heq|]. split; [|apply joinBytes_concat].
  rewrite Heq, length_string_of_list_ascii, length_take, length_app, length_replicate,
    length_list_ascii_of_string. lia.
Qed.

End KeyCodecMore.

(** * The order of the keys and the scans *)

Section KeyOrder.

Lemma N_of_byte_of (x : Z) : N_of_ascii (byte_of x) = Z.to_N (x mod 256).
Proof.
  unfold byte_of. apply N_ascii_embedding.
  pose proof (Z.mod_pos_bound x 256 ltac:(lia)). lia.
Qed.

Lemma Ascii_compare_byte_of (x y : Z) :
  Ascii.compare (byte_of x) (byte_of y) = (x mod 256 ?= y mod 256).
Proof.
  unfold Ascii.compare. rewrite !N_of_byte_of.
  pose proof (Z.mod_pos_bound x 256 ltac:(lia)).
  pose proof (Z.mod_pos_bound y 256 ltac:(lia)).
  rewrite <- Z2N.inj_compare by lia. reflexivity.
Qed.

Lemma compare_append_prefix (p x y : string) :
  String.compare (p +:+ x) (p +:+ y) = String.compare x y.
Proof.
  induction p as [|c p IH]; [reflexivity|].
  rewrite !append_cons. cbn [String.compare].
  unfold Ascii.compare. by rewrite N.compare_refl.
Qed.

(** The four big-endian bytes compare as the numbers below [2 ^ 32] do. *)
Lemma BE4_compare (a b : Z) (x y : string) :
  0 <= a < 2 ^ 32 -> 0 <= b < 2 ^ 32 ->
  String.compare (BE4 a +:+ x) (BE4 b +:+ y)
  = match a ?= b with
    | Eq => String.compare x y
    | Lt => Lt
    | Gt => Gt
    end.
Proof.
  intros Ha Hb. unfold BE4. rewrite !append_cons, !append_empty_l.
  cbn [String.compare]. rewrite !Ascii_compare_byte_of, !Z.shiftr_div_pow2 by lia.
  change (2 ^ 32) with 4294967296 in *. change (2 ^ 24) with 16777216.
  change (2 ^ 16) with 65536. change (2 ^ 8) with 256.
  repeat match goal with
         | |- context [?u ?= ?v] => destruct (Z.compare_spec u v)
         end; try reflexivity; exfalso; Z.div_mod_to_equations; lia.
Qed.

(** The four bytes depend on the low 32 bits of the height only. *)
Lemma BE4_mod (h : Z) : BE4 h = BE4 (h mod 2 ^ 32).
Proof.
  unfold BE4, byte_of. rewrite !Z.shiftr_div_pow2 by lia.
  change (2 ^ 32) with 4294967296. change (2 ^ 24) with 16777216.
  change (2 ^ 16) with 65536. change (2 ^ 8) with 256.
  f_equal; [|f_equal; [|f_equal; [|f_equal]]]; do 2 f_equal;
    Z.div_mod_to_equations; lia.
Qed.

(** X5. The binary field of the by-height key keeps the low 32 bits of the
    height only: the keys of two results whose heights agree modulo
    [2 ^ 32] start with the same fifteen bytes, the tag, a separator, the
    four bytes and a separator, so the order of the height index cannot
    tell such heights apart. *)
Theorem keyForHeight_low_32_bits (r r' : abci.TxResult) :
  abci.Height r' mod 2 ^ 32 = abci.Height r mod 2 ^ 32 ->
  exists front rest rest',
    String.length front = 15%nat
    /\ front = (types.TxHeightKey +:+ tagKeySeparator
                +:+ BE4 (abci.Height r mod 2 ^ 32)) +:+ tagKeySeparator
    /\ keyForHeight r = front +:+ rest
    /\ keyForHeight r' = front +:+ rest'.
Proof.
  intros Hmod.
  exists ((types.TxHeightKey +:+ tagKeySeparator
           +:+ BE4 (abci.Height r mod 2 ^ 32)) +:+ tagKeySeparator),
    (GoStrconv.FormatInt (abci.Height r)
     +:+ String tagKeySeparatorByte
           (GoStrconv.FormatInt (abci.Index r) +:+ (eventSeqSeparator +:+ "0"))),
    (GoStrconv.FormatInt (abci.Height r')
     +:+ String tagKeySeparatorByte
           (GoStrconv.FormatInt (abci.Index r') +:+ (eventSeqSeparator +:+ "0"))).
  split; [reflexivity|]. split; [reflexivity|]. split.
  - rewrite keyForHeight_eq, (BE4_mod (abci.Height r)).
    by rewrite (append_assoc _ tagKeySeparator).
  - rewrite keyForHeight_eq, (BE4_mod (abci.Height r')), Hmod.
    by rewrite (append_assoc _ tagKeySeparator).
Qed.

Lemma elem_of_entries (m : gmap string string) (kv : string * string) :
  kv ∈ entries m <-> m !! kv.1 = Some kv.2.
Proof.
  unfold entries. rewrite merge_sort_Permutation.
  destruct kv as [k v]. apply elem_of_map_to_list.
Qed.

Lemma elem_of_Iterator (m : gmap string string) (start end_ k v : string) :
  (k, v) ∈ Iterator m start end_
  <-> m !! k = Some v /\ String.le start k /\ ~ String.le end_ k.
Proof.
  unfold Iterator. rewrite list_elem_of_filter, elem_of_entries. simpl. tauto.
Qed.

Lemma elem_of_IteratePrefix (m : gmap string string) (prefix k v : string) :
  (k, v) ∈ IteratePrefix m prefix
  <-> m !! k = Some v /\ GoStrings.HasPrefix k prefix = true.
Proof.
  unfold IteratePrefix. rewrite list_elem_of_filter, elem_of_entries. simpl. tauto.
Qed.

(** The bound of a scan of the height index against a by-height key. *)
Lemma height_bound_le (r : abci.TxResult) (bound : Z) :
  0 <= abci.Height r < 2 ^ 32 -> 0 <= bound < 2 ^ 32 ->
  let startKey := startKey [VString types.TxHeightKey] in
  let sizeBytes := (String.length startKey + 4 + String.length tagKeySeparator)%nat in
  String.le (joinSizeBytes sizeBytes [startKey; BE4 bound; tagKeySeparator])
            (keyForHeight r)
  <-> bound <= abci.Height r.
Proof.
  intros Hh Hb startKey0 sizeBytes.
  rewrite joinSizeBytes_fit
    by (cbn [fold_right]; rewrite !length_append; subst sizeBytes; reflexivity).
  rewrite keyForHeight_eq. cbn [fold_right].
  change startKey0 with (types.TxHeightKey +:+ tagKeySeparator).
  rewrite !append_assoc. unfold String.le, String.leb.
  rewrite !compare_append_prefix, BE4_compare by done.
  destruct (Z.compare_spec bound (abci.Height r)) as [Heq|Hlt|Hgt].
  - rewrite append_empty_r. unfold tagKeySeparator. cbn [String.compare].
    unfold Ascii.compare. rewrite N.compare_refl.
    split; [lia|]. intros _. by destruct (GoStrconv.FormatInt (abci.Height r) +:+ _).
  - split; [lia | done].
  - split; [done | lia].
Qed.

(** X6. The scan of a height range yields the by-height entry of a stored
    result exactly when its height is at least the lower bound and below
    the upper bound (heights and bounds below [2 ^ 32]): the lower bound is
    inclusive, the upper bound exclusive. *)
Theorem height_scan_half_open (m : gmap string string) (r : abci.TxResult)
    (lower upper : Z) (value : string) :
  0 <= abci.Height r < 2 ^ 32 ->
  0 <= lower < 2 ^ 32 ->
  0 <= upper < 2 ^ 32 ->
  let startKey := startKey [VString types.TxHeightKey] in
  let sizeBytes := (String.length startKey + 4 + String.length tagKeySeparator)%nat in
  let fromKey := joinSizeBytes sizeBytes [startKey; BE4 lower; tagKeySeparator] in
  let toKey := joinSizeBytes sizeBytes [startKey; BE4 upper; tagKeySeparator] in
  (keyForHeight r, value) ∈ Iterator m fromKey toKey
  <-> m !! keyForHeight r = Some value /\ lower <= abci.Height r < upper.
Proof.
  intros Hh Hl Hu startKey0 sizeBytes fromKey toKey.
  rewrite elem_of_Iterator. subst fromKey toKey sizeBytes startKey0.
  rewrite (height_bound_le r lower Hh Hl), (height_bound_le r upper Hh Hu).
  intuition lia.
Qed.

End KeyOrder.

Lemma height_scan_half_open_witness :
  (keyForHeight (Demo.atHeight 3), Hash (abci.Tx (Demo.atHeight 3)))
    ∈ Iterator (store (Demo.indexAll Demo.tenResults))
        (joinSizeBytes 15 ["tx.height/"%string; BE4 3; tagKeySeparator])
        (joinSizeBytes 15 ["tx.height/"%string; BE4 7; tagKeySeparator])
  <-> store (Demo.indexAll Demo.tenResults) !! keyForHeight (Demo.atHeight 3)
      = Some (Hash (abci.Tx (Demo.atHeight 3)))
      /\ 3 <= abci.Height (Demo.atHeight 3) < 7.
Proof.
  apply (height_scan_half_open (store (Demo.indexAll Demo.tenResults))
           (Demo.atHeight 3) 3 7); vm_compute; split; congruence.
Defined.

Lemma keyForHeight_low_32_bits_witness :
  exists front rest rest',
    String.length front = 15%nat
    /\ front = (types.TxHeightKey +:+ tagKeySeparator
                +:+ BE4 (abci.Height (Demo.atHeight 3) mod 2 ^ 32)) +:+ tagKeySeparator
    /\ keyForHeight (Demo.atHeight 3) = front +:+ rest
    /\ keyForHeight (Demo.atHeight (3 + 2 ^ 32)) = front +:+ rest'.
Proof.
  apply (keyForHeight_low_32_bits (Demo.atHeight 3) (Demo.atHeight (3 + 2 ^ 32))).
  reflexivity.
Defined.

(** * Start keys and the keys of the index *)

Section StartKeys.

Lemma HasPrefix_append (p s : string) : GoStrings.HasPrefix (p +:+ s) p = true.
Proof. unfold GoStrings.HasPrefix. by rewrite stripPrefix_append. Qed.

Lemma stripPrefix_common (p x y : string) :
  GoStrings.stripPrefix (p +:+ x) (p +:+ y) = GoStrings.stripPrefix x y.
Proof.
  induction p as [|c p IH]; [reflexivity|].
  rewrite !append_cons. cbn [GoStrings.stripPrefix]. by rewrite Ascii.eqb_refl.
Qed.

Lemma keyForEvent_HasPrefix_tag (tag value : string) (r : abci.TxResult) (s : Z) :
  GoStrings.HasPrefix (keyForEvent tag value r s) (startKey [VString tag]) = true.
Proof.
  unfold startKey. cbn [fold_left fmtV]. rewrite append_empty_l.
  unfold keyForEvent. rewrite <- append_assoc. apply HasPrefix_append.
Qed.

(** The by-event key of an attribute starts with the start keys that
    [match_] builds for conditions on its composite key. *)
Lemma keyForEvent_HasPrefix_startKey (tag value : string) (r : abci.TxResult) (s : Z)
    (c : query.Condition) (h : Z) :
  query.CompositeKey c = tag ->
  fmtV (query.Operand c) = value ->
  h <= 0 \/ h = abci.Height r ->
  GoStrings.HasPrefix (keyForEvent tag value r s) (startKeyForCondition c h) = true
  /\ GoStrings.HasPrefix (keyForEvent tag value r s) (startKey [VString tag]) = true.
Proof.
  intros Hk Hv Hh. split.
  - unfold startKeyForCondition. rewrite Hk.
    destruct (Z.ltb_spec 0 h) as [Hpos|_].
    + destruct Hh as [Hneg | ->]; [lia|].
      unfold startKey. cbn [fold_left fmtV]. rewrite Hv, append_empty_l.
      rewrite keyForEvent_eq. unfold tagKeySeparator.
      match goal with
      | |- GoStrings.HasPrefix ?key ?p = true =>
          replace key with (p +:+ (GoStrconv.FormatInt (abci.Index r)
                                   +:+ (eventSeqSeparator +:+ GoStrconv.FormatInt s)))
            by (rewrite !append_assoc; reflexivity)
      end.
      apply HasPrefix_append.
    + unfold startKey. cbn [fold_left fmtV]. rewrite Hv, append_empty_l.
      rewrite keyForEvent_eq. unfold tagKeySeparator.
      match goal with
      | |- GoStrings.HasPrefix ?key ?p = true =>
          replace key with (p +:+ (GoStrconv.FormatInt (abci.Height r)
                                   +:+ String tagKeySeparatorByte
                                         (GoStrconv.FormatInt (abci.Index r)
                                          +:+ (eventSeqSeparator +:+ GoStrconv.FormatInt s))))
            by (rewrite !append_assoc; reflexivity)
      end.
      apply HasPrefix_append.
  - apply keyForEvent_HasPrefix_tag.
Qed.

(** X7. The prefix scans find the event index: a stored by-event entry of
    an attribute is among the entries that [match_] iterates over for an
    existence or substring condition on its composite key, and for an
    equality condition whose operand renders as the value, without a
    height or with the height of the result. *)
Theorem event_key_has_start_key (m : gmap string string) (tag value hash : string)
    (r : abci.TxResult) (s : Z) (c : query.Condition) (h : Z) :
  query.CompositeKey c = tag ->
  fmtV (query.Operand c) = value ->
  h <= 0 \/ h = abci.Height r ->
  m !! keyForEvent tag value r s = Some hash ->
  (keyForEvent tag value r s, hash) ∈ IteratePrefix m (startKeyForCondition c h)
  /\ (keyForEvent tag value r s, hash) ∈ IteratePrefix m (startKey [VString tag]).
Proof.
  intros Hk Hv Hh Hm.
  destruct (keyForEvent_HasPrefix_startKey tag value r s c h Hk Hv Hh) as [Heq Hex].
  rewrite !elem_of_IteratePrefix. by split.
Qed.

(** A formatted number starts with a digit or with the minus sign. *)
Lemma FormatInt_head (z : Z) :
  exists c s, GoStrconv.FormatInt z = String c s /\ (45 <= N_of_ascii c)%N.
Proof.
  unfold GoStrconv.FormatInt. destruct (z <? 0).
  - eexists _, _. split; [reflexivity|]. vm_compute. discriminate.
  - destruct (formatUint_head z) as (c & s & -> & [d Hd]).
    exists c, s. split; [reflexivity|].
    unfold GoStrconv.digitVal in Hd.
    destruct (Z.leb_spec 48 (Z.of_N (N_of_ascii c))); [lia | discriminate].
Qed.

(** X8. An equality condition on [tx.height] never reaches the height
    index: for every result with a height below 45 * 2 ^ 24 and every
    integer operand, the start key of the condition (with or without the
    height of the query) is no prefix of the by-height key, whose fifth
    field is the four-byte encoding and not the decimal height. The prefix
    scan of [match_] for that condition yields no by-height entry. *)
Theorem height_equality_misses_height_index (m : gmap string string)
    (r : abci.TxResult) (c : query.Condition) (z h : Z) (value : string) :
  query.CompositeKey c = types.TxHeightKey ->
  query.Operand c = VBigInt z ->
  0 <= abci.Height r < 45 * 2 ^ 24 ->
  GoStrings.HasPrefix (keyForHeight r) (startKeyForCondition c h) = false
  /\ (keyForHeight r, value) ∉ IteratePrefix m (startKeyForCondition c h).
Proof.
  intros Hk Ho Hh.
  assert (GoStrings.HasPrefix (keyForHeight r) (startKeyForCondition c h) = false) as Hpre.
  { destruct (FormatInt_head z) as (c0 & s0 & Hz & Hc0).
    assert (exists rest, startKeyForCondition c h
                         = (types.TxHeightKey +:+ tagKeySeparator) +:+ String c0 rest)
      as [rest ->].
    { unfold startKeyForCondition, startKey. rewrite Hk, Ho.
      destruct (0 <? h); cbn [fold_left fmtV]; rewrite Hz, append_empty_l;
        rewrite !append_assoc, !append_cons; by eexists. }
    assert (exists rest', keyForHeight r
                          = (types.TxHeightKey +:+ tagKeySeparator)
                            +:+ String (byte_of (Z.shiftr (abci.Height r) 24)) rest')
      as [rest' ->].
    { rewrite keyForHeight_eq. unfold BE4. eexists. reflexivity. }
    unfold GoStrings.HasPrefix. rewrite stripPrefix_common.
    cbn [GoStrings.stripPrefix].
    destruct (Ascii.eqb_spec c0 (byte_of (Z.shiftr (abci.Height r) 24))) as [->|]; [|done].
    rewrite N_of_byte_of, Z.shiftr_div_pow2 in Hc0 by lia.
    change (2 ^ 24) with 16777216 in *. exfalso.
    revert Hc0. Z.div_mod_to_equations. lia. }
  split; [exact Hpre|]. rewrite elem_of_IteratePrefix. intros [_ Hp]. congruence.
Qed.

End StartKeys.

Lemma event_key_has_start_key_witness :
  (keyForEvent "acc.owner" "Ivan" Demo.eventResult 2, Hash (abci.Tx Demo.eventResult))
    ∈ IteratePrefix (store (Demo.indexAll [Demo.eventResult]))
        (startKeyForCondition (Demo.condition "acc.owner" query.OpEqual (VString "Ivan")) 5)
  /\ (keyForEvent "acc.owner" "Ivan" Demo.eventResult 2, Hash (abci.Tx Demo.eventResult))
       ∈ IteratePrefix (store (Demo.indexAll [Demo.eventResult])) (startKey [VString "acc.owner"]).
Proof.
  apply (event_key_has_start_key (store (Demo.indexAll [Demo.eventResult]))
           "acc.owner" "Ivan" (Hash (abci.Tx Demo.eventResult)) Demo.eventResult 2
           (Demo.condition "acc.owner" query.OpEqual (VString "Ivan")) 5);
    [reflexivity | reflexivity | right; reflexivity | vm_compute; reflexivity].
Defined.

Lemma height_equality_misses_height_index_witness :
  GoStrings.HasPrefix (keyForHeight (Demo.atHeight 5))
    (startKeyForCondition (Demo.condition "tx.height" query.OpEqual (VBigInt 5)) 5)
  = false
  /\ (keyForHeight (Demo.atHeight 5), Hash (abci.Tx (Demo.atHeight 5)))
       ∉ IteratePrefix (store (Demo.indexAll Demo.tenResults))
           (startKeyForCondition (Demo.condition "tx.height" query.OpEqual (VBigInt 5)) 5).
Proof.
  apply (height_equality_misses_height_index (store (Demo.indexAll Demo.tenResults))
           (Demo.atHeight 5) (Demo.condition "tx.height" query.OpEqual (VBigInt 5)) 5 5);
    [reflexivity | reflexivity | vm_compute; split; congruence].
Defined.

(** * Further properties of the write path *)

Section WritePathMore.
Context `{Codec} `{!CodecLaws}.

(** X9. Index then Get: after [Index] of a result returns without error,
    [Get] of the hash of its transaction returns that result, unless the
    result failed and a successful result was already stored under the
    hash, in which case the indexer is unchanged and [Get] still returns
    the stored one. *)
Theorem Index_then_Get (txi : TxIndex) (r : abci.TxResult) :
  (Index txi r).2 = None ->
  Get (Index txi r).1 (Hash (abci.Tx r)) = inr (Some r)
  \/ (abci.Code (abci.Result r) <> 0
      /\ Index txi r = (txi, None)
      /\ exists old, Get txi (Hash (abci.Tx r)) = inr (Some old)
                     /\ abci.Code (abci.Result old) = 0).
Proof.
  intros Hsucc.
  assert (forall raw, Marshal r = inr raw ->
            Get (WriteSync {| store := store txi;
                              eventSeq := Nat.iter (length (abci.Events (abci.Result r)))
                                            nextSeq (eventSeq txi) |}
                   (resultEntries r (eventSeq txi) raw)) (Hash (abci.Tx r))
            = inr (Some r)) as Hcommit.
  { intros raw Hm.
    rewrite <- (app_nil_l (resultEntries _ _ _)), <- (app_nil_r (_ ++ resultEntries _ _ _)).
    apply Get_after_result; [done|]. intros kv Hin. by apply elem_of_nil in Hin. }
  destruct (abci.IsOK (abci.Result r)) eqn:Hok.
  - left. rewrite Index_ok in * by done. cbv zeta in *.
    destruct (Marshal r) as [err|raw] eqn:Hm; [discriminate|]. by apply Hcommit.
  - assert (abci.Code (abci.Result r) <> 0) as Hcode.
    { unfold abci.IsOK, abci.CodeTypeOK in Hok. by apply Z.eqb_neq. }
    revert Hsucc. unfold Index. rewrite Hok. cbn [negb].
    destruct (Get txi (Hash (abci.Tx r))) as [err|[old|]] eqn:Hget.
    + discriminate.
    + unfold abci.CodeTypeOK.
      destruct (Z.eqb_spec (abci.Code (abci.Result old)) 0) as [Hold|_].
      * intros _. right. split; [done|]. split; [done|]. by exists old.
      * rewrite indexEvents_spec. cbv zeta.
        destruct (Marshal r) as [err|raw] eqn:Hm; [discriminate|].
        intros _. left. cbn [fst].
        unfold BatchSet, NewBatch. rewrite app_nil_l, <- app_assoc.
        by apply Hcommit.
    + rewrite indexEvents_spec. cbv zeta.
      destruct (Marshal r) as [err|raw] eqn:Hm; [discriminate|].
      intros _. left. cbn [fst].
      unfold BatchSet, NewBatch. rewrite app_nil_l, <- app_assoc.
      by apply Hcommit.
Qed.

Lemma addBatchLoop_store (ops : list abci.TxResult) : forall txi b txi' res,
  addBatchLoop ops txi b = (txi', res) -> store txi' = store txi.
Proof.
  induction ops as [|r ops IH]; intros txi b txi' res Hloop.
  - simpl in Hloop. by injection Hloop as <- _.
  - rewrite addBatchLoop_cons in Hloop. cbv zeta in Hloop.
    destruct (Marshal r); [by injection Hloop as <- _|].
    by apply IH in Hloop.
Qed.



(** X11. Frame of the write path: [Index] and [AddBatch] change the store
    only at keys of the results they are given: a key that no operation
    writes (not its hash, its by-height key or one of its by-event keys)
    keeps its value, and so does what [Get] returns for it. *)
Theorem write_frame (txi : TxIndex) (key : string) :
  (forall r, ~ writesKey key r ->
     store (Index txi r).1 !! key = store txi !! key
     /\ Get (Index txi r).1 key = Get txi key)
  /\ (forall ops, (forall r, r ∈ ops -> ~ writesKey key r) ->
        store (AddBatch txi ops).1 !! key = store txi !! key
        /\ Get (AddBatch txi ops).1 key = Get txi key).
Proof.
  assert (forall t t' : TxIndex, store t' !! key = store t !! key ->
            Get t' key = Get t key) as Hget.
  { intros t t' Heq. unfold Get. by rewrite Heq. }
  split.
  - intros r Hr.
    assert (store (Index txi r).1 !! key = store txi !! key) as Hs; [|by split; [|apply Hget]].
    destruct (Index_cases txi r) as [[ret ->]|Hcommit]; [reflexivity|].
    rewrite Hcommit. cbv zeta.
    destruct (Marshal r) as [err|raw]; [reflexivity|].
    cbn [fst WriteSync store]. apply applyBatch_lookup_other.
    intros kv Hin Heq. apply Hr. rewrite <- Heq.
    by eapply resultEntries_writesKey.
  - intros ops Hops.
    assert (store (AddBatch txi ops).1 !! key = store txi !! key) as Hs;
      [|by split; [|apply Hget]].
    unfold AddBatch.
    destruct (addBatchLoop ops txi NewBatch) as [txi' [e|b]] eqn:Hloop; cbn [fst].
    + by rewrite (addBatchLoop_store _ _ _ _ _ Hloop).
    + cbn [WriteSync store]. rewrite (addBatchLoop_store _ _ _ _ _ Hloop).
      apply addBatchLoop_entries in Hloop as (B & -> & HB).
      apply applyBatch_lookup_other. intros kv Hin Heq.
      rewrite app_nil_l in Hin.
      destruct (HB kv Hin) as (r & Hr & Hw). apply (Hops r Hr). by rewrite <- Heq.
Qed.

(** The entries of a batch depend on the operations and on the counter
    only. *)
Lemma addBatchLoop_ok (ops : list abci.TxResult) : forall txi b txi' b',
  addBatchLoop ops txi b = (txi', inr b') ->
  exists B, b' = b ++ B
            /\ forall m b0,
                 addBatchLoop ops {| store := m; eventSeq := eventSeq txi |} b0
                 = ({| store := m; eventSeq := eventSeq txi' |}, inr (b0 ++ B)).
Proof.
  induction ops as [|r ops IH]; intros txi b txi' b' Hloop.
  - simpl in Hloop. injection Hloop as <- <-. exists []. split; [by rewrite app_nil_r|].
    intros m b0. simpl. by rewrite app_nil_r.
  - rewrite addBatchLoop_cons in Hloop. cbv zeta in Hloop.
    destruct (Marshal r) as [err|raw] eqn:Hm; [discriminate|].
    apply IH in Hloop as (B & -> & HB). cbn [eventSeq] in HB.
    exists (resultEntries r (eventSeq txi) raw ++ B). split; [by rewrite app_assoc|].
    intros m b0. rewrite addBatchLoop_cons. cbv zeta. rewrite Hm. cbn [store eventSeq].
    rewrite (HB m). by rewrite app_assoc.
Qed.

Lemma addBatchLoop_app (a b : list abci.TxResult) : forall txi b0,
  addBatchLoop (a ++ b) txi b0
  = match addBatchLoop a txi b0 with
    | (txi1, inl err) => (txi1, inl err)
    | (txi1, inr b1) => addBatchLoop b txi1 b1
    end.
Proof.
  induction a as [|r a IH]; intros txi b0; [reflexivity|].
  rewrite <- app_comm_cons, !addBatchLoop_cons. cbv zeta.
  destruct (Marshal r); [reflexivity | apply IH].
Qed.

(** A loop that ends without error, resumed from the indexer in which
    the entries collected so far are already written. *)
Lemma addBatchLoop_resume (b : list abci.TxResult) (txi1 txi2 : TxIndex) (b1 b2 : Batch) :
  addBatchLoop b txi1 b1 = (txi2, inr b2) ->
  AddBatch (WriteSync txi1 b1) b = (WriteSync txi2 b2, None).
Proof.
  intros Hb.
  pose proof (addBatchLoop_store _ _ _ _ _ Hb) as Hs2.
  apply addBatchLoop_ok in Hb as (B & -> & HB).
  unfold AddBatch. unfold WriteSync at 1. cbn [eventSeq store].
  rewrite (HB (applyBatch (store txi1) b1) NewBatch).
  unfold WriteSync, NewBatch. cbn [store eventSeq].
  rewrite app_nil_l, applyBatch_app. by rewrite Hs2.
Qed.

(** X12. A batch that succeeds is the composition of its parts: [AddBatch]
    of [a ++ b], when it returns no error, leaves the indexer that
    [AddBatch] of [a] followed by [AddBatch] of [b] leaves, and both of
    these succeed. *)
Theorem AddBatch_app (txi : TxIndex) (a b : list abci.TxResult) :
  (AddBatch txi (a ++ b)).2 = None ->
  (AddBatch txi a).2 = None
  /\ AddBatch txi (a ++ b) = AddBatch (AddBatch txi a).1 b.
Proof.
  assert (AddBatch txi (a ++ b)
          = match addBatchLoop a txi NewBatch with
            | (txi1, inl err) => (txi1, Some err)
            | (txi1, inr b1) =>
                match addBatchLoop b txi1 b1 with
                | (txi2, inl err) => (txi2, Some err)
                | (txi2, inr b2) => (WriteSync txi2 b2, None)
                end
            end) as ->.
  { unfold AddBatch. rewrite addBatchLoop_app.
    by destruct (addBatchLoop a txi NewBatch) as [txi1 [err|b1]]. }
  unfold AddBatch at 1 3.
  destruct (addBatchLoop a txi NewBatch) as [txi1 [err|b1]] eqn:Ha; [discriminate|].
  destruct (addBatchLoop b txi1 b1) as [txi2 [err|b2]] eqn:Hb; [discriminate|].
  intros _. split; [reflexivity|]. cbn [fst].
  symmetry. by apply addBatchLoop_resume.
Qed.

(** [Index] of a successful result is [AddBatch] of that result alone. *)
Lemma Index_AddBatch_one (txi : TxIndex) (r : abci.TxResult) :
  abci.IsOK (abci.Result r) = true -> Index txi r = AddBatch txi [r].
Proof.
  intros Hok. rewrite Index_ok by done. unfold AddBatch.
  rewrite addBatchLoop_cons. cbv zeta.
  destruct (Marshal r); [reflexivity|]. cbn [addBatchLoop].
  unfold NewBatch. by rewrite app_nil_l.
Qed.

(** X13. For successful results a batch is the same as one call of [Index]
    per result: when every operation has code 0 and [AddBatch] returns no
    error, it leaves the indexer that indexing the operations one by one,
    in order, leaves. *)
Theorem AddBatch_sequential (ops : list abci.TxResult) : forall txi,
  Forall (fun r => abci.IsOK (abci.Result r) = true) ops ->
  (AddBatch txi ops).2 = None ->
  (AddBatch txi ops).1 = fold_left (fun t r => (Index t r).1) ops txi.
Proof.
  induction ops as [|r ops IH]; intros txi Hok Hsucc.
  - unfold AddBatch. simpl. unfold WriteSync, NewBatch. simpl. by destruct txi.
  - apply Forall_cons in Hok as [Hr Hok]. cbn [fold_left].
    rewrite (Index_AddBatch_one txi r Hr).
    assert (AddBatch txi (r :: ops) = AddBatch (AddBatch txi [r]).1 ops) as Heq.
    { revert Hsucc. unfold AddBatch at 1 2 4. rewrite !addBatchLoop_cons. cbv zeta.
      destruct (Marshal r) as [err|raw]; [discriminate|]. cbn [addBatchLoop fst].
      match goal with
      | |- context [addBatchLoop ops ?t ?b0] =>
          destruct (addBatchLoop ops t b0) as [txi2 [err|b2]] eqn:Hb; [discriminate|]
      end.
      intros _. symmetry. by apply addBatchLoop_resume. }
    rewrite Heq in *. by apply IH.
Qed.

End WritePathMore.

Lemma Index_then_Get_witness :
  Get (Index (NewTxIndex ∅) Demo.failedResult).1 (Hash (abci.Tx Demo.failedResult))
  = inr (Some Demo.failedResult)
  \/ (abci.Code (abci.Result Demo.failedResult) <> 0
      /\ Index (NewTxIndex ∅) Demo.failedResult = (NewTxIndex ∅, None)
      /\ exists old, Get (NewTxIndex ∅) (Hash (abci.Tx Demo.failedResult)) = inr (Some old)
                     /\ abci.Code (abci.Result old) = 0).
Proof.
  apply (Index_then_Get (NewTxIndex ∅) Demo.failedResult). vm_compute. reflexivity.
Defined.

Lemma write_frame_witness :
  store (Index Demo.storedOk Demo.eventResult).1 !! Hash (abci.Tx Demo.okResult)
  = store Demo.storedOk !! Hash (abci.Tx Demo.okResult)
  /\ Get (Index Demo.storedOk Demo.eventResult).1 (Hash (abci.Tx Demo.okResult))
     = Get Demo.storedOk (Hash (abci.Tx Demo.okResult)).
Proof.
  destruct (write_frame Demo.storedOk (Hash (abci.Tx Demo.okResult))) as [Hindex _].
  apply (Hindex Demo.eventResult).
  intros [Hw|[Hw|(tag & value & seq & Hw)]].
  - vm_compute in Hw. discriminate.
  - vm_compute in Hw. discriminate.
  - pose proof (isTagKey_keyForEvent tag value Demo.eventResult seq) as Htag.
    rewrite Hw in Htag. vm_compute in Htag. discriminate.
Defined.

Lemma AddBatch_sequential_witness :
  (AddBatch (NewTxIndex ∅) Demo.tenResults).1
  = fold_left (fun t r => (Index t r).1) Demo.tenResults (NewTxIndex ∅).
Proof.
  apply (AddBatch_sequential Demo.tenResults (NewTxIndex ∅)).
  - repeat constructor.
  - vm_compute. reflexivity.
Defined.


Lemma AddBatch_app_witness :
  (AddBatch (NewTxIndex ∅) [Demo.okResult]).2 = None
  /\ AddBatch (NewTxIndex ∅) ([Demo.okResult] ++ [Demo.eventResult])
     = AddBatch (AddBatch (NewTxIndex ∅) [Demo.okResult]).1 [Demo.eventResult].
Proof.
  apply (AddBatch_app (NewTxIndex ∅) [Demo.okResult] [Demo.eventResult]).
  vm_compute. reflexivity.
Defined.

(** * Further properties of the query path *)

Section QueryPathMore.
Context `{Codec} `{Planner}.

(** X14. [lookForHash] reports no hash exactly when no condition of the
    query is on [tx.hash]: it then returns [ok = false] with no error, and
    whenever it returns [ok = false] no condition has that key. *)
Theorem lookForHash_not_found_iff (conditions : list query.Condition) :
  (exists hash err, lookForHash conditions = Ret (hash, false, err))
  <-> Forall (fun c => query.CompositeKey c <> types.TxHashKey) conditions.
Proof.
  split.
  - intros (hash & err & Hlook).
    induction conditions as [|c conditions IH]; [constructor|].
    cbn [lookForHash] in Hlook.
    destruct (String.eqb_spec (query.CompositeKey c) types.TxHashKey) as [Heq|Hne].
    + destruct (assertString (query.Operand c)) as [s|]; [|discriminate].
      cbn [bind outcome_bind obind] in Hlook.
      destruct (GoHex.DecodeString s). discriminate.
    + constructor; [done | by apply IH].
  - intros Hall. exists EmptyString, None.
    induction Hall as [|c conditions Hc _ IH]; [reflexivity|].
    cbn [lookForHash].
    by destruct (String.eqb_spec (query.CompositeKey c) types.TxHashKey).
Qed.

Lemma Operator_eqb_eq (a b : query.Operator) : query.Operator_eqb a b = true <-> a = b.
Proof. destruct a, b; simpl; split; congruence. Qed.



(** X16. [checkBounds] with bounds that are missing or big integers: it
    returns [true] exactly when the value is at least the lower bound and
    at most the upper bound, a missing bound being no constraint. *)
Theorem checkBounds_inclusive (ranges : indexer.QueryRange) (v : Z) :
  (indexer.LowerBoundValue ranges = VNil
   \/ exists l, indexer.LowerBoundValue ranges = VBigInt l) ->
  (indexer.UpperBoundValue ranges = VNil
   \/ exists u, indexer.UpperBoundValue ranges = VBigInt u) ->
  exists include,
    checkBounds ranges v = Ret include
    /\ (include = true
        <-> (forall l, indexer.LowerBoundValue ranges = VBigInt l -> l <= v)
            /\ (forall u, indexer.UpperBoundValue ranges = VBigInt u -> v <= u)).
Proof.
  intros Hl Hu. unfold checkBounds.
  destruct Hl as [->|[l ->]], Hu as [->|[u ->]];
    cbn [bind outcome_bind obind assertBigInt];
    repeat match goal with
           | |- context [?a <? ?b] => destruct (Z.ltb_spec a b)
           end;
    eexists; (split; [reflexivity|]); split;
      try discriminate; try (intros _; split; intros ? [= <-]; lia);
      try (intros [Hlo Hup]; try specialize (Hlo _ eq_refl);
           try specialize (Hup _ eq_refl); lia).
Qed.

Lemma intersect_loop (tmpHashes : gmap string string) (l : list (string * string)) :
  forall st ctx n,
    exists n',
      forRange (intersectBody tmpHashes) l st ctx n
      = Ret (fold_left (fun st kv => if decide (tmpHashes !! kv.1 = Some kv.2)
                                     then st else delete kv.1 st) l st, n').
Proof.
  induction l as [|kv l IH]; intros st ctx n.
  - exists n. reflexivity.
  - cbn [forRange fold_left]. unfold bind at 1. unfold Scan_bind.
    unfold intersectBody at 1.
    destruct (tmpHashes !! kv.1) as [tmpHash|] eqn:Htmp.
    + destruct (String.eqb_spec tmpHash kv.2) as [->|Hne].
      * unfold ret at 1. cbn [fst snd]. rewrite decide_True by done. apply IH.
      * unfold bind, Scan_bind. rewrite selectDone_Normal. unfold ret at 1.
        cbn [fst snd]. rewrite decide_False by congruence. apply IH.
    + unfold bind, Scan_bind. rewrite selectDone_Normal. unfold ret at 1.
      cbn [fst snd]. rewrite decide_False by congruence. apply IH.
Qed.

Lemma intersect_fold_lookup (tmpHashes : gmap string string)
    (l : list (string * string)) : forall (st : gmap string string) k v,
  fold_left (fun st kv => if decide (tmpHashes !! kv.1 = Some kv.2)
                          then st else delete kv.1 st) l st !! k = Some v
  <-> st !! k = Some v
      /\ forall kv, kv ∈ l -> kv.1 = k -> tmpHashes !! k = Some kv.2.
Proof.
  induction l as [|a l IH]; intros st k v; cbn [fold_left].
  - split; [intros Hst; split; [done|] | by intros [Hst _]].
    intros kv Hin. by apply elem_of_nil in Hin.
  - rewrite IH. destruct (decide (tmpHashes !! a.1 = Some a.2)) as [Hkeep|Hdrop].
    + split; intros [Hst Hall]; (split; [done|]).
      * intros kv Hin Hk. apply elem_of_cons in Hin as [->|Hin]; [by rewrite <- Hk | by apply Hall].
      * intros kv Hin. apply Hall. by right.
    + rewrite lookup_delete_Some. split.
      * intros [[Hne Hst] Hall]. split; [done|].
        intros kv Hin Hk. apply elem_of_cons in Hin as [->|Hin]; [done | by apply Hall].
      * intros [Hst Hall]. split; [split; [|done]|].
        -- intros Heq. apply Hdrop. rewrite Heq. apply (Hall a); [by left | done].
        -- intros kv Hin. apply Hall. by right.
Qed.

(** What [mergeHashes] returns: on the first run the set of the condition,
    on a later run the empty set when the condition matched nothing and
    otherwise the intersection. *)
Lemma mergeHashes_ret (tmpHashes filteredHashes : gmap string string)
    (firstRun : bool) (ctx : Context) (n : nat) :
  exists n',
    mergeHashes tmpHashes filteredHashes firstRun ctx n
    = Ret (if firstRun then tmpHashes
           else if (size tmpHashes =? 0)%nat then ∅
                else intersectHashes tmpHashes filteredHashes, n').
Proof.
  unfold mergeHashes.
  destruct (Nat.eqb_spec (size tmpHashes) 0) as [Hempty|Hne]; cbn [orb].
  - exists n. unfold ret. apply map_size_empty_inv in Hempty. subst.
    by destruct firstRun.
  - destruct firstRun; [by exists n|].
    destruct (intersect_loop tmpHashes (map_to_list filteredHashes) filteredHashes ctx n)
      as [n' ->].
    exists n'. f_equal. f_equal. apply map_eq. intros k. apply option_eq. intros v.
    rewrite intersect_fold_lookup. unfold intersectHashes.
    rewrite map_lookup_filter_Some. cbn [fst snd]. split.
    + intros [Hst Hall]. split; [done|].
      apply (Hall (k, v)); [by apply elem_of_map_to_list | done].
    + intros [Hst Htmp]. split; [done|]. intros [k' v'] Hin Hk. cbn [fst snd] in *.
      subst k'. apply elem_of_map_to_list in Hin. congruence.
Qed.

(** X17. How a condition is merged into the filter set: the merge at the end
    of [match_] and [matchRange] never panics; on the first run it returns
    the set of the condition, and on a later run exactly the entries that
    the filter set and the set of the condition both hold, under the same
    key and with the same bytes (so nothing, when the condition matched
    nothing). *)
Theorem mergeHashes_intersection (tmpHashes filteredHashes : gmap string string)
    (firstRun : bool) (ctx : Context) (n : nat) :
  exists m n',
    mergeHashes tmpHashes filteredHashes firstRun ctx n = Ret (m, n')
    /\ forall k v,
         m !! k = Some v
         <-> tmpHashes !! k = Some v
             /\ (firstRun = false -> filteredHashes !! k = Some v).
Proof.
  destruct (mergeHashes_ret tmpHashes filteredHashes firstRun ctx n) as [n' ->].
  eexists _, n'. split; [reflexivity|]. intros k v.
  destruct firstRun.
  { split; [intros Hm; split; [done | discriminate] | by intros [Hm _]]. }
  destruct (Nat.eqb_spec (size tmpHashes) 0) as [Hempty|Hne].
  - apply map_size_empty_inv in Hempty. subst. rewrite !lookup_empty.
    split; [done | by intros [Hm _]].
  - unfold intersectHashes. rewrite map_lookup_filter_Some. cbn [fst snd].
    split.
    + intros [Hf Ht]. split; [done | by intros _].
    + intros [Ht Hf]. split; [by apply Hf | done].
Qed.



End QueryPathMore.


Lemma checkBounds_inclusive_witness :
  exists include,
    checkBounds Demo.wideRange 7 = Ret include
    /\ (include = true
        <-> (forall l, indexer.LowerBoundValue Demo.wideRange = VBigInt l -> l <= 7)
            /\ (forall u, indexer.UpperBoundValue Demo.wideRange = VBigInt u -> 7 <= u)).
Proof.
  apply (checkBounds_inclusive Demo.wideRange 7); right; eexists; reflexivity.
Defined.


(** * An indexed attribute is found *)

Section EqualitySearch.
Context `{Codec} `{Planner}.

(** The scan of [match_] for an equality, without match-events: every
    entry under the prefix puts its value in the set, and every step polls
    the context once. *)
Lemma matchScan_no_events (heightInfo : HeightInfo) (l : list (string * string)) :
  forall tmpHashes ctx n,
    forRange (matchScanBody false heightInfo) l tmpHashes ctx n
    = Ret (fold_left (fun t kv => <[kv.2 := kv.2]> t) l tmpHashes, (n + length l)%nat).
Proof.
  induction l as [|kv l IH]; intros tmpHashes ctx n.
  - cbn [forRange fold_left length]. unfold ret. by rewrite Nat.add_0_r.
  - cbn [forRange fold_left length]. unfold matchScanBody at 1.
    unfold bind, Scan_bind, lift, setTmpHashes. cbn [negb].
    rewrite selectDone_Normal. unfold ret at 1. cbn [fst snd].
    fold (@bind Scan _). rewrite IH. f_equal. f_equal. lia.
Qed.

Lemma fold_insert_value (l : list (string * string)) :
  forall (t : gmap string string) (h : string),
    (exists k, (k, h) ∈ l) \/ t !! h = Some h ->
    fold_left (fun t kv => <[kv.2 := kv.2]> t) l t !! h = Some h.
Proof.
  induction l as [|kv l IH]; intros t h Hin; cbn [fold_left].
  - destruct Hin as [[k Hk]|Ht]; [by apply elem_of_nil in Hk | done].
  - apply IH. destruct Hin as [[k Hk]|Ht].
    + apply elem_of_cons in Hk as [<-|Hk]; [right; apply lookup_insert_eq | left; by exists k].
    + right. destruct (decide (kv.2 = h)) as [->|Hne];
        [apply lookup_insert_eq | by rewrite lookup_insert_ne].
Qed.

(** The loop of [Search] that fetches the results never panics; when it
    ends without an error, every hash of the list has been fetched and the
    result of its [Get] is among the results. *)
Lemma fetch_loop (txi : TxIndex) (l : list (string * string)) : forall st ctx n,
  (forall h, h ∈ resultMap st ->
             exists res, Get txi h = inr res /\ res ∈ results st) ->
  exists st' n',
    forRange (searchFetchBody txi) l st ctx n = Ret (st', n')
    /\ resultMap st ⊆ resultMap st'
    /\ (fetchError st' = None ->
        (forall h, h ∈ resultMap st' ->
                   exists res, Get txi h = inr res /\ res ∈ results st')
        /\ (forall kv, kv ∈ l -> kv.2 ∈ resultMap st')).
Proof.
  induction l as [|kv l IH]; intros st ctx n Hinv.
  - exists st, n. split; [reflexivity|]. split; [done|]. intros _. split; [done|].
    intros kv Hin. by apply elem_of_nil in Hin.
  - cbn [forRange]. unfold bind at 1. unfold Scan_bind. unfold searchFetchBody at 1.
    destruct (decide (kv.2 ∈ resultMap st)) as [Hseen|Hnew].
    + rewrite bool_decide_eq_true_2 by done.
      unfold bind, Scan_bind. rewrite selectDone_Normal. unfold ret at 1. cbn [fst snd].
      fold (@bind Scan _).
      destruct (IH st ctx (S n) Hinv) as (st' & n' & -> & Hsub & Hpost).
      exists st', n'. split; [reflexivity|]. split; [done|].
      intros Herr. pose proof (Hpost Herr) as [Hinv' Hall]. split; [done|].
      intros kv' Hin. apply elem_of_cons in Hin as [->|Hin]; [by apply Hsub | by apply Hall].
    + rewrite bool_decide_eq_false_2 by done.
      destruct (Get txi kv.2) as [err|res] eqn:Hget.
      * unfold ret. cbn [fst snd]. eexists _, _. split; [reflexivity|].
        cbn [resultMap fetchError].
        split; [intros x Hx; apply elem_of_union; by right | discriminate].
      * unfold bind, Scan_bind. rewrite selectDone_Normal. unfold ret at 1. cbn [fst snd].
        fold (@bind Scan _).
        match goal with
        | |- context [forRange _ l ?st1 ctx (S n)] =>
            destruct (IH st1 ctx (S n)) as (st' & n' & -> & Hsub & Hpost)
        end.
        { cbn [resultMap results]. intros h Hh.
          apply elem_of_union in Hh as [Hh|Hh].
          - apply elem_of_singleton in Hh as ->. exists res. split; [done|].
            apply elem_of_app. right. by left.
          - destruct (Hinv h Hh) as (res' & Hg & Hin). exists res'. split; [done|].
            apply elem_of_app. by left. }
        cbn [resultMap] in Hsub.
        exists st', n'. split; [reflexivity|].
        split; [intros x Hx; apply Hsub, elem_of_union; by right|].
        intros Herr. pose proof (Hpost Herr) as [Hinv' Hall]. split; [done|].
        intros kv' Hin. apply elem_of_cons in Hin as [->|Hin]; [|by apply Hall].
        apply Hsub, elem_of_union. left. by apply elem_of_singleton.
Qed.

(** The step of [Search] for a first condition that is an equality: the
    filter set becomes the set of the values under the start key. *)
Lemma searchConditionBody_first_equality (txi : TxIndex) (heightInfo : HeightInfo)
    (c : query.Condition) (ctx : Context) (k : nat) :
  query.Op c = query.OpEqual ->
  intInSlice 0 [] = false ->
  exists sig k',
    searchConditionBody txi false heightInfo [] (Z.of_nat 0, c)
      {| filteredHashes := ∅; hashesInitialized := false |} ctx k
    = Ret ((sig,
            {| filteredHashes :=
                 fold_left (fun t kv => <[kv.2 := kv.2]> t)
                   (IteratePrefix (store txi)
                      (startKeyForCondition c (height heightInfo))) ∅;
               hashesInitialized := true |}), k').
Proof.
  intros Hop Hskip. unfold searchConditionBody. change (Z.of_nat 0) with 0.
  cbv beta iota. rewrite Hskip.
  cbn [hashesInitialized negb filteredHashes].
  unfold bind at 1. unfold Scan_bind.
  unfold match_. cbn [negb andb]. rewrite Hop.
  unfold bind at 1. unfold Scan_bind. rewrite matchScan_no_events.
  match goal with
  | |- context [mergeHashes ?tmp ?f true ctx ?k1] =>
      destruct (mergeHashes_ret tmp f true ctx k1) as [k2 ->]
  end.
  match goal with
  | |- context [if ?b then _ else _] => destruct b
  end; unfold ret; eexists _, _; reflexivity.
Qed.

(** The last loop of [Search], for a filter set that holds the hash of
    [r]: unless a [Get] fails, [r] is among the results. *)
Lemma Search_fetch_found (txi : TxIndex) (r : abci.TxResult) (hash : string)
    (found : gmap string string) (ctx : Context) (k0 : nat) :
  found !! hash = Some hash ->
  Get txi hash = inr (Some r) ->
  exists rs err n',
    bind (forRange (searchFetchBody txi) (map_to_list found)
            {| results := []; resultMap := ∅; fetchError := None |})
      (fun fs : fetchState =>
         match fetchError fs with
         | Some e => ret ([], Some e)
         | None => ret (results fs, None)
         end) ctx k0
    = Ret ((rs, err), n')
    /\ (err = None -> Some r ∈ rs).
Proof.
  intros Hfound Hget.
  destruct (fetch_loop txi (map_to_list found)
              {| results := []; resultMap := ∅; fetchError := None |} ctx k0)
    as (fs & n2 & Hloop & _ & Hpost).
  { cbn [resultMap]. intros h Hh. by apply elem_of_empty in Hh. }
  unfold bind, Scan_bind. rewrite Hloop.
  destruct (fetchError fs) as [e|] eqn:Herr; unfold ret; eexists _, _, _;
    (split; [reflexivity|]); [discriminate|]. intros _.
  destruct (Hpost eq_refl) as [Hinv Hall].
  destruct (Hinv hash) as (res & Hres & Hin).
  - apply (Hall (hash, hash)). by apply elem_of_map_to_list.
  - congruence.
Qed.

(** The step of [Search] for a first condition that is an existence: the
    filter set becomes the set of the values under the composite key. *)
Lemma searchConditionBody_first_exists (txi : TxIndex) (heightInfo : HeightInfo)
    (c : query.Condition) (ctx : Context) (k : nat) :
  query.Op c = query.OpExists ->
  intInSlice 0 [] = false ->
  exists sig k',
    searchConditionBody txi false heightInfo [] (Z.of_nat 0, c)
      {| filteredHashes := ∅; hashesInitialized := false |} ctx k
    = Ret ((sig,
            {| filteredHashes :=
                 fold_left (fun t kv => <[kv.2 := kv.2]> t)
                   (IteratePrefix (store txi)
                      (startKey [VString (query.CompositeKey c)])) ∅;
               hashesInitialized := true |}), k').
Proof.
  intros Hop Hskip. unfold searchConditionBody. change (Z.of_nat 0) with 0.
  cbv beta iota. rewrite Hskip.
  cbn [hashesInitialized negb filteredHashes].
  unfold bind at 1. unfold Scan_bind.
  unfold match_. cbn [negb andb]. rewrite Hop.
  unfold bind at 1. unfold Scan_bind. rewrite matchScan_no_events.
  match goal with
  | |- context [mergeHashes ?tmp ?f true ctx ?k1] =>
      destruct (mergeHashes_ret tmp f true ctx k1) as [k2 ->]
  end.
  match goal with
  | |- context [if ?b then _ else _] => destruct b
  end; unfold ret; eexists _, _; reflexivity.
Qed.

(** [Search] for a single equality condition, whatever the type of its
    operand: the hash behind a by-event key of the composite key and of
    the operand as [match_] renders it is fetched. *)
Lemma Search_equality_found (txi : TxIndex) (r : abci.TxResult)
    (c : query.Condition) (hash : string) (s : Z) (ctx : Context) (n : nat) :
  query.Op c = query.OpEqual ->
  query.CompositeKey c <> types.TxHashKey ->
  query.CompositeKey c <> types.TxHeightKey ->
  dedupMatchEvents [c] = Ret ([c], false) ->
  (exists indexes heightRange,
      LookForRangesWithHeight [c] = Ret ([], indexes, heightRange)) ->
  intInSlice 0 [] = false ->
  store txi !! keyForEvent (query.CompositeKey c) (fmtV (query.Operand c)) r s
    = Some hash ->
  Get txi hash = inr (Some r) ->
  ctx n = false ->
  exists rs err n',
    Search txi {| query.Conditions := inr [c] |} ctx n = Ret ((rs, err), n')
    /\ (err = None -> Some r ∈ rs).
Proof.
  intros Hop Hhash Hheight Hdedup (indexes & hr & Hranges) Hskip Hstore Hget Hctx.
  unfold Search. unfold bind at 1. unfold Scan_bind. unfold pollDone. rewrite Hctx.
  cbn [query.Conditions lookForHash].
  destruct (String.eqb_spec (query.CompositeKey c) types.TxHashKey) as [|_]; [done|].
  unfold bind at 1. unfold Scan_bind. unfold lift at 1. cbv beta iota.
  unfold bind at 1. unfold Scan_bind. rewrite Hdedup. unfold lift at 1. cbv beta iota.
  unfold bind at 1. unfold Scan_bind. unfold lift at 1.
  unfold lookForHeight. cbn [lookForHeightFrom].
  destruct (String.eqb_spec (query.CompositeKey c) types.TxHeightKey) as [|_]; [done|].
  cbn [andb bind outcome_bind obind]. cbv beta iota.
  unfold bind at 1. unfold Scan_bind. rewrite Hranges. unfold lift at 1. cbv beta iota.
  cbn [length Nat.ltb Nat.leb andb negb onlyHeightEq zeroHeightInfo].
  cbn [forRange]. unfold bind at 1. unfold Scan_bind. unfold ret at 1. cbv beta iota.
  unfold indexed. cbn [imap]. cbn [forRange].
  unfold bind at 1. unfold Scan_bind. unfold bind at 1. unfold Scan_bind.
  match goal with
  | |- context [searchConditionBody txi false ?hi [] (Z.of_nat 0, c) ?st ctx ?k] =>
      destruct (searchConditionBody_first_equality txi hi c ctx k Hop Hskip)
        as (sig & k' & ->)
  end.
  cbn [height fst snd filteredHashes].
  set (found := fold_left (fun t kv => <[kv.2 := kv.2]> t)
                  (IteratePrefix (store txi) (startKeyForCondition c 0)) ∅).
  assert (found !! hash = Some hash) as Hfound.
  { subst found. apply fold_insert_value. left.
    exists (keyForEvent (query.CompositeKey c) (fmtV (query.Operand c)) r s).
    apply elem_of_IteratePrefix. split; [done|].
    eapply (keyForEvent_HasPrefix_startKey _ _ r s c 0);
      [reflexivity | reflexivity | left; lia]. }
  destruct sig; unfold ret; cbn [fst snd filteredHashes];
    by apply (Search_fetch_found txi r hash).
Qed.

(** X19. An equality search finds what the event index holds: for a query
    with the single condition [tag = value] (a string operand, [tag] being
    neither [tx.hash] nor [tx.height]) that the planner leaves as it is,
    with no range and no match-events, if the store holds a by-event key
    of [tag] and [value] that points to a hash under which [Get] returns
    [r], then [Search], entered with a live context, does not panic and,
    unless it returns an error, returns a list that contains [r]. *)
Theorem equality_search_finds (txi : TxIndex) (r : abci.TxResult)
    (tag value hash : string) (s : Z) (ctx : Context) (n : nat) :
  let c := {| query.CompositeKey := tag; query.Op := query.OpEqual;
              query.Operand := VString value |} in
  tag <> types.TxHashKey ->
  tag <> types.TxHeightKey ->
  dedupMatchEvents [c] = Ret ([c], false) ->
  (exists indexes heightRange,
      LookForRangesWithHeight [c] = Ret ([], indexes, heightRange)) ->
  intInSlice 0 [] = false ->
  store txi !! keyForEvent tag value r s = Some hash ->
  Get txi hash = inr (Some r) ->
  ctx n = false ->
  exists rs err n',
    Search txi {| query.Conditions := inr [c] |} ctx n = Ret ((rs, err), n')
    /\ (err = None -> Some r ∈ rs).
Proof.
  intros c Hhash Hheight Hdedup Hranges Hskip Hstore Hget Hctx.
  by apply (Search_equality_found txi r c hash s ctx n).
Qed.

(** X20. An existence search finds every entry under the composite key: for
    a query with the single condition [tag EXISTS] ([tag] not being
    [tx.hash]) that the planner leaves as it is, with no range and no
    match-events, if the store holds a key that starts with [tag/] and
    points to a hash under which [Get] returns [r], then [Search], entered
    with a live context, does not panic and, unless it returns an error,
    returns a list that contains [r]. *)
Theorem existence_search_finds (txi : TxIndex) (r : abci.TxResult)
    (tag key hash : string) (ctx : Context) (n : nat) :
  let c := {| query.CompositeKey := tag; query.Op := query.OpExists;
              query.Operand := VNil |} in
  tag <> types.TxHashKey ->
  dedupMatchEvents [c] = Ret ([c], false) ->
  (exists indexes heightRange,
      LookForRangesWithHeight [c] = Ret ([], indexes, heightRange)) ->
  intInSlice 0 [] = false ->
  store txi !! key = Some hash ->
  GoStrings.HasPrefix key (tag +:+ tagKeySeparator) = true ->
  Get txi hash = inr (Some r) ->
  ctx n = false ->
  exists rs err n',
    Search txi {| query.Conditions := inr [c] |} ctx n = Ret ((rs, err), n')
    /\ (err = None -> Some r ∈ rs).
Proof.
  intros c Hhash Hdedup (indexes & hr & Hranges) Hskip Hstore Hprefix Hget Hctx.
  unfold Search. unfold bind at 1. unfold Scan_bind. unfold pollDone. rewrite Hctx.
  cbn [query.Conditions lookForHash query.CompositeKey c].
  destruct (String.eqb_spec tag types.TxHashKey) as [|_]; [done|].
  unfold bind at 1. unfold Scan_bind. unfold lift at 1. cbv beta iota.
  unfold bind at 1. unfold Scan_bind. rewrite Hdedup. unfold lift at 1. cbv beta iota.
  unfold bind at 1. unfold Scan_bind. unfold lift at 1.
  unfold lookForHeight. cbn [lookForHeightFrom query.CompositeKey query.Op c].
  cbn [query.Operator_eqb]. rewrite andb_false_r.
  cbn [bind outcome_bind obind]. cbv beta iota.
  unfold bind at 1. unfold Scan_bind. rewrite Hranges. unfold lift at 1. cbv beta iota.
  cbn [length Nat.ltb Nat.leb andb negb onlyHeightEq zeroHeightInfo].
  cbn [forRange]. unfold bind at 1. unfold Scan_bind. unfold ret at 1. cbv beta iota.
  unfold indexed. cbn [imap]. cbn [forRange].
  unfold bind at 1. unfold Scan_bind. unfold bind at 1. unfold Scan_bind.
  match goal with
  | |- context [searchConditionBody txi false ?hi [] (Z.of_nat 0, c) ?st ctx ?k] =>
      destruct (searchConditionBody_first_exists txi hi c ctx k eq_refl Hskip)
        as (sig & k' & ->)
  end.
  cbn [fst snd filteredHashes query.CompositeKey c].
  set (found := fold_left (fun t kv => <[kv.2 := kv.2]> t)
                  (IteratePrefix (store txi) (startKey [VString tag])) ∅).
  assert (found !! hash = Some hash) as Hfound.
  { subst found. apply fold_insert_value. left. exists key.
    apply elem_of_IteratePrefix. split; [done|]. exact Hprefix. }
  destruct sig; unfold ret; cbn [fst snd filteredHashes];
    by apply (Search_fetch_found txi r hash).
Qed.

End EqualitySearch.

Section IndexThenSearch.
Context `{Codec} `{!CodecLaws} `{Planner}.

(** A key that a batch writes with one value only ends up with that
    value. *)
Lemma applyBatch_lookup_const (b : Batch) : forall (m : gmap string string) k v,
  (k, v) ∈ b ->
  (forall kv, kv ∈ b -> kv.1 = k -> kv.2 = v) ->
  applyBatch m b !! k = Some v.
Proof.
  induction b as [|a b IH]; intros m k v Hin Hall; [by apply elem_of_nil in Hin|].
  cbn [applyBatch fold_left].
  destruct (decide (k ∈ b.*1)) as [Hlater|Hnot].
  - apply list_elem_of_fmap in Hlater as ([k' v'] & Hk & Hkv). cbn [fst] in Hk. subst k'.
    apply IH.
    + assert (v' = v) as <-; [|done]. apply (Hall (k, v')); [by right | done].
    + intros kv Hkv' Hk. apply Hall; [by right | done].
  - change (fold_left _ b ?m0) with (applyBatch m0 b).
    rewrite applyBatch_lookup_other.
    + apply elem_of_cons in Hin as [<-|Hin]; [apply lookup_insert_eq|].
      exfalso. apply Hnot. apply list_elem_of_fmap. by exists (k, v).
    + intros kv Hkv Hk. apply Hnot. apply list_elem_of_fmap. by exists kv.
Qed.

Lemma eventEntry_in_eventEntries (r : abci.TxResult) (hash : string) (seq0 : Z)
    (events : list abci.Event) (pos : nat) (event : abci.Event)
    (attr : abci.EventAttribute) :
  events !! pos = Some event ->
  attr ∈ indexedAttributes event ->
  eventEntry r hash (Nat.iter (S pos) nextSeq seq0) event attr
    ∈ eventEntries r hash seq0 events.
Proof.
  intros Hev Hattr. unfold eventEntries. apply list_elem_of_In, in_concat.
  eexists. split; apply list_elem_of_In.
  - apply (elem_of_lookup_imap_2 _ events event pos Hev).
  - cbv beta. by apply list_elem_of_fmap_2.
Qed.

(** X21. What is indexed is found: after [Index] of a successful result
    returns without error, for every attribute of the result with a
    non-empty key and [indexed = true], in an event with a non-empty type,
    the search for [type.key = value] (the composite key being neither
    [tx.hash] nor [tx.height], the planner leaving the condition as it is,
    with no range and no match-events, and the hash not being itself a
    by-event key) does not panic and, unless it returns an error, returns
    a list that contains the result. *)
Theorem indexed_attribute_is_found (txi : TxIndex) (r : abci.TxResult)
    (pos : nat) (event : abci.Event) (attr : abci.EventAttribute)
    (ctx : Context) (n : nat) :
  let tag := abci.Type_ event +:+ "." +:+ abci.Key attr in
  let c := {| query.CompositeKey := tag; query.Op := query.OpEqual;
              query.Operand := VString (abci.Value attr) |} in
  abci.IsOK (abci.Result r) = true ->
  (Index txi r).2 = None ->
  abci.Events (abci.Result r) !! pos = Some event ->
  attr ∈ indexedAttributes event ->
  (forall s, keyForEvent tag (abci.Value attr) r s <> Hash (abci.Tx r)) ->
  tag <> types.TxHashKey ->
  tag <> types.TxHeightKey ->
  dedupMatchEvents [c] = Ret ([c], false) ->
  (exists indexes heightRange,
      LookForRangesWithHeight [c] = Ret ([], indexes, heightRange)) ->
  intInSlice 0 [] = false ->
  ctx n = false ->
  exists rs err n',
    Search (Index txi r).1 {| query.Conditions := inr [c] |} ctx n = Ret ((rs, err), n')
    /\ (err = None -> Some r ∈ rs).
Proof.
  intros tag c Hok Hsucc Hev Hattr Hnokey Hhash Hheight Hdedup Hranges Hskip Hctx.
  rewrite Index_ok in * by done. cbv zeta in *.
  destruct (Marshal r) as [e|raw] eqn:Hm; [discriminate|]. cbn [fst].
  apply (Search_equality_found _ r c (Hash (abci.Tx r))
           (Nat.iter (S pos) nextSeq (eventSeq txi)) ctx n); try done.
  - cbn [WriteSync store]. apply applyBatch_lookup_const.
    + unfold resultEntries. apply elem_of_app. left.
      by apply (eventEntry_in_eventEntries r _ _ _ pos event attr).
    + intros kv Hin Hk. unfold resultEntries in Hin.
      apply elem_of_app in Hin as [Hin|Hin].
      * apply list_elem_of_In, in_concat in Hin as (l & Hl & Hkv).
        apply list_elem_of_In in Hl, Hkv.
        apply elem_of_lookup_imap in Hl as (i & ev & -> & _).
        by apply list_elem_of_fmap in Hkv as (a & -> & _).
      * apply elem_of_cons in Hin as [->|Hin]; [reflexivity|].
        apply list_elem_of_singleton in Hin as ->. cbn [fst] in Hk.
        exfalso. by eapply Hnokey.
  - rewrite <- (app_nil_l (resultEntries _ _ _)), <- (app_nil_r (_ ++ resultEntries _ _ _)).
    apply Get_after_result; [done|]. intros kv Hin. by apply elem_of_nil in Hin.
Qed.

End IndexThenSearch.

Lemma equality_search_finds_witness :
  exists rs err n',
    Search (Demo.indexAll [Demo.eventResult])
      {| query.Conditions :=
           inr [{| query.CompositeKey := "acc.owner"; query.Op := query.OpEqual;
                   query.Operand := VString "Ivan" |}] |}
      Demo.background 0%nat
    = Ret ((rs, err), n')
    /\ (err = None -> Some Demo.eventResult ∈ rs).
Proof.
  apply (equality_search_finds (Demo.indexAll [Demo.eventResult]) Demo.eventResult
           "acc.owner" "Ivan" (Hash (abci.Tx Demo.eventResult)) 2 Demo.background 0%nat);
    [discriminate | discriminate | reflexivity | by eexists _, _ | reflexivity
    | vm_compute; reflexivity | vm_compute; reflexivity | reflexivity].
Defined.

Lemma indexed_attribute_is_found_witness :
  exists rs err n',
    Search (Index (NewTxIndex ∅) Demo.eventResult).1
      {| query.Conditions :=
           inr [{| query.CompositeKey := "acc" +:+ "." +:+ "owner";
                   query.Op := query.OpEqual;
                   query.Operand := VString "Ivan" |}] |}
      Demo.background 0%nat
    = Ret ((rs, err), n')
    /\ (err = None -> Some Demo.eventResult ∈ rs).
Proof.
  apply (indexed_attribute_is_found (NewTxIndex ∅) Demo.eventResult 1 Demo.accEvent
           {| abci.Key := "owner"; abci.Value := "Ivan"; abci.GetIndex := true |}
           Demo.background 0%nat);
    [reflexivity | vm_compute; reflexivity | reflexivity | by left | | discriminate
    | discriminate | reflexivity | by eexists _, _ | reflexivity | reflexivity].
  intros s Hs.
  match type of Hs with
  | keyForEvent ?k ?v _ _ = _ =>
      pose proof (isTagKey_keyForEvent k v Demo.eventResult s) as Htag
  end.
  rewrite Hs in Htag. vm_compute in Htag. discriminate.
Defined.

Lemma existence_search_finds_witness :
  exists rs err n',
    Search (Demo.indexAll [Demo.eventResult])
      {| query.Conditions :=
           inr [{| query.CompositeKey := "acc.owner"; query.Op := query.OpExists;
                   query.Operand := VNil |}] |}
      Demo.background 0%nat
    = Ret ((rs, err), n')
    /\ (err = None -> Some Demo.eventResult ∈ rs).
Proof.
  apply (existence_search_finds (Demo.indexAll [Demo.eventResult]) Demo.eventResult
           "acc.owner" (keyForEvent "acc.owner" "Ivan" Demo.eventResult 2)
           (Hash (abci.Tx Demo.eventResult)) Demo.background 0%nat);
    [discriminate | reflexivity | by eexists _, _ | reflexivity
    | vm_compute; reflexivity | vm_compute; reflexivity | vm_compute; reflexivity
    | reflexivity].
Defined.

(** * The event counter over a batch, and malformed hashes *)

Section EventCounter.
Context `{Codec}.

Lemma wrap64_succ (x : Z) : wrap64 (wrap64 x + 1) = wrap64 (x + 1).
Proof.
  unfold wrap64. f_equal.
  replace ((x + 2 ^ 63) mod 2 ^ 64 - 2 ^ 63 + 1 + 2 ^ 63)
    with ((x + 2 ^ 63) mod 2 ^ 64 + 1) by lia.
  rewrite Z.add_mod_idemp_l by lia. f_equal. lia.
Qed.

(** The counter after [k] events, in closed form. *)
Lemma iter_nextSeq_wrap (k : nat) (seq : Z) :
  Nat.iter (S k) nextSeq seq = wrap64 (seq + Z.of_nat (S k)).
Proof.
  induction k as [|k IH].
  - reflexivity.
  - change (Nat.iter (S (S k)) nextSeq seq) with (nextSeq (Nat.iter (S k) nextSeq seq)).
    rewrite IH. unfold nextSeq. rewrite wrap64_succ. f_equal. lia.
Qed.

(** X22. The events of one result carry distinct sequence numbers: the
    counters given to the events at two different positions of an event
    list (of fewer than [2 ^ 64] events) differ, so match-events can tell
    the attributes of one event from those of another. *)
Theorem event_sequences_distinct (seq0 : Z) (i j : nat) :
  i <> j ->
  Z.of_nat i < 2 ^ 64 ->
  Z.of_nat j < 2 ^ 64 ->
  Nat.iter (S i) nextSeq seq0 <> Nat.iter (S j) nextSeq seq0.
Proof.
  intros Hij Hi Hj. rewrite !iter_nextSeq_wrap. unfold wrap64. intros Heq.
  change (2 ^ 64) with 18446744073709551616 in *.
  change (2 ^ 63) with 9223372036854775808 in *.
  revert Heq. Z.div_mod_to_equations. lia.
Qed.

Lemma addBatchLoop_eventSeq (ops : list abci.TxResult) : forall txi b txi' b',
  addBatchLoop ops txi b = (txi', inr b') ->
  eventSeq txi'
  = Nat.iter (sum_list_with (fun r => length (abci.Events (abci.Result r))) ops)
      nextSeq (eventSeq txi).
Proof.
  induction ops as [|r ops IH]; intros txi b txi' b' Hloop.
  - simpl in Hloop. by injection Hloop as <- _.
  - rewrite addBatchLoop_cons in Hloop. cbv zeta in Hloop.
    destruct (Marshal r) as [err|raw]; [discriminate|].
    apply IH in Hloop. cbn [eventSeq] in Hloop. rewrite Hloop.
    cbn [sum_list_with].
    rewrite (Nat.add_comm (length _)). by rewrite Nat.iter_add.
Qed.

(** X23. The event counter over a batch: when [AddBatch] returns no error,
    the counter has been incremented once for every event of every
    operation of the batch, indexed or not. *)
Theorem AddBatch_eventSeq (txi : TxIndex) (ops : list abci.TxResult) :
  (AddBatch txi ops).2 = None ->
  eventSeq (AddBatch txi ops).1
  = Nat.iter (sum_list_with (fun r => length (abci.Events (abci.Result r))) ops)
      nextSeq (eventSeq txi).
Proof.
  unfold AddBatch.
  destruct (addBatchLoop ops txi NewBatch) as [txi' [err|b']] eqn:Hloop; [discriminate|].
  intros _. cbn [fst WriteSync eventSeq]. by eapply addBatchLoop_eventSeq.
Qed.

End EventCounter.

Section MalformedHash.
Context `{Codec} `{Planner}.

(** X24. A malformed hash is an error: when the operand of the first
    condition on [tx.hash] is a string that is not valid hexadecimal,
    [Search], entered with a live context, returns the empty list and the
    decoding error, whatever the other conditions and the store. *)
Theorem malformed_hash_is_an_error (txi : TxIndex) (q : query.Query)
    (pre post : list query.Condition) (c : query.Condition) (s : string)
    (e : Error) (ctx : Context) (n : nat) :
  query.Conditions q = inr (pre ++ c :: post) ->
  Forall (fun c' => query.CompositeKey c' <> types.TxHashKey) pre ->
  query.CompositeKey c = types.TxHashKey ->
  query.Operand c = VString s ->
  (GoHex.DecodeString s).2 = Some e ->
  ctx n = false ->
  Search txi q ctx n
  = Ret (([], Some (Errorf "error during searching for a hash in the query: %w" e)),
         S n).
Proof.
  intros Hq Hpre Hc Hs He Hctx.
  rewrite (Search_hash txi q pre post c s ctx n) by done. by rewrite He.
Qed.

End MalformedHash.

Lemma event_sequences_distinct_witness :
  Nat.iter 1 nextSeq 0 <> Nat.iter 2 nextSeq 0.
Proof.
  apply (event_sequences_distinct 0 0 1); [discriminate | reflexivity | reflexivity].
Defined.

Lemma AddBatch_eventSeq_witness :
  eventSeq (AddBatch (NewTxIndex ∅) [Demo.eventResult; Demo.okResult]).1
  = Nat.iter (sum_list_with (fun r => length (abci.Events (abci.Result r)))
                [Demo.eventResult; Demo.okResult])
      nextSeq (eventSeq (NewTxIndex ∅)).
Proof.
  apply (AddBatch_eventSeq (NewTxIndex ∅) [Demo.eventResult; Demo.okResult]).
  vm_compute. reflexivity.
Defined.

Lemma malformed_hash_is_an_error_witness :
  Search Demo.oneIndexed
    {| query.Conditions := inr ([] ++ Demo.condition "tx.hash" query.OpEqual (VString "7g") :: []) |}
    Demo.background 0%nat
  = Ret (([], Some (Errorf "error during searching for a hash in the query: %w"
                      (ErrInvalidByte "g"))), 1%nat).
Proof.
  apply (malformed_hash_is_an_error Demo.oneIndexed _ [] []
           (Demo.condition "tx.hash" query.OpEqual (VString "7g")) "7g");
    [reflexivity | constructor | reflexivity | reflexivity | reflexivity | reflexivity].
Defined.

Lemma lookForHash_not_found_iff_witness :
  exists hash err,
    lookForHash [Demo.condition "acc.owner" query.OpEqual (VString "Ivan")]
    = Ret (hash, false, err).
Proof.
  apply (lookForHash_not_found_iff [Demo.condition "acc.owner" query.OpEqual (VString "Ivan")]).
  constructor; [discriminate | constructor].
Defined.

(** * A substring search finds the values that contain the operand *)

Section ContainsSearch.
Context `{Codec} `{Planner}.

(** The scan of [match_] for [OpContains], without match-events, over the
    entries under the composite key: it never panics when the operand is
    a string, and the value of every tag key whose extracted value
    contains the operand ends up in the set. *)
Lemma matchContains_no_events (c : query.Condition) (sub : string)
    (heightInfo : HeightInfo) (l : list (string * string)) :
  query.Operand c = VString sub ->
  forall tmpHashes ctx n,
    exists tmpHashes' n',
      forRange (matchContainsBody c false heightInfo) l tmpHashes ctx n
      = Ret (tmpHashes', n')
      /\ forall h,
           tmpHashes !! h = Some h
           \/ (exists k v, (k, h) ∈ l /\ isTagKey k = true
                           /\ extractValueFromKey k = Ret v
                           /\ GoStrings.Contains v sub = true) ->
           tmpHashes' !! h = Some h.
Proof.
  intros Hop. induction l as [|kv l IH]; intros tmpHashes ctx n.
  - exists tmpHashes, n. split; [reflexivity|].
    intros h [Hh|(k & v & Hin & _)]; [done | by apply elem_of_nil in Hin].
  - cbn [forRange]. unfold bind at 1. unfold Scan_bind.
    unfold matchContainsBody at 1.
    destruct (isTagKey kv.1) eqn:Htag; cbn [negb].
    + destruct (extractValueFromKey_total kv.1) as [v Hv].
      { unfold isTagKey in Htag. apply Nat.leb_le in Htag. lia. }
      unfold bind at 1. unfold Scan_bind. unfold lift at 1. rewrite Hv.
      unfold bind at 1. unfold Scan_bind. unfold lift at 1. rewrite Hop.
      cbn [assertString].
      destruct (GoStrings.Contains v sub) eqn:Hc.
      * unfold bind at 1. unfold Scan_bind. unfold lift at 1. cbn [negb].
        unfold bind at 1. unfold Scan_bind. unfold lift at 1. cbn [setTmpHashes].
        unfold bind at 1. unfold Scan_bind. rewrite selectDone_Normal.
        unfold ret at 1. cbn [fst snd].
        destruct (IH (<[kv.2 := kv.2]> tmpHashes) ctx (S n)) as (t' & n' & -> & Hpost).
        exists t', n'. split; [reflexivity|].
        intros h [Hh|(k & v' & Hin & Hk & Hv' & Hc')].
        -- apply Hpost. left. destruct (decide (kv.2 = h)) as [->|Hne];
             [apply lookup_insert_eq | by rewrite lookup_insert_ne].
        -- apply elem_of_cons in Hin as [<-|Hin].
           ++ apply Hpost. left. apply lookup_insert_eq.
           ++ apply Hpost. right. by exists k, v'.
      * unfold bind at 1. unfold Scan_bind. rewrite selectDone_Normal.
        unfold ret at 1. cbn [fst snd].
        destruct (IH tmpHashes ctx (S n)) as (t' & n' & -> & Hpost).
        exists t', n'. split; [reflexivity|].
        intros h [Hh|(k & v' & Hin & Hk & Hv' & Hc')]; [apply Hpost; by left|].
        apply elem_of_cons in Hin as [<-|Hin].
        -- cbn [fst] in Hv. congruence.
        -- apply Hpost. right. by exists k, v'.
    + unfold ret at 1. cbn [fst snd].
      destruct (IH tmpHashes ctx n) as (t' & n' & -> & Hpost).
      exists t', n'. split; [reflexivity|].
      intros h [Hh|(k & v' & Hin & Hk & Hv' & Hc')]; [apply Hpost; by left|].
      apply elem_of_cons in Hin as [<-|Hin].
      * cbn [fst] in Htag. congruence.
      * apply Hpost. right. by exists k, v'.
Qed.

(** X25. A substring search finds the values that contain the operand: for
    a query with the single condition [tag CONTAINS sub] ([tag] having no
    separator and not being [tx.hash]) that the planner leaves as it is,
    with no range and no match-events, if the store holds a by-event key
    of [tag] and of a value that contains [sub], pointing to a hash under
    which [Get] returns [r], then [Search], entered with a live context,
    does not panic and, unless it returns an error, returns a list that
    contains [r]. *)
Theorem contains_search_finds (txi : TxIndex) (r : abci.TxResult)
    (tag value sub hash : string) (s : Z) (ctx : Context) (n : nat) :
  let c := {| query.CompositeKey := tag; query.Op := query.OpContains;
              query.Operand := VString sub |} in
  tag <> types.TxHashKey ->
  GoStrings.Count tag tagKeySeparatorByte = 0%nat ->
  GoStrings.Contains value sub = true ->
  dedupMatchEvents [c] = Ret ([c], false) ->
  (exists indexes heightRange,
      LookForRangesWithHeight [c] = Ret ([], indexes, heightRange)) ->
  intInSlice 0 [] = false ->
  store txi !! keyForEvent tag value r s = Some hash ->
  Get txi hash = inr (Some r) ->
  ctx n = false ->
  exists rs err n',
    Search txi {| query.Conditions := inr [c] |} ctx n = Ret ((rs, err), n')
    /\ (err = None -> Some r ∈ rs).
Proof.
  intros c Hhash Htag Hsub Hdedup (indexes & hr & Hranges) Hskip Hstore Hget Hctx.
  unfold Search. unfold bind at 1. unfold Scan_bind. unfold pollDone. rewrite Hctx.
  cbn [query.Conditions lookForHash query.CompositeKey c].
  destruct (String.eqb_spec tag types.TxHashKey) as [|_]; [done|].
  unfold bind at 1. unfold Scan_bind. unfold lift at 1. cbv beta iota.
  unfold bind at 1. unfold Scan_bind. rewrite Hdedup. unfold lift at 1. cbv beta iota.
  unfold bind at 1. unfold Scan_bind. unfold lift at 1.
  unfold lookForHeight. cbn [lookForHeightFrom query.CompositeKey query.Op c].
  cbn [query.Operator_eqb]. rewrite andb_false_r.
  cbn [bind outcome_bind obind]. cbv beta iota.
  unfold bind at 1. unfold Scan_bind. rewrite Hranges. unfold lift at 1. cbv beta iota.
  cbn [length Nat.ltb Nat.leb andb negb onlyHeightEq zeroHeightInfo].
  cbn [forRange]. unfold bind at 1. unfold Scan_bind. unfold ret at 1. cbv beta iota.
  unfold indexed. cbn [imap]. cbn [forRange].
  unfold bind at 1. unfold Scan_bind. unfold bind at 1. unfold Scan_bind.
  unfold searchConditionBody at 1. change (Z.of_nat 0) with 0.
  cbv beta iota. rewrite Hskip.
  cbn [hashesInitialized negb filteredHashes].
  unfold bind at 1. unfold Scan_bind.
  unfold match_ at 1. cbn [negb andb query.Op query.CompositeKey c].
  unfold bind at 1. unfold Scan_bind.
  match goal with
  | |- context [forRange (matchContainsBody c false ?hi) ?l ∅ ctx ?k] =>
      destruct (matchContains_no_events c sub hi l eq_refl ∅ ctx k)
        as (found & k1 & -> & Hfound)
  end.
  assert (found !! hash = Some hash) as Hin.
  { apply Hfound. right. exists (keyForEvent tag value r s), value.
    split; [|split; [apply isTagKey_keyForEvent|split; [|done]]].
    - apply elem_of_IteratePrefix. split; [done|].
      apply keyForEvent_HasPrefix_tag.
    - by apply extractValueFromKey_value. }
  destruct (mergeHashes_ret found ∅ true ctx k1) as [k2 ->].
  match goal with
  | |- context [if ?b then _ else _] => destruct b
  end; unfold ret; cbn [fst snd filteredHashes];
    by apply (Search_fetch_found txi r hash).
Qed.

End ContainsSearch.

Lemma contains_search_finds_witness :
  exists rs err n',
    Search (Demo.indexAll [Demo.eventResult])
      {| query.Conditions :=
           inr [{| query.CompositeKey := "acc.owner"; query.Op := query.OpContains;
                   query.Operand := VString "va" |}] |}
      Demo.background 0%nat
    = Ret ((rs, err), n')
    /\ (err = None -> Some Demo.eventResult ∈ rs).
Proof.
  apply (contains_search_finds (Demo.indexAll [Demo.eventResult]) Demo.eventResult
           "acc.owner" "Ivan" "va" (Hash (abci.Tx Demo.eventResult)) 2
           Demo.background 0%nat);
    [discriminate | reflexivity | reflexivity | reflexivity | by eexists _, _
    | reflexivity | vm_compute; reflexivity | vm_compute; reflexivity | reflexivity].
Defined.

(** * A search on a range of heights *)

Section HeightRangeSearch.
Context `{Codec} `{Planner}.

Lemma lookForHash_none (conditions : list query.Condition) :
  Forall (fun c => query.CompositeKey c <> types.TxHashKey) conditions ->
  lookForHash conditions = Ret (EmptyString, false, None).
Proof.
  induction 1 as [|c conditions Hc _ IH]; [reflexivity|].
  cbn [lookForHash].
  by destruct (String.eqb_spec (query.CompositeKey c) types.TxHashKey).
Qed.

Lemma lookForHeightFrom_none (conditions : list query.Condition) : forall i,
  Forall (fun c => query.CompositeKey c <> types.TxHeightKey
                   \/ query.Op c <> query.OpEqual) conditions ->
  lookForHeightFrom i conditions = Ret (0, -1).
Proof.
  induction conditions as [|c conditions IH]; intros i Hall; [reflexivity|].
  apply Forall_cons in Hall as [Hc Hall]. cbn [lookForHeightFrom].
  destruct (String.eqb_spec (query.CompositeKey c) types.TxHeightKey) as [Hk|_];
    [|by apply IH].
  destruct (query.Operator_eqb (query.Op c) query.OpEqual) eqn:Hop; [|by apply IH].
  apply Operator_eqb_eq in Hop. by destruct Hc.
Qed.

(** The scan of [matchRange] without match-events: it never panics, and
    the value of every tag key ends up in the set. *)
Lemma matchRange_scan_no_events (qr : indexer.QueryRange) (heightInfo : HeightInfo)
    (l : list (string * string)) :
  forall tmpHashes ctx n,
    exists tmpHashes' n',
      forRange (matchRangeBody qr false heightInfo) l tmpHashes ctx n
      = Ret (tmpHashes', n')
      /\ forall h,
           tmpHashes !! h = Some h \/ (exists k, (k, h) ∈ l /\ isTagKey k = true) ->
           tmpHashes' !! h = Some h.
Proof.
  induction l as [|kv l IH]; intros tmpHashes ctx n.
  - exists tmpHashes, n. split; [reflexivity|].
    intros h [Hh|(k & Hin & _)]; [done | by apply elem_of_nil in Hin].
  - cbn [forRange]. unfold bind at 1. unfold Scan_bind.
    unfold matchRangeBody at 1.
    destruct (isTagKey kv.1) eqn:Htag; cbn [negb andb].
    + unfold bind at 1. unfold Scan_bind. unfold lift at 1. cbn [negb].
      unfold bind at 1. unfold Scan_bind. unfold lift at 1. cbn [setTmpHashes].
      unfold bind at 1. unfold Scan_bind. rewrite selectDone_Normal.
      unfold ret at 1. cbn [fst snd].
      destruct (IH (<[kv.2 := kv.2]> tmpHashes) ctx (S n)) as (t' & n' & -> & Hpost).
      exists t', n'. split; [reflexivity|].
      intros h [Hh|(k & Hin & Hk)].
      * apply Hpost. left. destruct (decide (kv.2 = h)) as [->|Hne];
          [apply lookup_insert_eq | by rewrite lookup_insert_ne].
      * apply elem_of_cons in Hin as [<-|Hin].
        -- apply Hpost. left. apply lookup_insert_eq.
        -- apply Hpost. right. by exists k.
    + unfold ret at 1. cbn [fst snd].
      destruct (IH tmpHashes ctx n) as (t' & n' & -> & Hpost).
      exists t', n'. split; [reflexivity|].
      intros h [Hh|(k & Hin & Hk)]; [apply Hpost; by left|].
      apply elem_of_cons in Hin as [<-|Hin].
      * cbn [fst] in Htag. congruence.
      * apply Hpost. right. by exists k.
Qed.

(** The loop of [Search] over the conditions, when every index is to be
    skipped: the state is unchanged and the context is not polled. *)
Lemma searchConditions_all_skipped (txi : TxIndex) (matchEvents : bool)
    (heightInfo : HeightInfo) (skipIndexes : list Z) (l : list (Z * query.Condition)) :
  forall st ctx n,
    Forall (fun ic => intInSlice ic.1 skipIndexes = true) l ->
    forRange (searchConditionBody txi matchEvents heightInfo skipIndexes) l st ctx n
    = Ret (st, n).
Proof.
  induction l as [|[i c] l IH]; intros st ctx n Hall; [reflexivity|].
  apply Forall_cons in Hall as [Hi Hall]. cbn [fst] in Hi.
  cbn [forRange]. unfold bind at 1. unfold Scan_bind.
  unfold searchConditionBody at 1. rewrite Hi. unfold ret at 1. cbn [fst snd].
  by apply IH.
Qed.

(** X26. A search on a range of heights finds the heights from the lower
    bound up to, and not including, the upper bound: when all conditions
    of a query make up one range on [tx.height] with big-integer bounds
    [l] and [u], at most 5000 apart and below [2 ^ 32], then for every
    result [r] with [1 <= l <= height < u] whose by-height key is stored
    and points to a hash under which [Get] returns [r], [Search], entered
    with a live context, does not panic and, unless it returns an error,
    returns a list that contains [r]. *)
Theorem height_range_search_finds (txi : TxIndex) (r : abci.TxResult)
    (conditions : list query.Condition) (qr : indexer.QueryRange)
    (rangeIndexes : list Z) (heightRange' : indexer.QueryRange)
    (l u : Z) (hash : string) (ctx : Context) (n : nat) :
  Forall (fun c => query.CompositeKey c <> types.TxHashKey) conditions ->
  Forall (fun c => query.CompositeKey c <> types.TxHeightKey
                   \/ query.Op c <> query.OpEqual) conditions ->
  dedupMatchEvents conditions = Ret (conditions, false) ->
  LookForRangesWithHeight conditions = Ret ([qr], rangeIndexes, heightRange') ->
  (forall i, (i < length conditions)%nat -> intInSlice (Z.of_nat i) rangeIndexes = true) ->
  indexer.Key qr = types.TxHeightKey ->
  indexer.LowerBoundValue qr = VBigInt l ->
  indexer.UpperBoundValue qr = VBigInt u ->
  1 <= l <= abci.Height r ->
  abci.Height r < u < 2 ^ 32 ->
  u - l <= blockToSearch ->
  store txi !! keyForHeight r = Some hash ->
  Get txi hash = inr (Some r) ->
  ctx n = false ->
  exists rs err n',
    Search txi {| query.Conditions := inr conditions |} ctx n = Ret ((rs, err), n')
    /\ (err = None -> Some r ∈ rs).
Proof.
  intros Hnohash Hnoheight Hdedup Hranges Hskip Hkey Hlower Hupper Hl Hu Hwindow
    Hstore Hget Hctx.
  unfold Search. unfold bind at 1. unfold Scan_bind. unfold pollDone. rewrite Hctx.
  cbn [query.Conditions]. rewrite (lookForHash_none conditions Hnohash).
  unfold bind at 1. unfold Scan_bind. unfold lift at 1. cbv beta iota.
  unfold bind at 1. unfold Scan_bind. rewrite Hdedup. unfold lift at 1. cbv beta iota.
  unfold bind at 1. unfold Scan_bind. unfold lift at 1.
  unfold lookForHeight. rewrite (lookForHeightFrom_none conditions 0 Hnoheight).
  cbn [bind outcome_bind obind]. cbv beta iota.
  unfold bind at 1. unfold Scan_bind. rewrite Hranges. unfold lift at 1. cbv beta iota.
  cbn [length Nat.ltb Nat.leb andb negb onlyHeightEq zeroHeightInfo app].
  cbn [forRange]. unfold bind at 1. unfold Scan_bind.
  unfold bind at 1. unfold Scan_bind.
  unfold searchRangeBody at 1. rewrite andb_false_r. cbn [andb hashesInitialized negb].
  unfold bind at 1. unfold Scan_bind.
  unfold matchRange at 1. cbn [negb andb filteredHashes].
  rewrite rangeHeights_spec, Hlower, Hupper. cbn [asBigInt].
  rewrite !wrap64_small by (unfold in_int64, int64_min, int64_max, blockToSearch in *; lia).
  rewrite Z.max_r by lia.
  destruct (Z.ltb_spec u l) as [|_]; [lia|].
  destruct (Z.ltb_spec blockToSearch (u - l)) as [|_]; [lia|]. cbn [orb].
  unfold bind at 1. unfold Scan_bind.
  match goal with
  | |- context [forRange (matchRangeBody qr false ?hi) ?scan ∅ ctx ?k] =>
      destruct (matchRange_scan_no_events qr hi scan ∅ ctx k)
        as (found & k1 & -> & Hfound)
  end.
  assert (found !! hash = Some hash) as Hin.
  { apply Hfound. right. exists (keyForHeight r).
    split; [|apply isTagKey_keyForHeight].
    apply elem_of_Iterator. split; [done|]. rewrite Hkey.
    rewrite (height_bound_le r l), (height_bound_le r u) by lia. lia. }
  destruct (mergeHashes_ret found ∅ true ctx k1) as [k2 ->].
  assert (size found <> 0%nat) as Hsize.
  { intros Hz. apply map_size_empty_inv in Hz. subst. by rewrite lookup_empty in Hin. }
  destruct (Nat.eqb_spec (size found) 0) as [|_]; [done|].
  unfold ret at 1. cbn [fst snd].
  unfold bind at 1. unfold Scan_bind.
  unfold ret at 1. cbv beta iota.
  rewrite searchConditions_all_skipped.
  - cbn [filteredHashes]. by apply (Search_fetch_found txi r hash).
  - apply Forall_forall. intros ic Hic. unfold indexed in Hic.
    apply elem_of_lookup_imap in Hic as (i & c & -> & Hc). cbn [fst].
    apply Hskip. by eapply lookup_lt_Some.
Qed.

End HeightRangeSearch.

Lemma height_range_search_finds_witness :
  exists rs err n',
    Search (Demo.indexAll Demo.tenResults)
      {| query.Conditions :=
           inr [Demo.condition "tx.height" query.OpGreaterEqual (VBigInt 3);
                Demo.condition "tx.height" query.OpLessEqual (VBigInt 7)] |}
      Demo.background 0%nat
    = Ret ((rs, err), n')
    /\ (err = None -> Some (Demo.atHeight 6) ∈ rs).
Proof.
  apply (height_range_search_finds (Demo.indexAll Demo.tenResults) (Demo.atHeight 6)
           [Demo.condition "tx.height" query.OpGreaterEqual (VBigInt 3);
            Demo.condition "tx.height" query.OpLessEqual (VBigInt 7)]
           {| indexer.Key := "tx.height"; indexer.LowerBoundValue := VBigInt 3;
              indexer.UpperBoundValue := VBigInt 7 |}
           [0; 1]
           {| indexer.Key := "tx.height"; indexer.LowerBoundValue := VBigInt 3;
              indexer.UpperBoundValue := VBigInt 7 |}
           3 7 (Hash (abci.Tx (Demo.atHeight 6))) Demo.background 0%nat).
  - repeat constructor; discriminate.
  - apply Forall_cons; split; [right; discriminate|].
    apply Forall_cons; split; [right; discriminate | constructor].
  - reflexivity.
  - vm_compute. reflexivity.
  - intros [|[|i]] Hi; [reflexivity | reflexivity | cbn [length] in Hi; lia].
  - reflexivity.
  - reflexivity.
  - reflexivity.
  - cbn. lia.
  - cbn. lia.
  - unfold blockToSearch. lia.
  - vm_compute. reflexivity.
  - vm_compute. reflexivity.
  - reflexivity.
Defined.
